(** * Media support of the deck library ([anki/media.py])

    A shallow embedding of the media module: the two reference patterns
    and the string routines built on them, the search for a unique name,
    the routines on the media table, the rebuild, the download of missing
    files and the copy of a file into the media directory.

    Conventions of the model.
    - Python strings are lists of characters ([text]); [str] turns a
      literal into one.
    - The four patterns of the module are read from their texts by
      [Re.compile], which knows the part of the syntax they use (literals,
      sets, the digit class, the greedy [?] and [+] on one character,
      groups, the end anchor), and run by a backtracking matcher with the
      priorities of Python's engine.  None of them matches the empty
      string.
    - Paths are compared as written, once resolved against the working
      directory: [.], [..] and doubled separators are not normalised, and
      there are no symbolic links.  [os.path] is the POSIX one, with the
      [splitext] of Python 2.6 and later.  Writing a file does not look at
      its parent directory.
    - The rows of a table are a list, in the order of the table; [refs] is
      a finite map, gone through in the order of the map.
    - [time.time()], [genID()], [checksum] and the remote server are given
      from outside ([env]); the values of the clock are integers.  Counts
      are unbounded integers. *)

From Stdlib Require Import ZArith NArith List Ascii String Bool Lia DecimalN DecimalString.
From stdpp Require Import base option list gmap strings.

Local Open Scope nat_scope.

(** ** Text *)

Definition text := list ascii.

Definition str (s : string) : text := list_ascii_of_string s.

Definition substring (s : text) (b e : nat) : text := take (e - b) (drop b s).

(** ASCII lower-casing, which is what the engine's ignore-case mode applies
    when neither the locale nor the unicode flag is given. *)
Definition lower (c : ascii) : ascii :=
  let n := nat_of_ascii c in
  if (65 <=? n) && (n <=? 90) then ascii_of_nat (n + 32) else c.

Definition is_digit (c : ascii) : bool :=
  let n := nat_of_ascii c in (48 <=? n) && (n <=? 57).

(** ** Patterns *)

Module Re.

Inductive cclass :=
| Lit (c : ascii)                       (* a literal character *)
| Among (negated : bool) (cs : list ascii)   (* [...] and [^...] *)
| Digit.                                (* \d *)

Inductive quant := Once | Opt | Plus.   (* x, x? and x+, both greedy *)

Inductive item :=
| Ch (k : cclass) (q : quant)
| Open (g : nat)                        (* ( of group g *)
| Close                                 (* ) of the innermost open group *)
| Eos.                                  (* $ without the multiline flag *)

Record regex := { icase : bool; items : list item }.

(** Group number [g] spans the offsets [(b, e)] of the subject. *)
Definition spans := list (nat * (nat * nat)).

Record mobj := { m_start : nat; m_stop : nat; m_groups : spans }.

Definition accepts (ic : bool) (k : cclass) (x : ascii) : bool :=
  match k with
  | Lit c => if ic then Ascii.eqb (lower x) (lower c) else Ascii.eqb x c
  | Among neg cs =>
      let hit := if ic then existsb (Ascii.eqb (lower x)) (map lower cs)
                 else existsb (Ascii.eqb x) cs in
      xorb neg hit
  | Digit => is_digit x
  end.

(** [x+] followed by the continuation [k]: take one [x], then prefer taking
    more, and fall back on the continuation at the current point. *)
Fixpoint greedy {R} (ok : ascii -> bool) (k : text -> nat -> option R)
    (s : text) (p : nat) : option R :=
  match s with
  | c :: s' =>
      if ok c then
        match greedy ok k s' (S p) with
        | Some r => Some r
        | None => k s' (S p)
        end
      else None
  | [] => None
  end.

(** [run ic its s p op gs]: match the items [its] against [s], the rest of
    the subject from offset [p] on; [op] is the stack of open groups and
    [gs] the groups closed so far.  The result is the offset where the
    match stops, with the groups. *)
Fixpoint run (ic : bool) (its : list item) (s : text) (p : nat)
    (op : list (nat * nat)) (gs : spans) : option (nat * spans) :=
  match its with
  | [] => Some (p, gs)
  | Ch k Once :: r =>
      match s with
      | c :: s' => if accepts ic k c then run ic r s' (S p) op gs else None
      | [] => None
      end
  | Ch k Opt :: r =>
      match
        match s with
        | c :: s' => if accepts ic k c then run ic r s' (S p) op gs else None
        | [] => None
        end
      with
      | Some x => Some x
      | None => run ic r s p op gs
      end
  | Ch k Plus :: r =>
      greedy (accepts ic k) (fun s' p' => run ic r s' p' op gs) s p
  | Open g :: r => run ic r s p ((g, p) :: op) gs
  | Close :: r =>
      match op with
      | (g, b) :: op' => run ic r s p op' ((g, (b, p)) :: gs)
      | [] => None
      end
  | Eos :: r =>
      match s with
      | [] => run ic r s p op gs
      | [c] => if Ascii.eqb c "010" then run ic r s p op gs else None
      | _ => None
      end
  end.

Definition match_at (re : regex) (s : text) (p : nat) : option (nat * spans) :=
  run (icase re) (items re) s p [] [].

(** The leftmost non-overlapping matches, as the scanner behind [findall],
    [sub] and [search] finds them: [s] is the subject from offset [p] on,
    and [skip] characters of it still belong to the previous match.  After
    an empty match the scan resumes one character further. *)
Fixpoint scan (re : regex) (s : text) (p skip : nat) : list mobj :=
  match skip with
  | S k => match s with _ :: s' => scan re s' (S p) k | [] => [] end
  | 0 =>
      match match_at re s p with
      | Some (e, gs) =>
          {| m_start := p; m_stop := e; m_groups := gs |}
            :: match s with _ :: s' => scan re s' (S p) (e - p - 1) | [] => [] end
      | None => match s with _ :: s' => scan re s' (S p) 0 | [] => [] end
      end
  end.

Definition finditer (re : regex) (s : text) : list mobj := scan re s 0 0.

(** [m.group(g)]; a group that took no part in the match gives the empty
    string, as in the tuples of [findall]. *)
Definition group (s : text) (m : mobj) (g : nat) : text :=
  match list_find (fun x => bool_decide (x.1 = g)) (m_groups m) with
  | Some (_, (_, (b, e))) => substring s b e
  | None => []
  end.

(** [re.findall] for a pattern with two groups: the pairs of the groups. *)
Definition findall (re : regex) (s : text) : list (text * text) :=
  map (fun m => (group s m 1, group s m 2)) (finditer re s).

(** [re.search]: the first match of the scan. *)
Definition search (re : regex) (s : text) : option mobj := head (finditer re s).

(** The subject with every match replaced: the text between the matches is
    kept, from offset [p] on. *)
Fixpoint splice (repl : mobj -> text) (s : text) (ms : list mobj) (p : nat) : text :=
  match ms with
  | [] => drop p s
  | m :: ms' => substring s p (m_start m) ++ repl m ++ splice repl s ms' (m_stop m)
  end.

(** [re.sub] with a function for the replacement. *)
Definition sub (re : regex) (repl : mobj -> text) (s : text) : text :=
  splice repl s (finditer re s) 0.

(** *** Reading the text of a pattern

    The part of the syntax of [re] that the patterns of the module use;
    anything else ([.], [*], [|], braces, ranges, other escapes, groups that
    start with [?]) is refused. *)

Definition is_alnum (c : ascii) : bool :=
  let n := nat_of_ascii c in
  ((48 <=? n) && (n <=? 57)) || ((65 <=? n) && (n <=? 90)) || ((97 <=? n) && (n <=? 122)).

(** The characters of a set, up to the closing bracket; [acc] holds the
    ones read so far, last first. *)
Fixpoint read_set (s : text) (acc : list ascii) : option (list ascii * text) :=
  match s with
  | [] => None
  | c :: rest =>
      if Ascii.eqb c "]" then Some (rev acc, rest)
      else if Ascii.eqb c "-" then None
      else if Ascii.eqb c "\" then
        match rest with
        | e :: rest' => if is_alnum e then None else read_set rest' (e :: acc)
        | [] => None
        end
      else read_set rest (c :: acc)
  end.

(** A set, after its opening bracket: a first [^] negates it, and a
    closing bracket that comes first stands for itself. *)
Definition read_class (s : text) : option (cclass * text) :=
  let '(neg, s1) := match s with
                    | c :: rest => if Ascii.eqb c "^" then (true, rest) else (false, s)
                    | [] => (false, s)
                    end in
  let '(acc, s2) := match s1 with
                    | c :: rest => if Ascii.eqb c "]" then ([c], rest) else ([], s1)
                    | [] => ([], s1)
                    end in
  match read_set s2 acc with
  | Some (cs, rest) => Some (Among neg cs, rest)
  | None => None
  end.

(** The items of a pattern; [g] groups were opened so far, and [acc] holds
    the items read so far, last first. *)
Fixpoint read_items (fuel : nat) (s : text) (g : nat) (acc : list item)
    : option (list item) :=
  match fuel with
  | 0 => None
  | S fuel' =>
      match s with
      | [] => Some (rev acc)
      | c :: rest =>
          if Ascii.eqb c "(" then
            match rest with
            | "?"%char :: _ => None
            | _ => read_items fuel' rest (S g) (Open (S g) :: acc)
            end
          else if Ascii.eqb c ")" then read_items fuel' rest g (Close :: acc)
          else if Ascii.eqb c "$" then read_items fuel' rest g (Eos :: acc)
          else if Ascii.eqb c "+" then
            match acc with
            | Ch k Once :: acc' => read_items fuel' rest g (Ch k Plus :: acc')
            | _ => None
            end
          else if Ascii.eqb c "?" then
            match acc with
            | Ch k Once :: acc' => read_items fuel' rest g (Ch k Opt :: acc')
            | _ => None
            end
          else if Ascii.eqb c "[" then
            match read_class rest with
            | Some (k, rest') => read_items fuel' rest' g (Ch k Once :: acc)
            | None => None
            end
          else if Ascii.eqb c "\" then
            match rest with
            | e :: rest' =>
                if Ascii.eqb e "d" then read_items fuel' rest' g (Ch Digit Once :: acc)
                else if is_alnum e then None
                else read_items fuel' rest' g (Ch (Lit e) Once :: acc)
            | [] => None
            end
          else if existsb (Ascii.eqb c) (str ".*|{}^") then None
          else read_items fuel' rest g (Ch (Lit c) Once :: acc)
      end
  end.

(** [re.compile(pattern)], with the flag [(?i)] read at the start. *)
Definition compile (pattern : text) : option regex :=
  match pattern with
  | "("%char :: "?"%char :: "i"%char :: ")"%char :: rest =>
      match read_items (S (length rest)) rest 0 [] with
      | Some its => Some {| icase := true; items := its |}
      | None => None
      end
  | _ =>
      match read_items (S (length pattern)) pattern 0 [] with
      | Some its => Some {| icase := false; items := its |}
      | None => None
      end
  end.

(** The pattern of a text that [compile] accepts. *)
Definition pattern (p : text) : regex :=
  match compile p with
  | Some re => re
  | None => {| icase := false; items := [] |}
  end.

End Re.

Import Re.

Definition lits (s : string) : list item := map (fun c => Ch (Lit c) Once) (str s).

Definition dquote : ascii := "034".

(** The two patterns of [regexps]; in the second one [dquote] stands for
    the double quote. *)
Definition sound_re : regex := pattern (str "(?i)(\[sound:([^]]+)\])").

Definition img_re : regex :=
  pattern (str "(?i)(<img[^>]+src=[" ++ dquote :: str "']?([^" ++ dquote
           :: str "'>]+)[" ++ dquote :: str "']?[^>]?>)").

Definition regexps : list regex := [sound_re; img_re].

(** ** String manipulation *)

Definition mediaFiles (string : text) : list text :=
  flat_map (fun reg => map snd (findall reg string)) regexps.

Definition stripMedia (txt : text) : text :=
  fold_left (fun txt reg => sub reg (fun _ => []) txt) regexps txt.

(** ** Properties of matches used in the statements *)

(** An item that takes at least one character. *)
Definition consuming (it : item) : bool :=
  match it with
  | Ch _ Once | Ch _ Plus => true
  | _ => false
  end.

(** [leftmost re s lo ms]: the matches [ms] of [re] in [s], from offset [lo]
    on, are exactly what a left-to-right search finds: each one is the match
    at its start, no offset between the previous match and this start
    matches, each search resumes where the previous match stopped (one
    character further after an empty match), and nothing matches after the
    last one. *)
Fixpoint leftmost (re : regex) (s : text) (lo : nat) (ms : list mobj) : Prop :=
  match ms with
  | [] => forall q, lo <= q <= length s -> match_at re (drop q s) q = None
  | m :: ms' =>
      lo <= m_start m <= m_stop m /\ m_stop m <= length s
      /\ match_at re (drop (m_start m) s) (m_start m) = Some (m_stop m, m_groups m)
      /\ (forall q, lo <= q < m_start m -> match_at re (drop q s) q = None)
      /\ leftmost re s (Nat.max (m_stop m) (S (m_start m))) ms'
  end.

(** The number of characters that the matches [ms] cover. *)
Definition removed (ms : list mobj) : nat :=
  foldr (fun m n => (m_stop m - m_start m) + n) 0 ms.

(** ** Paths ([os.path], POSIX flavour) *)

Definition is_sep (c : ascii) : bool := Ascii.eqb c "/".

Definition starts_with_sep (p : text) : bool :=
  match p with c :: _ => is_sep c | [] => false end.

Definition ends_with_sep (p : text) : bool :=
  match last p with Some c => is_sep c | None => false end.

(** [os.path.join(a, b)]: an absolute [b] replaces [a]. *)
Definition join (a b : text) : text :=
  if starts_with_sep b then b
  else if bool_decide (a = []) || ends_with_sep a then a ++ b
  else a ++ "/"%char :: b.

(** [os.path.basename(p)]: what follows the last separator; [acc] is what
    follows the last separator seen so far. *)
Fixpoint after_last_sep (p acc : text) : text :=
  match p with
  | [] => acc
  | c :: p' => if is_sep c then after_last_sep p' p' else after_last_sep p' acc
  end.

Definition basename (p : text) : text := after_last_sep p p.

(** [p.rfind(c)]: the last index of [c] in [p], or -1. *)
Fixpoint rfind_from (c : ascii) (p : text) (i found : Z) : Z :=
  match p with
  | [] => found
  | x :: p' => rfind_from c p' (i + 1)%Z (if Ascii.eqb x c then i else found)
  end.

Definition rfind (c : ascii) (p : text) : Z := rfind_from c p 0%Z (-1)%Z.

(** [os.path.splitext(p)]: split at the last dot of the last component,
    unless only dots come before it in that component. *)
Definition splitext (p : text) : text * text :=
  let sepIndex := rfind "/" p in
  let dotIndex := rfind "." p in
  if (sepIndex <? dotIndex)%Z then
    let lead := substring p (Z.to_nat (sepIndex + 1)) (Z.to_nat dotIndex) in
    if existsb (fun c => negb (Ascii.eqb c ".")) lead
    then (take (Z.to_nat dotIndex) p, drop (Z.to_nat dotIndex) p)
    else (p, [])
  else (p, []).

(** ** Decimal numbers: [int(...)] of a run of digits and the [%d] format *)

Definition digit_uint (c : ascii) (d : Decimal.uint) : Decimal.uint :=
  match nat_of_ascii c - 48 with
  | 0 => Decimal.D0 d | 1 => Decimal.D1 d | 2 => Decimal.D2 d
  | 3 => Decimal.D3 d | 4 => Decimal.D4 d | 5 => Decimal.D5 d
  | 6 => Decimal.D6 d | 7 => Decimal.D7 d | 8 => Decimal.D8 d
  | _ => Decimal.D9 d
  end.

Fixpoint digits_uint (ds : text) : Decimal.uint :=
  match ds with
  | [] => Decimal.Nil
  | c :: ds' => digit_uint c (digits_uint ds')
  end.

Fixpoint uint_digits (d : Decimal.uint) : text :=
  match d with
  | Decimal.Nil => []
  | Decimal.D0 d => "0"%char :: uint_digits d
  | Decimal.D1 d => "1"%char :: uint_digits d
  | Decimal.D2 d => "2"%char :: uint_digits d
  | Decimal.D3 d => "3"%char :: uint_digits d
  | Decimal.D4 d => "4"%char :: uint_digits d
  | Decimal.D5 d => "5"%char :: uint_digits d
  | Decimal.D6 d => "6"%char :: uint_digits d
  | Decimal.D7 d => "7"%char :: uint_digits d
  | Decimal.D8 d => "8"%char :: uint_digits d
  | Decimal.D9 d => "9"%char :: uint_digits d
  end.

(** [int(ds)] for a string of digits (leading zeros allowed). *)
Definition int (ds : text) : N := N.of_uint (digits_uint ds).

(** ["%d" % n] for a natural number. *)
Definition fmt_d (n : N) : text := uint_digits (N.to_uint n).

(** ** The file system *)

Inductive node :=
| File (readable : bool) (data : text)
| Dir.

(** The nodes by path, and the working directory of the process. *)
Record filesystem := { nodes : gmap text node; cwd : text }.

Definition resolve (fs : filesystem) (p : text) : text := join (cwd fs) p.

Definition lookup_path (fs : filesystem) (p : text) : option node :=
  nodes fs !! resolve fs p.

(** [os.path.exists(p)] *)
Definition path_exists (fs : filesystem) (p : text) : bool :=
  match lookup_path fs p with Some _ => true | None => false end.

(** [os.path.isfile(p)] *)
Definition isfile (fs : filesystem) (p : text) : bool :=
  match lookup_path fs p with Some (File _ _) => true | _ => false end.

(** [open(p, "rb").read()]; [None] stands for the [IOError] of a path that
    is absent, a directory or not readable. *)
Definition read_file (fs : filesystem) (p : text) : option text :=
  match lookup_path fs p with Some (File true data) => Some data | _ => None end.

(** [open(p, "wb").write(data)]; [None] stands for the [IOError] of a path
    that is a directory or a file that cannot be opened.  The existence of
    the parent directory is not looked at. *)
Definition write_file (fs : filesystem) (p data : text) : option filesystem :=
  match lookup_path fs p with
  | Some Dir | Some (File false _) => None
  | _ => Some {| nodes := <[resolve fs p := File true data]> (nodes fs); cwd := cwd fs |}
  end.

(** [os.unlink(p)] *)
Definition unlink (fs : filesystem) (p : text) : option filesystem :=
  match lookup_path fs p with
  | Some (File _ _) => Some {| nodes := delete (resolve fs p) (nodes fs); cwd := cwd fs |}
  | _ => None
  end.

(** The name of [p] inside the directory whose path, with its final
    separator, is [prefix]. *)
Definition child_name (prefix p : text) : option text :=
  let name := drop (length prefix) p in
  if bool_decide (take (length prefix) p = prefix)
     && negb (bool_decide (name = [])) && negb (existsb is_sep name)
  then Some name else None.

(** [os.listdir(d)], in the order of the map's traversal (the order of the
    real call is unspecified as well). *)
Definition listdir (fs : filesystem) (d : text) : option (list text) :=
  match lookup_path fs d with
  | Some Dir => Some (omap (child_name (join (resolve fs d) [])) (map fst (map_to_list (nodes fs))))
  | _ => None
  end.

(** [os.makedirs] of a missing directory, as [deck.mediaDir(create=True)]
    needs it. *)
Definition mkdir (fs : filesystem) (d : text) : filesystem :=
  match lookup_path fs d with
  | Some _ => fs
  | None => {| nodes := <[resolve fs d := Dir]> (nodes fs); cwd := cwd fs |}
  end.

(** ** File handling: [uniquePath] *)

(** The pattern that [uniquePath] removes from the name (a raw string in
    the source), and the one of the counter at the end of the name. *)
Definition dangerous_re : regex := pattern (str "[][<>:/\\]").

Definition counter_re : regex := pattern (str " \((\d+)\)$").

(** The local function [repl] of [uniquePath]; [root] is the string the
    match was found in. *)
Definition repl (root : text) (m : mobj) : text :=
  let n := int (group root m 1) in
  str " (" ++ fmt_d (n + 1) ++ str ")".

(** One turn of the loop on [root], when the path exists. *)
Definition next_root (root : text) : text :=
  match search counter_re root with
  | None => root ++ str " (1)"
  | Some _ => sub counter_re (repl root) root
  end.

(** The [while True] loop, with a bound on the number of turns: [None] when
    the bound is reached. *)
Fixpoint uniquePath_loop (fuel : nat) (fs : filesystem) (dir root ext : text) : option text :=
  match fuel with
  | 0 => None
  | S fuel' =>
      let path := join dir (root ++ ext) in
      if negb (path_exists fs path) then Some path
      else uniquePath_loop fuel' fs dir (next_root root) ext
  end.

Definition uniquePath (fuel : nat) (fs : filesystem) (dir base : text) : option text :=
  let base := sub dangerous_re (fun _ => []) base in
  let '(root, ext) := splitext base in
  uniquePath_loop fuel fs dir root ext.

(** ** The deck and what surrounds it *)

(** A row of the [media] table: [size] is the reference count, [created] the
    modification time and [originalPath] the checksum of the file, empty
    when the file is not on disk. *)
Module Media.
Record row := {
  id : Z;
  filename : text;
  size : Z;
  created : Z;
  originalPath : text;
  description : text
}.
End Media.

Inductive event := Start | Update (n : Z) | Finish.

(** What the module takes from outside: [checksum] of [anki.utils], the
    successive values of [time.time()] and of [genID()], and the answer of
    the remote server to the n-th request, [None] when the request fails. *)
Record env := {
  checksum : text -> text;
  clock : nat -> Z;
  genID : nat -> Z;
  urlopen : nat -> text -> option text
}.

Record deck := {
  fs : filesystem;
  media : list Media.row;           (* the media table, in row order *)
  mediaDeleted : list (Z * Z);      (* the mediaDeleted table *)
  cards : list (text * text);       (* question and answer of each card *)
  mediaPath : text;                 (* the path deck.mediaDir() gives *)
  mediaURL : option text;           (* deck.getVar("mediaURL") *)
  modified : bool;
  progress : list event;            (* what the progress window was told *)
  readings : nat;                   (* calls of time.time() so far *)
  issued : nat;                     (* calls of genID() so far *)
  requests : nat                    (* calls of urlopen so far *)
}.

Definition with_fs (x : filesystem) (d : deck) : deck :=
  {| fs := x; media := media d; mediaDeleted := mediaDeleted d; cards := cards d;
     mediaPath := mediaPath d; mediaURL := mediaURL d; modified := modified d;
     progress := progress d; readings := readings d; issued := issued d;
     requests := requests d |}.

Definition with_media (x : list Media.row) (d : deck) : deck :=
  {| fs := fs d; media := x; mediaDeleted := mediaDeleted d; cards := cards d;
     mediaPath := mediaPath d; mediaURL := mediaURL d; modified := modified d;
     progress := progress d; readings := readings d; issued := issued d;
     requests := requests d |}.

Definition with_mediaDeleted (x : list (Z * Z)) (d : deck) : deck :=
  {| fs := fs d; media := media d; mediaDeleted := x; cards := cards d;
     mediaPath := mediaPath d; mediaURL := mediaURL d; modified := modified d;
     progress := progress d; readings := readings d; issued := issued d;
     requests := requests d |}.

Definition with_modified (x : bool) (d : deck) : deck :=
  {| fs := fs d; media := media d; mediaDeleted := mediaDeleted d; cards := cards d;
     mediaPath := mediaPath d; mediaURL := mediaURL d; modified := x;
     progress := progress d; readings := readings d; issued := issued d;
     requests := requests d |}.

Definition with_progress (x : list event) (d : deck) : deck :=
  {| fs := fs d; media := media d; mediaDeleted := mediaDeleted d; cards := cards d;
     mediaPath := mediaPath d; mediaURL := mediaURL d; modified := modified d;
     progress := x; readings := readings d; issued := issued d;
     requests := requests d |}.

Definition with_readings (x : nat) (d : deck) : deck :=
  {| fs := fs d; media := media d; mediaDeleted := mediaDeleted d; cards := cards d;
     mediaPath := mediaPath d; mediaURL := mediaURL d; modified := modified d;
     progress := progress d; readings := x; issued := issued d;
     requests := requests d |}.

Definition with_issued (x : nat) (d : deck) : deck :=
  {| fs := fs d; media := media d; mediaDeleted := mediaDeleted d; cards := cards d;
     mediaPath := mediaPath d; mediaURL := mediaURL d; modified := modified d;
     progress := progress d; readings := readings d; issued := x;
     requests := requests d |}.

Definition with_requests (x : nat) (d : deck) : deck :=
  {| fs := fs d; media := media d; mediaDeleted := mediaDeleted d; cards := cards d;
     mediaPath := mediaPath d; mediaURL := mediaURL d; modified := modified d;
     progress := progress d; readings := readings d; issued := issued d;
     requests := x |}.

(** ** Routines that change the deck or fail *)

Inductive exn := IOError | OSError.

(** A routine returns, raises, or does not end within the bound given to
    the loop of [uniquePath]. *)
Inductive outcome (A : Type) :=
| Ret (a : A) (d : deck)
| Raise (e : exn) (d : deck)
| Loops.

Arguments Ret {A} a d.
Arguments Raise {A} e d.
Arguments Loops {A}.

Definition M (A : Type) : Type := deck -> outcome A.

Definition ret {A} (a : A) : M A := fun d => Ret a d.

Definition bind {A B} (m : M A) (k : A -> M B) : M B :=
  fun d => match m d with
           | Ret a d' => k a d'
           | Raise e d' => Raise e d'
           | Loops => Loops
           end.

Notation "x <- m ;; k" := (bind m (fun x => k))
  (at level 90, m at next level, right associativity).
Notation "m ;;; k" := (bind m (fun _ => k))
  (at level 90, right associativity).

Definition raise {A} (e : exn) : M A := fun d => Raise e d.

(** [try: m except: h] *)
Definition try_except {A} (m h : M A) : M A :=
  fun d => match m d with
           | Raise _ d' => h d'
           | r => r
           end.

Definition gets {A} (f : deck -> A) : M A := fun d => Ret (f d) d.

Definition modify (f : deck -> deck) : M unit := fun d => Ret tt (f d).

Definition lift_io {A} (e : exn) (f : filesystem -> option A) : M A :=
  fun d => match f (fs d) with Some a => Ret a d | None => Raise e d end.

Definition lift_fs (e : exn) (f : filesystem -> option filesystem) : M unit :=
  fun d => match f (fs d) with Some x => Ret tt (with_fs x d) | None => Raise e d end.

Fixpoint for_each {A} (l : list A) (body : A -> M unit) : M unit :=
  match l with
  | [] => ret tt
  | x :: l' => body x ;;; for_each l' body
  end.

Definition time_time (E : env) : M Z :=
  fun d => Ret (clock E (readings d)) (with_readings (S (readings d)) d).

Definition gen_id (E : env) : M Z :=
  fun d => Ret (genID E (issued d)) (with_issued (S (issued d)) d).

(** [urllib2.urlopen(url).read()] *)
Definition url_read (E : env) (url : text) : M text :=
  fun d => let d' := with_requests (S (requests d)) d in
           match urlopen E (requests d) url with
           | Some data => Ret data d'
           | None => Raise IOError d'
           end.

Definition open_read (p : text) : M text := lift_io IOError (fun x => read_file x p).

Definition open_write (p data : text) : M unit := lift_fs IOError (fun x => write_file x p data).

Definition os_unlink (p : text) : M unit := lift_fs OSError (fun x => unlink x p).

Definition os_listdir (p : text) : M (list text) := lift_io OSError (fun x => listdir x p).

Definition os_path_exists (p : text) : M bool := gets (fun d => path_exists (fs d) p).

Definition said (e : event) (d : deck) : deck := with_progress (progress d ++ [e]) d.

Definition tell (e : event) : M unit := modify (said e).

(** Modelled from the spec: [deck.mediaDir(create)], which is not part of
    this module, gives the path of the media directory, and makes the
    directory first when asked to and it is missing. *)
Definition mediaDir (create : bool) : M text :=
  fun d => Ret (mediaPath d) (if create then with_fs (mkdir (fs d) (mediaPath d)) d else d).

(** Modelled from the spec: [deck.flushMod()], which is not part of this
    module, tells the deck that its state changed. *)
Definition flushMod : M unit := modify (with_modified true).

(** [shutil.copy2(src, dst)], without the file times. *)
Definition copy2 (src dst : text) : M unit :=
  d <- gets (fun d => match lookup_path (fs d) dst with
                      | Some Dir => join dst (basename src)
                      | _ => dst
                      end) ;;
  data <- open_read src ;;
  open_write d data.

Definition nonempty (s : text) : bool := negb (bool_decide (s = [])).

(** ** File handling: [copyToMedia] *)

Definition unique_path (fuel : nat) (dir base : text) : M text :=
  fun d => match uniquePath fuel (fs d) dir base with
           | Some p => Ret p d
           | None => Loops
           end.

(** [deck.s.scalar("select filename from media where originalPath = :cs")]:
    the first row found, if any. *)
Definition filename_of_checksum (cs : text) (rows : list Media.row) : option text :=
  Media.filename <$> head (filter (fun r => Media.originalPath r = cs) rows).

Definition copyToMedia (E : env) (fuel : nat) (path : text) : M text :=
  data <- open_read path ;;
  newpath <- gets (fun d => filename_of_checksum (checksum E data) (media d)) ;;
  match newpath with
  | Some (c :: p) => ret (basename (c :: p))
  | _ =>
      let base := basename path in
      mdir <- mediaDir true ;;
      newpath <- unique_path fuel mdir base ;;
      copy2 path newpath ;;;
      ret (basename newpath)
  end.

(** ** DB routines *)

Definition has_filename (file : text) (r : Media.row) : bool :=
  bool_decide (Media.filename r = file).

Definition add_count (c t : Z) (r : Media.row) : Media.row :=
  {| Media.id := Media.id r; Media.filename := Media.filename r;
     Media.size := (Media.size r + c)%Z; Media.created := t;
     Media.originalPath := Media.originalPath r;
     Media.description := Media.description r |}.

Definition reset_count (r : Media.row) : Media.row :=
  {| Media.id := Media.id r; Media.filename := Media.filename r;
     Media.size := 0%Z; Media.created := Media.created r;
     Media.originalPath := Media.originalPath r;
     Media.description := Media.description r |}.

Definition set_sum (sum : text) (c : Z) (r : Media.row) : Media.row :=
  {| Media.id := Media.id r; Media.filename := Media.filename r;
     Media.size := Media.size r; Media.created := c;
     Media.originalPath := sum;
     Media.description := Media.description r |}.

(** [update media set ... where filename = :file] *)
Definition update_where (file : text) (f : Media.row -> Media.row)
    (rows : list Media.row) : list Media.row :=
  map (fun r => if has_filename file r then f r else r) rows.

Definition updateMediaCount (E : env) (file : text) (count : Z) : M unit :=
  mdir <- mediaDir false ;;
  known <- gets (fun d => existsb (has_filename file) (media d)) ;;
  if known then
    t <- time_time E ;;
    modify (fun d => with_media (update_where file (add_count count t) (media d)) d)
  else if (0 <? count)%Z then
    sum <- try_except (data <- open_read (join mdir file) ;; ret (checksum E data))
                      (ret []) ;;
    i <- gen_id E ;;
    t <- time_time E ;;
    modify (fun d => with_media
      (media d ++ [{| Media.id := i; Media.filename := file; Media.size := count;
                      Media.created := t; Media.originalPath := sum;
                      Media.description := [] |}]) d)
  else ret tt.

Definition unreferenced (r : Media.row) : bool := (Media.size r =? 0)%Z.

Definition removeUnusedMedia (E : env) : M unit :=
  ids <- gets (fun d => map Media.id (filter (fun r => unreferenced r = true) (media d))) ;;
  for_each ids (fun i =>
    t <- time_time E ;;
    modify (fun d => with_mediaDeleted (mediaDeleted d ++ [(i, t)]) d)) ;;;
  modify (fun d => with_media (filter (fun r => unreferenced r = false) (media d)) d).

(** ** Rebuilding DB *)

(** [refs[f] += 1], or [refs[f] = 1] for a new key. *)
Definition count_ref (refs : gmap text Z) (f : text) : gmap text Z :=
  match refs !! f with
  | Some n => <[f := (n + 1)%Z]> refs
  | None => <[f := 1%Z]> refs
  end.

Definition card_refs (card : text * text) : list text :=
  mediaFiles card.1 ++ mediaFiles card.2.

Definition count_refs (cs : list (text * text)) : gmap text Z :=
  fold_left count_ref (flat_map card_refs cs) ∅.

(** An element of the list [update]. *)
Record change := { c_f : text; c_sum : text; c_c : Z }.

(** The loop that checks the checksums, over the rows read from the table;
    [update] is the list built so far. *)
Fixpoint check_sums (E : env) (mdir : text) (rows : list Media.row)
    (update : list change) : M (list change) :=
  match rows with
  | [] => ret update
  | r :: rows' =>
      let file := Media.filename r in
      let md5 := Media.originalPath r in
      let path := join mdir file in
      present <- os_path_exists path ;;
      if negb present then
        if nonempty md5 then
          t <- time_time E ;;
          check_sums E mdir rows' (update ++ [{| c_f := file; c_sum := []; c_c := t |}])
        else check_sums E mdir rows' update
      else
        data <- open_read (join mdir file) ;;
        let sum := checksum E data in
        if bool_decide (md5 <> sum) then
          t <- time_time E ;;
          check_sums E mdir rows' (update ++ [{| c_f := file; c_sum := sum; c_c := t |}])
        else check_sums E mdir rows' update
  end.

(** [update media set originalPath = :sum, created = :c where filename = :f] *)
Definition apply_change (rows : list Media.row) (u : change) : list Media.row :=
  update_where (c_f u) (set_sum (c_sum u) (c_c u)) rows.

(** The last part of the rebuild: check that the md5s are up to date. *)
Definition refresh_sums (E : env) (mdir : text) : M unit :=
  rows <- gets media ;;
  update <- check_sums E mdir rows [] ;;
  modify (fun d => with_media (fold_left apply_change update (media d)) d).

Definition rebuildMediaDir (E : env) (delete dirty : bool) : M (list text * list text) :=
  tell Start ;;;
  mdir <- mediaDir true ;;
  (* set all ref counts to 0 *)
  modify (fun d => with_media (map reset_count (media d)) d) ;;;
  (* look through cards for media references *)
  refs <- gets (fun d => count_refs (cards d)) ;;
  (* update ref counts *)
  for_each (map_to_list refs) (fun '(file, count) => updateMediaCount E file count) ;;;
  (* find unused media *)
  names <- os_listdir mdir ;;
  unused <- gets (fun d => filter (fun file =>
              isfile (fs d) (join mdir file) = true /\ refs !! file = None) names) ;;
  (* optionally delete *)
  (if delete then
     removeUnusedMedia E ;;;
     for_each unused (fun f => os_unlink (join mdir f))
   else ret tt) ;;;
  (* check md5s are up to date *)
  refresh_sums E mdir ;;;
  (* update deck and get return info *)
  (if dirty then flushMod else ret tt) ;;;
  nohave <- gets (fun d => map Media.filename
                             (filter (fun r => Media.originalPath r = []) (media d))) ;;
  tell Finish ;;;
  ret (nohave, unused).

(** ** Download missing *)

(** [None], [(False, rpath)] or [(True, grabbed, missing)]. *)
Inductive download_result :=
| NoURL
| Failed (rpath : text)
| Done (grabbed missing : Z).

(** The body of the [try]: [true] when it ends, [false] when the [except]
    clause is entered. *)
Definition fetch_file (E : env) (rpath f : text) : M bool :=
  try_except (data <- url_read E rpath ;; open_write f data ;;; ret true)
             (ret false).

(** The [for] loop over the rows read from the table: [inl rpath] when the
    function returns from inside the loop, [inr (grabbed, missing)] when the
    loop ends. *)
Fixpoint download_rows (E : env) (urlbase mdir : text) (rows : list Media.row)
    (grabbed missing : Z) : M (text + Z * Z) :=
  match rows with
  | [] => ret (inr (grabbed, missing))
  | r :: rows' =>
      let f := Media.filename r in
      let sum := Media.originalPath r in
      let path := join mdir f in
      present <- os_path_exists path ;;
      if negb present then
        let rpath := urlbase ++ f in
        ok <- fetch_file E rpath f ;;
        if ok : bool then
          tell (Update (grabbed + 1 + missing)) ;;;
          download_rows E urlbase mdir rows' (grabbed + 1)%Z missing
        else if nonempty sum then
          (* the file is supposed to exist *)
          tell Finish ;;; ret (inl rpath)
        else
          (* ignore and keep going *)
          tell (Update (grabbed + (missing + 1))) ;;;
          download_rows E urlbase mdir rows' grabbed (missing + 1)%Z
      else
        tell (Update (grabbed + missing)) ;;;
        download_rows E urlbase mdir rows' grabbed missing
  end.

(** What follows the loop. *)
Definition report (x : text + Z * Z) : M download_result :=
  match x with
  | inl rpath => ret (Failed rpath)
  | inr (grabbed, missing) => tell Finish ;;; ret (Done grabbed missing)
  end.

Definition downloadMissing (E : env) : M download_result :=
  urlbase <- gets mediaURL ;;
  match urlbase with
  | Some (c :: u) =>
      mdir <- mediaDir true ;;
      tell Start ;;;
      rows <- gets media ;;
      x <- download_rows E (c :: u) mdir rows 0 0 ;;
      report x
  | _ => ret NoURL
  end.

(** ** Notions used in the statements about [uniquePath] *)

(** What [$] accepts: the end of the string, or a last newline. *)
Definition at_end (tl : text) : Prop := tl = [] \/ tl = ["010"%char].

(** [pre ++ " (" ++ ds ++ ")" ++ tl] *)
Definition with_counter (pre ds tl : text) : text :=
  pre ++ " "%char :: "("%char :: ds ++ ")"%char :: tl.


(** The matches of a pattern that is a single character of a set: one for
    each accepted character of [s], which starts at offset [p]. *)
Fixpoint each_char (ok : ascii -> bool) (s : text) (p : nat) : list mobj :=
  match s with
  | [] => []
  | c :: s' =>
      if ok c then {| m_start := p; m_stop := S p; m_groups := [] |} :: each_char ok s' (S p)
      else each_char ok s' (S p)
  end.

(** The characters that [uniquePath] removes from a name. *)
Definition dangerous (c : ascii) : bool := bool_decide (c ∈ str "][<>:/\").

(** ** Notions used in the statements about the rebuild *)

(** What the check of the md5s finds for the file of a row: its checksum,
    the empty string when the path does not exist, and nothing when the
    path exists but cannot be read. *)
Definition fresh_sum (E : env) (fs : filesystem) (mdir : text) (r : Media.row) : option text :=
  match lookup_path fs (join mdir (Media.filename r)) with
  | None => Some []
  | Some (File true data) => Some (checksum E data)
  | Some _ => None
  end.

(** The changes that the check collects over [rows] when [n] readings of
    the clock were made before it. *)
Fixpoint changes_from (E : env) (fs : filesystem) (mdir : text) (n : nat)
    (rows : list Media.row) : list change :=
  match rows with
  | [] => []
  | r :: rows' =>
      match fresh_sum E fs mdir r with
      | Some sum =>
          if bool_decide (Media.originalPath r = sum) then changes_from E fs mdir n rows'
          else {| c_f := Media.filename r; c_sum := sum; c_c := clock E n |}
                 :: changes_from E fs mdir (S n) rows'
      | None => []
      end
  end.

(** One change on one row. *)
Definition change_row (r : Media.row) (u : change) : Media.row :=
  if has_filename (c_f u) r then set_sum (c_sum u) (c_c u) r else r.

(** The rows named [g] exist and all have the count [n]. *)
Definition counted (g : text) (n : Z) (rows : list Media.row) : Prop :=
  (exists r, r ∈ rows /\ Media.filename r = g)
  /\ forall r, r ∈ rows -> Media.filename r = g -> Media.size r = n.

(** ** Decks for the examples *)

Definition env0 : env :=
  {| checksum := fun data => str "md5:" ++ data;
     clock := fun n => (1000 + Z.of_nat n)%Z;
     genID := fun n => Z.of_nat n;
     urlopen := fun _ url =>
       if bool_decide (url = str "http://host/b.jpg") then Some (str "B") else None |}.

Definition row0 (i : Z) (name : string) (count : Z) (sum : string) : Media.row :=
  {| Media.id := i; Media.filename := str name; Media.size := count;
     Media.created := 0%Z; Media.originalPath := str sum; Media.description := [] |}.

(** A deck whose media directory is /m and whose media come from
    http://host/. *)
Definition deck0 (files : list (string * node)) (wd : string)
    (rows : list Media.row) (cs : list (string * string)) : deck :=
  {| fs := {| nodes := list_to_map (map (fun x => (str x.1, x.2)) files); cwd := str wd |};
     media := rows; mediaDeleted := [];
     cards := map (fun x => (str x.1, str x.2)) cs;
     mediaPath := str "/m"; mediaURL := Some (str "http://host/");
     modified := false; progress := []; readings := 0; issued := 0; requests := 0 |}.

Definition three_files : list (string * node) :=
  [("/m", Dir); ("/m/a.mp3", File true (str "A")); ("/m/b.jpg", File true (str "B"));
   ("/m/c.png", File true (str "C"))]%string.

(** Two references to a.mp3, one to b.jpg, and a stale row for a.mp3. *)
Definition deck_refs : deck :=
  deck0 three_files "/home" [row0 1 "a.mp3" 7 "md5:A"]
        [("[sound:a.mp3]", "[sound:a.mp3]"); ("<img src='b.jpg'>", "")]%string.


(** A row whose file is absent, without a checksum, and which the server
    has; the working directory is not the media directory. *)
Definition deck_fetch : deck :=
  deck0 [("/m", Dir)]%string "/home" [row0 2 "b.jpg" 1 ""] [].

(** The same, with the media directory as the working directory. *)
Definition deck_fetch_in_place : deck :=
  deck0 [("/m", Dir)]%string "/m" [row0 2 "b.jpg" 1 ""] [].

(** A card that refers to a file that cannot be read. *)
Definition deck_unreadable : deck :=
  deck0 [("/m", Dir); ("/m/a.mp3", File false (str "A"))]%string "/home" []
        [("[sound:a.mp3]", "")]%string.

Definition two_sources : list (string * node) :=
  [("/m", Dir); ("/tmp/a.txt", File true (str "same"));
   ("/tmp/b.txt", File true (str "same"))]%string.

(** Two files of the same content outside the media directory; the table
    is empty, or has a row with their checksum. *)
Definition deck_import : deck := deck0 two_sources "/home" [] [].

Definition deck_import_known : deck :=
  deck0 two_sources "/home" [row0 1 "first.txt" 1 "md5:same"] [].

(** Three rows: a file as recorded, a file that changed, a file that is
    gone. *)
Definition deck_sums : deck :=
  deck0 [("/m", Dir); ("/m/a.mp3", File true (str "A"));
         ("/m/b.jpg", File true (str "B2"))]%string "/home"
        [row0 1 "a.mp3" 1 "md5:A"; row0 2 "b.jpg" 1 "md5:B"; row0 3 "c.png" 1 "md5:C"] [].

(** ** Notions used in the further statements *)

(** The rows of [mediaDeleted] that [removeUnusedMedia] writes for the
    identifiers [ids] when [n] readings of the clock were made before. *)
Fixpoint tombstones (E : env) (n : nat) (ids : list Z) : list (Z * Z) :=
  match ids with
  | [] => []
  | i :: ids' => (i, clock E n) :: tombstones E (S n) ids'
  end.

(** The number of times [f] occurs in [l]. *)
Definition occurrences (f : text) (l : list text) : Z :=
  Z.of_nat (length (filter (fun g => g = f) l)).

(** All the references of the cards, card by card, question first. *)
Definition all_refs (cs : list (text * text)) : list text := flat_map card_refs cs.

(** The part of a row that a change of the count leaves alone. *)
Definition row_data (r : Media.row) : Z * text * text * text :=
  (Media.id r, Media.filename r, Media.originalPath r, Media.description r).

(** A text without the characters that start a reference. *)
Definition plain (s : text) : Prop :=
  ("["%char ∉ s) /\ ("<"%char ∉ s).

(** An item that is no group boundary. *)
Definition flat (it : item) : bool :=
  match it with
  | Open _ | Close => false
  | _ => true
  end.

(** ** Notions used in the statements about [downloadMissing] *)

(** Two decks with the same tables, cards, configuration and clocks: they
    differ at most in the files, in what the progress window was told and in
    the number of requests made. *)
Definition same_tables (d d' : deck) : Prop :=
  media d' = media d /\ mediaDeleted d' = mediaDeleted d /\ cards d' = cards d
  /\ mediaPath d' = mediaPath d /\ mediaURL d' = mediaURL d
  /\ modified d' = modified d /\ readings d' = readings d /\ issued d' = issued d
  /\ cwd (fs d') = cwd (fs d).

Definition is_update (e : event) : bool :=
  match e with Update _ => true | _ => false end.

(** ** Notions used in the further statements about the rebuild *)

(** Two decks with the same files and the same state but for the table
    [media] and the numbers of the readings of the clock and of the
    identifiers given. *)
Definition same_files (d d' : deck) : Prop :=
  fs d' = fs d /\ mediaDeleted d' = mediaDeleted d /\ cards d' = cards d
  /\ mediaPath d' = mediaPath d /\ mediaURL d' = mediaURL d
  /\ modified d' = modified d /\ progress d' = progress d
  /\ requests d' = requests d.

(** The check of the md5s can deal with the file of this name: the path is
    absent, or a file that can be read. *)
Definition checkable (fs : filesystem) (mdir name : text) : bool :=
  match lookup_path fs (join mdir name) with
  | Some Dir | Some (File false _) => false
  | _ => true
  end.

(** [rebuildMediaDir] from the search for the unused files on, [refs]
    holding the counts of the references. *)
Definition rebuild_tail (E : env) (delete dirty : bool) (mdir : text)
    (refs : gmap text Z) : M (list text * list text) :=
  names <- os_listdir mdir ;;
  unused <- gets (fun d => filter (fun file =>
              isfile (fs d) (join mdir file) = true /\ refs !! file = None) names) ;;
  (if delete then
     removeUnusedMedia E ;;;
     for_each unused (fun f => os_unlink (join mdir f))
   else ret tt) ;;;
  refresh_sums E mdir ;;;
  (if dirty then flushMod else ret tt) ;;;
  nohave <- gets (fun d => map Media.filename
                             (filter (fun r => Media.originalPath r = []) (media d))) ;;
  tell Finish ;;;
  ret (nohave, unused).

(** * Properties *)

(** ** The patterns, as read from their texts *)

Lemma sound_re_read :
  sound_re = {| icase := true;
                items := [Open 1] ++ lits "[sound:"
                         ++ [Open 2; Ch (Among true ["]"%char]) Plus; Close]
                         ++ lits "]" ++ [Close] |}.
Proof. vm_compute. reflexivity. Qed.

Lemma img_re_read :
  img_re = {| icase := true;
              items := [Open 1] ++ lits "<img"
                       ++ [Ch (Among true [">"%char]) Plus] ++ lits "src="
                       ++ [Ch (Among false [dquote; "'"%char]) Opt;
                           Open 2;
                           Ch (Among true [dquote; "'"%char; ">"%char]) Plus;
                           Close;
                           Ch (Among false [dquote; "'"%char]) Opt;
                           Ch (Among true [">"%char]) Opt]
                       ++ lits ">" ++ [Close] |}.
Proof. vm_compute. reflexivity. Qed.

Lemma dangerous_re_read :
  dangerous_re = {| icase := false;
                    items := [Ch (Among false (str "][<>:/\")) Once] |}.
Proof. vm_compute. reflexivity. Qed.

Lemma counter_re_read :
  counter_re = {| icase := false;
                  items := lits " (" ++ [Open 1; Ch Digit Plus; Close]
                           ++ lits ")" ++ [Eos] |}.
Proof. vm_compute. reflexivity. Qed.

(** Each pattern takes at least one character, so that no match is empty. *)
Lemma patterns_consume :
  Forall (fun re => existsb consuming (items re) = true)
         [sound_re; img_re; dangerous_re; counter_re].
Proof. repeat constructor. Qed.

(** ** The matcher: where a match can stop *)

Section Matcher.

Context {R : Type}.

Lemma greedy_Some (ok : ascii -> bool) (k : text -> nat -> option R) s p r :
  greedy ok k s p = Some r ->
  exists n, 1 <= n <= length s /\ forallb ok (take n s) = true
            /\ k (drop n s) (p + n) = Some r.
Proof.
  revert p. induction s as [|c s IH]; intros p; simpl; [discriminate|].
  destruct (ok c) eqn:Hc; [|discriminate].
  destruct (greedy ok k s (S p)) as [r'|] eqn:Hg.
  - intros [= ->]. destruct (IH _ Hg) as (n & Hn & Hall & Hk).
    exists (S n). simpl. rewrite Hc, Hall.
    replace (p + S n) with (S p + n) by lia. repeat split; auto; lia.
  - intros Hk. exists 1. simpl. rewrite Hc. rewrite ?take_0, ?drop_0.
    replace (p + 1) with (S p) by lia. repeat split; auto; lia.
Qed.

Lemma greedy_None (ok : ascii -> bool) (k : text -> nat -> option R) s p :
  greedy ok k s p = None ->
  forall n, 1 <= n <= length s -> forallb ok (take n s) = true ->
            k (drop n s) (p + n) = None.
Proof.
  revert p. induction s as [|c s IH]; intros p; simpl.
  - intros _ n Hn. lia.
  - destruct (ok c) eqn:Hc.
    + destruct (greedy ok k s (S p)) eqn:Hg; [discriminate|].
      intros Hk [|[|n]] Hn; [lia| |]; simpl.
      * intros _. rewrite drop_0. replace (p + 1) with (S p) by lia. exact Hk.
      * rewrite Hc. simpl. intros Hall.
        replace (p + S (S n)) with (S p + S n) by lia.
        apply (IH _ Hg (S n)); [lia | exact Hall].
    + intros _ [|n] Hn; [lia|]. simpl. rewrite Hc. discriminate.
Qed.

End Matcher.


Lemma run_bounds ic its : forall s p op gs e gs',
  run ic its s p op gs = Some (e, gs') ->
  p <= e <= p + length s /\ (existsb consuming its = true -> p < e).
Proof.
  induction its as [|it its IH]; intros s p op gs e gs'; simpl.
  - intros [= -> ->]. split; [lia | discriminate].
  - destruct it as [k [| |]|g| |].
    + destruct s as [|c s]; [discriminate|].
      destruct (accepts ic k c); [|discriminate].
      intros H. apply IH in H. simpl in *. split; [lia | intros; lia].
    + destruct s as [|c s].
      * intros H. apply IH in H. exact H.
      * destruct (accepts ic k c).
        -- destruct (run ic its s (S p) op gs) as [[e1 g1]|] eqn:H1.
           ++ intros [= -> ->]. apply IH in H1. simpl in *. split; [lia | intros; lia].
           ++ intros H. apply IH in H. exact H.
        -- intros H. apply IH in H. exact H.
    + intros H. apply greedy_Some in H. destruct H as (n & Hn & _ & H).
      apply IH in H. rewrite length_drop in H. split; [lia | intros; lia].
    + intros H. apply IH in H. exact H.
    + destruct op as [|[g b] op]; [discriminate|].
      intros H. apply IH in H. exact H.
    + destruct s as [|c [|c' s]].
      * intros H. apply IH in H. exact H.
      * destruct (Ascii.eqb c "010"); [|discriminate].
        intros H. apply IH in H. exact H.
      * discriminate.
Qed.

(** ** The scanner: leftmost, non-overlapping, left to right *)


Lemma drop_cons_S {A} (l : list A) p c l' : drop p l = c :: l' -> drop (S p) l = l' /\ p < length l.
Proof.
  revert p. induction l as [|x l IH]; intros [|p]; simpl; try discriminate.
  - intros [= -> ->]. rewrite drop_0. split; [reflexivity | lia].
  - intros H. apply IH in H. destruct H. split; [assumption | lia].
Qed.

Lemma drop_nil_length {A} (l : list A) p : p <= length l -> drop p l = [] -> p = length l.
Proof.
  intros Hp H. apply (f_equal length) in H. rewrite length_drop in H. simpl in H. lia.
Qed.

Lemma leftmost_weaken re s lo lo' ms :
  lo <= lo' ->
  (forall q, lo <= q < lo' -> match_at re (drop q s) q = None) ->
  leftmost re s lo' ms -> leftmost re s lo ms.
Proof.
  intros Hle Hnone. destruct ms as [|m ms]; simpl.
  - intros H q Hq. destruct (Nat.lt_ge_cases q lo'); [apply Hnone | apply H]; lia.
  - intros (H1 & H2 & H3 & H4 & H5). repeat split; try lia; auto.
    intros q Hq. destruct (Nat.lt_ge_cases q lo'); [apply Hnone | apply H4]; lia.
Qed.

Lemma scan_leftmost re s0 : forall s p skip,
  drop p s0 = s -> p <= length s0 -> skip <= length s ->
  leftmost re s0 (p + skip) (scan re s p skip).
Proof.
  induction s as [|c s IH]; intros p skip Hd Hp Hskip.
  - simpl in Hskip. assert (skip = 0) as -> by lia.
    apply drop_nil_length in Hd; [|exact Hp]. subst p. simpl.
    destruct (match_at re [] (length s0)) as [[e gs]|] eqn:Hm.
    + unfold match_at in Hm. pose proof (run_bounds _ _ _ _ _ _ _ _ Hm) as [Hb _].
      simpl in Hb. assert (e = length s0) as -> by lia. simpl.
      rewrite Nat.add_0_r. repeat split; try lia.
      rewrite drop_all. exact Hm.
    + simpl. intros q Hq. rewrite Nat.add_0_r in Hq.
      assert (q = length s0) as -> by lia. rewrite drop_all. exact Hm.
  - destruct (drop_cons_S _ _ _ _ Hd) as [Hd' Hlt].
    destruct skip as [|k]; simpl.
    + destruct (match_at re (c :: s) p) as [[e gs]|] eqn:Hm.
      * unfold match_at in Hm. pose proof (run_bounds _ _ _ _ _ _ _ _ Hm) as [Hb _].
        simpl in Hb. simpl. rewrite Nat.add_0_r, Hd.
        assert (Hlen : length s0 = p + S (length s)).
        { rewrite <- (take_drop p s0) at 1. rewrite length_app, length_take, Hd. simpl. lia. }
        repeat split; try lia; [exact Hm |].
        replace (Nat.max e (S p)) with (S p + (e - p - 1)) by lia.
        apply IH; [exact Hd' | lia | lia].
      * rewrite Nat.add_0_r.
        apply (leftmost_weaken re s0 p (S p + 0)); [lia | |apply IH; [exact Hd' | lia | lia]].
        intros q Hq. assert (q = p) as -> by lia. rewrite Hd. exact Hm.
    + simpl in Hskip. replace (p + S k) with (S p + k) by lia.
      apply IH; [exact Hd' | lia | lia].
Qed.

Lemma finditer_leftmost re s : leftmost re s 0 (finditer re s).
Proof.
  unfold finditer. apply (scan_leftmost re s s 0 0); [apply drop_0 | lia | lia].
Qed.

(** ** What a substitution by the empty string removes *)


Lemma splice_length re s : forall ms lo p,
  leftmost re s lo ms -> p <= lo -> p <= length s ->
  length (splice (fun _ => []) s ms p) + removed ms = length s - p.
Proof.
  induction ms as [|m ms IH]; intros lo p Hl Hp Hs; simpl.
  - rewrite length_drop. lia.
  - simpl in Hl. destruct Hl as (H1 & H2 & _ & _ & H5).
    unfold substring. rewrite length_app, length_take, length_drop.
    specialize (IH _ (m_stop m) H5 ltac:(lia) H2). lia.
Qed.

Lemma leftmost_removed re s : forall ms lo,
  existsb consuming (items re) = true ->
  leftmost re s lo ms -> ms <> [] -> 0 < removed ms.
Proof.
  intros [|m ms] lo Hc Hl Hne; [congruence|].
  simpl in Hl. destruct Hl as (_ & _ & Hm & _).
  unfold match_at in Hm. apply run_bounds in Hm. destruct Hm as [_ Hm].
  specialize (Hm Hc). simpl. lia.
Qed.

Lemma sub_nomatch re repl s : finditer re s = [] -> sub re repl s = s.
Proof. unfold sub. intros ->. simpl. apply drop_0. Qed.

Lemma sub_length re s :
  length (sub re (fun _ => []) s) <= length s.
Proof.
  unfold sub.
  pose proof (splice_length re s _ 0 0 (finditer_leftmost re s) ltac:(lia) ltac:(lia)).
  lia.
Qed.

Lemma sub_shorter re s :
  existsb consuming (items re) = true ->
  finditer re s <> [] -> length (sub re (fun _ => []) s) < length s.
Proof.
  intros Hc Hne. unfold sub.
  pose proof (splice_length re s _ 0 0 (finditer_leftmost re s) ltac:(lia) ltac:(lia)).
  pose proof (leftmost_removed re s _ 0 Hc (finditer_leftmost re s) Hne). lia.
Qed.

Lemma findall_nil re s : findall re s = [] <-> finditer re s = [].
Proof.
  unfold findall. split; [apply map_eq_nil | intros ->; reflexivity].
Qed.

Lemma mediaFiles_unfold s :
  mediaFiles s = map (fun m => group s m 2) (finditer sound_re s)
                 ++ map (fun m => group s m 2) (finditer img_re s).
Proof.
  unfold mediaFiles, regexps, findall. simpl.
  rewrite !map_map, app_nil_r. reflexivity.
Qed.

Lemma mediaFiles_nil s :
  mediaFiles s = [] <-> finditer sound_re s = [] /\ finditer img_re s = [].
Proof.
  rewrite mediaFiles_unfold. split.
  - intros H. apply app_eq_nil in H. destruct H as [H1 H2].
    apply map_eq_nil in H1, H2. auto.
  - intros [-> ->]. reflexivity.
Qed.

Lemma stripMedia_unfold s :
  stripMedia s = sub img_re (fun _ => []) (sub sound_re (fun _ => []) s).
Proof. reflexivity. Qed.

Lemma stripMedia_length s : length (stripMedia s) <= length s.
Proof.
  rewrite stripMedia_unfold.
  pose proof (sub_length img_re (sub sound_re (fun _ => []) s)).
  pose proof (sub_length sound_re s). lia.
Qed.

Lemma stripMedia_id_iff s : mediaFiles s = [] <-> stripMedia s = s.
Proof.
  rewrite mediaFiles_nil, stripMedia_unfold. split.
  - intros [H1 H2]. rewrite (sub_nomatch _ _ _ H1). apply sub_nomatch, H2.
  - intros H.
    assert (H1 : finditer sound_re s = []).
    { destruct (finditer sound_re s) eqn:E; [reflexivity|exfalso].
      assert (Hs : length (sub sound_re (fun _ => []) s) < length s)
        by (apply sub_shorter; [reflexivity | rewrite E; discriminate]).
      pose proof (sub_length img_re (sub sound_re (fun _ => []) s)) as Hi.
      rewrite H in Hi. lia. }
    split; [exact H1|].
    rewrite (sub_nomatch _ _ _ H1) in H.
    destruct (finditer img_re s) eqn:E; [reflexivity|exfalso].
    assert (Hs : length (sub img_re (fun _ => []) s) < length s)
      by (apply sub_shorter; [reflexivity | rewrite E; discriminate]).
    rewrite H in Hs. lia.
Qed.

Lemma stripMedia_shorter s : mediaFiles s <> [] -> length (stripMedia s) < length s.
Proof.
  intros Hne. pose proof (stripMedia_length s) as Hle.
  destruct (Nat.eq_dec (length (stripMedia s)) (length s)) as [E|]; [exfalso | lia].
  apply Hne. rewrite mediaFiles_nil.
  rewrite stripMedia_unfold in E.
  pose proof (sub_length img_re (sub sound_re (fun _ => []) s)) as Hi.
  pose proof (sub_length sound_re s) as Hsd.
  assert (H1 : finditer sound_re s = []).
  { destruct (finditer sound_re s) eqn:E1; [reflexivity|exfalso].
    assert (length (sub sound_re (fun _ => []) s) < length s)
      by (apply sub_shorter; [reflexivity | rewrite E1; discriminate]). lia. }
  split; [exact H1|].
  rewrite (sub_nomatch _ _ _ H1) in E.
  destruct (finditer img_re s) eqn:E2; [reflexivity|exfalso].
  assert (length (sub img_re (fun _ => []) s) < length s)
    by (apply sub_shorter; [reflexivity | rewrite E2; discriminate]). lia.
Qed.

Lemma stripMedia_iter_clean : forall n s,
  length s <= n -> exists k, k <= length s /\ mediaFiles (Nat.iter k stripMedia s) = [].
Proof.
  induction n as [|n IH]; intros s Hn.
  - exists 0. split; [lia|]. simpl. destruct s; [reflexivity | simpl in Hn; lia].
  - destruct (mediaFiles s) eqn:E.
    + exists 0. split; [lia | exact E].
    + assert (Hs : length (stripMedia s) < length s)
        by (apply stripMedia_shorter; rewrite E; discriminate).
      destruct (IH (stripMedia s) ltac:(lia)) as (k & Hk & Hc).
      exists (S k). split; [lia|]. rewrite Nat.iter_succ_r. exact Hc.
Qed.

(** ** The references of a text *)

(** C7: [mediaFiles] gives the names captured by the sound pattern before
    those captured by the image pattern; the matches of each pattern are
    the leftmost non-overlapping ones, in the order of the text; and on
    [[sound:foo.mp3]<img src='bar.png'>] the result is foo.mp3, bar.png. *)
Theorem mediaFiles_rule_order (s : text) :
  mediaFiles s = map (fun m => group s m 2) (finditer sound_re s)
                 ++ map (fun m => group s m 2) (finditer img_re s)
  /\ leftmost sound_re s 0 (finditer sound_re s)
  /\ leftmost img_re s 0 (finditer img_re s)
  /\ mediaFiles (str "[sound:foo.mp3]<img src='bar.png'>")
     = [str "foo.mp3"; str "bar.png"].
Proof.
  split; [apply mediaFiles_unfold|].
  split; [apply finditer_leftmost|].
  split; [apply finditer_leftmost|].
  vm_compute. reflexivity.
Qed.

(** C2, as the code has it: removing the matches can bring the text around
    them together into a new match, so a stripped text can still hold a
    reference. *)
Lemma stripMedia_leaves_reference :
  ~ (forall txt : text, mediaFiles (stripMedia txt) = []).
Proof.
  intros H. specialize (H (str "[sou[sound:x]nd:a]")).
  vm_compute in H. discriminate H.
Qed.

(** C2, amended: a text has no reference exactly when stripping leaves it
    as it is; so a stripped text has no reference exactly when stripping it
    again changes nothing, and stripping at most [length txt] times always
    reaches a text without references. *)
Theorem stripMedia_until_clean (txt : text) :
  (mediaFiles txt = [] <-> stripMedia txt = txt)
  /\ (mediaFiles (stripMedia txt) = []
      <-> stripMedia (stripMedia txt) = stripMedia txt)
  /\ exists k, k <= length txt /\ mediaFiles (Nat.iter k stripMedia txt) = [].
Proof.
  split; [apply stripMedia_id_iff|].
  split; [apply stripMedia_id_iff|].
  apply (stripMedia_iter_clean (length txt)). lia.
Qed.

(** ** Decimal numbers *)

Lemma digits_uint_digits d : digits_uint (uint_digits d) = d.
Proof. induction d; simpl; [reflexivity | rewrite IHd; reflexivity ..]. Qed.

Lemma int_fmt_d n : int (fmt_d n) = n.
Proof. unfold int, fmt_d. rewrite digits_uint_digits. apply DecimalN.Unsigned.of_to. Qed.

Lemma fmt_d_inj n m : fmt_d n = fmt_d m -> n = m.
Proof. intros H. apply (f_equal int) in H. rewrite !int_fmt_d in H. exact H. Qed.

Lemma uint_digits_digits d : forallb is_digit (uint_digits d) = true.
Proof. induction d; simpl; [reflexivity | exact IHd ..]. Qed.

Lemma fmt_d_digits n : forallb is_digit (fmt_d n) = true.
Proof. apply uint_digits_digits. Qed.

Lemma fmt_d_nonempty n : fmt_d n <> [].
Proof.
  intros H. pose proof (int_fmt_d n) as Hn. rewrite H in Hn.
  cbv in Hn. subst n. cbv in H. discriminate H.
Qed.

(** ** The counter at the end of a name *)

Lemma greedy_longest {R} (ok : ascii -> bool) (k : text -> nat -> option R) ds rest p r :
  forallb ok ds = true -> ds <> [] ->
  match rest with c :: _ => ok c = false | [] => True end ->
  k rest (p + length ds) = Some r ->
  greedy ok k (ds ++ rest) p = Some r.
Proof.
  revert p. induction ds as [|c ds IH]; intros p Hall Hne Hrest Hk; [congruence|].
  simpl in Hall. apply andb_true_iff in Hall. destruct Hall as [Hc Hall].
  simpl. rewrite Hc. destruct ds as [|c' ds].
  - simpl in *. replace (p + 1) with (S p) in Hk by lia.
    destruct rest as [|x rest]; simpl.
    + exact Hk.
    + rewrite Hrest. exact Hk.
  - rewrite (IH (S p)); [reflexivity | exact Hall | discriminate | exact Hrest |].
    rewrite <- Hk. f_equal. simpl. lia.
Qed.

Lemma counter_match_intro ds tl p :
  forallb is_digit ds = true -> ds <> [] -> at_end tl ->
  match_at counter_re (with_counter [] ds tl) p
  = Some (p + 3 + length ds, [(1, (p + 2, p + 2 + length ds))]).
Proof.
  intros Hds Hne Htl. unfold match_at, with_counter. simpl.
  rewrite (greedy_longest _ _ ds (")"%char :: tl) (S (S p))
             (p + 3 + length ds, [(1, (p + 2, p + 2 + length ds))]));
    [reflexivity | exact Hds | exact Hne | reflexivity |].
  simpl. replace (S (S (p + length ds))) with (p + 2 + length ds) by lia.
  replace (S (S p)) with (p + 2) by lia.
  replace (S (p + 2 + length ds)) with (p + 3 + length ds) by lia.
  destruct Htl as [-> | ->]; reflexivity.
Qed.

Lemma counter_match_elim t p e gs :
  match_at counter_re t p = Some (e, gs) ->
  exists ds tl, t = with_counter [] ds tl
                /\ forallb is_digit ds = true /\ ds <> [] /\ at_end tl.
Proof.
  unfold match_at, with_counter. simpl.
  destruct t as [|c1 [|c2 t]]; simpl; try discriminate.
  - destruct (Ascii.eqb c1 " "); discriminate.
  - destruct (Ascii.eqb c1 " ") eqn:E1; [|discriminate].
    destruct (Ascii.eqb c2 "(") eqn:E2; [|discriminate].
    apply Ascii.eqb_eq in E1, E2. subst c1 c2.
    intros H. apply greedy_Some in H. destruct H as (n & Hn & Hds & Hk).
    destruct (drop n t) as [|c3 tl] eqn:Ed; [discriminate|].
    simpl in Hk. destruct (Ascii.eqb c3 ")") eqn:E3; [|discriminate].
    apply Ascii.eqb_eq in E3. subst c3.
    exists (take n t), tl. rewrite <- Ed, take_drop. repeat split.
    + exact Hds.
    + intros Hnil. apply (f_equal length) in Hnil. rewrite length_take in Hnil.
      simpl in Hnil. lia.
    + destruct tl as [|c4 [|c5 tl]]; [left; reflexivity | | discriminate].
      destruct (Ascii.eqb c4 "010") eqn:E4; [|discriminate].
      apply Ascii.eqb_eq in E4. subst c4. right. reflexivity.
Qed.

Lemma counter_not_inside ds tl : forall v ds' tl',
  forallb is_digit ds' = true -> at_end tl' ->
  v ++ with_counter [] ds tl <> ds' ++ ")"%char :: tl'.
Proof.
  unfold with_counter. simpl.
  induction v as [|c v IH]; intros ds' tl' Hds' Htl'; simpl.
  - destruct ds' as [|d ds']; simpl; [discriminate|].
    intros [= <- _]. simpl in Hds'. discriminate.
  - destruct ds' as [|d ds']; simpl.
    + intros [= -> H]. apply (f_equal length) in H.
      rewrite length_app in H. simpl in H.
      destruct Htl' as [-> | ->]; simpl in H; lia.
    + simpl in Hds'. apply andb_true_iff in Hds'. destruct Hds' as [_ Hds'].
      intros [= _ H]. exact (IH _ _ Hds' Htl' H).
Qed.

Lemma counter_no_match_before pre ds tl q :
  q < length pre ->
  match_at counter_re (drop q (with_counter pre ds tl)) q = None.
Proof.
  intros Hq.
  destruct (match_at counter_re (drop q (with_counter pre ds tl)) q) as [[e gs]|] eqn:Hm;
    [exfalso | reflexivity].
  apply counter_match_elim in Hm. destruct Hm as (ds' & tl' & Ht & Hds' & _ & Htl').
  unfold with_counter in Ht at 1. rewrite drop_app_le in Ht by lia.
  destruct (drop q pre) as [|c1 u] eqn:Eu.
  { apply (f_equal length) in Eu. rewrite length_drop in Eu. simpl in Eu. lia. }
  unfold with_counter in Ht. simpl in Ht. injection Ht as -> Ht.
  destruct u as [|c2 u]; simpl in Ht; [discriminate Ht|].
  injection Ht as -> Ht.
  exact (counter_not_inside ds tl u ds' tl' Hds' Htl' Ht).
Qed.

Lemma counter_no_match_after pre ds tl q :
  at_end tl -> length pre + 3 + length ds <= q ->
  match_at counter_re (drop q (with_counter pre ds tl)) q = None.
Proof.
  intros Htl Hq. unfold with_counter.
  replace (pre ++ " "%char :: "("%char :: ds ++ ")"%char :: tl)
    with ((pre ++ " "%char :: "("%char :: ds ++ [")"%char]) ++ tl)
    by (rewrite <- !app_assoc; simpl; rewrite <- app_assoc; reflexivity).
  rewrite drop_app_ge by (rewrite length_app; simpl; rewrite length_app; simpl; lia).
  destruct Htl as [-> | ->].
  - rewrite drop_nil. reflexivity.
  - destruct (q - _) as [|n]; simpl; [reflexivity | rewrite drop_nil; reflexivity].
Qed.

Lemma leftmost_unique re s : forall ms ms' lo,
  leftmost re s lo ms -> leftmost re s lo ms' -> ms = ms'.
Proof.
  induction ms as [|m ms IH]; intros [|m' ms'] lo H H'; simpl in *.
  - reflexivity.
  - destruct H' as (Hb & He & Hm & _). rewrite H in Hm by lia. discriminate.
  - destruct H as (Hb & He & Hm & _). rewrite H' in Hm by lia. discriminate.
  - destruct H as (Hb & He & Hm & Hn & Hr).
    destruct H' as (Hb' & He' & Hm' & Hn' & Hr').
    assert (Hs : m_start m = m_start m').
    { destruct (Nat.lt_trichotomy (m_start m) (m_start m')) as [Hlt | [Heq | Hlt]].
      - rewrite Hn' in Hm by lia. discriminate.
      - exact Heq.
      - rewrite Hn in Hm' by lia. discriminate. }
    rewrite <- Hs in Hm', Hr'. rewrite Hm in Hm'. injection Hm' as Hstop Hgs.
    rewrite <- Hstop in Hr'.
    rewrite (IH _ _ Hr Hr').
    destruct m, m'; simpl in *; subst; reflexivity.
Qed.

Lemma with_counter_length pre ds tl :
  length (with_counter pre ds tl) = length pre + 3 + length ds + length tl.
Proof. unfold with_counter. rewrite length_app. simpl. rewrite length_app. simpl. lia. Qed.

Lemma finditer_counter pre ds tl :
  forallb is_digit ds = true -> ds <> [] -> at_end tl ->
  finditer counter_re (with_counter pre ds tl)
  = [{| m_start := length pre; m_stop := length pre + 3 + length ds;
        m_groups := [(1, (length pre + 2, length pre + 2 + length ds))] |}].
Proof.
  intros Hds Hne Htl.
  apply (leftmost_unique counter_re (with_counter pre ds tl) _ _ 0);
    [apply finditer_leftmost|].
  simpl. rewrite with_counter_length. repeat split; try lia.
  - unfold with_counter at 1. rewrite drop_app_length.
    apply (counter_match_intro ds tl (length pre) Hds Hne Htl).
  - intros q Hq. apply counter_no_match_before. lia.
  - intros q Hq. apply counter_no_match_after; [exact Htl | lia].
Qed.

Lemma next_root_counter pre ds tl :
  forallb is_digit ds = true -> ds <> [] -> at_end tl ->
  next_root (with_counter pre ds tl) = with_counter pre (fmt_d (int ds + 1)) tl.
Proof.
  intros Hds Hne Htl. unfold next_root, search, sub.
  rewrite (finditer_counter pre ds tl Hds Hne Htl). simpl.
  unfold substring, repl, group. simpl.
  rewrite drop_0, Nat.sub_0_r. unfold substring.
  assert (E1 : take (length pre) (with_counter pre ds tl) = pre).
  { unfold with_counter. rewrite take_app_length. reflexivity. }
  assert (E2 : take (length pre + 2 + length ds - (length pre + 2))
                 (drop (length pre + 2) (with_counter pre ds tl)) = ds).
  { unfold with_counter.
    replace (pre ++ " "%char :: "("%char :: ds ++ ")"%char :: tl)
      with ((pre ++ [" "%char; "("%char]) ++ ds ++ ")"%char :: tl)
      by (rewrite <- app_assoc; reflexivity).
    rewrite drop_app_ge by (rewrite length_app; simpl; lia).
    rewrite length_app. simpl.
    replace (length pre + 2 - (length pre + 2)) with 0 by lia. rewrite drop_0.
    replace (length pre + 2 + length ds - (length pre + 2)) with (length ds) by lia.
    apply take_app_length. }
  assert (E3 : drop (length pre + 3 + length ds) (with_counter pre ds tl) = tl).
  { unfold with_counter.
    replace (pre ++ " "%char :: "("%char :: ds ++ ")"%char :: tl)
      with ((pre ++ " "%char :: "("%char :: ds ++ [")"%char]) ++ tl)
      by (rewrite <- !app_assoc; simpl; rewrite <- app_assoc; reflexivity).
    rewrite drop_app_ge by (rewrite length_app; simpl; rewrite length_app; simpl; lia).
    rewrite length_app. simpl. rewrite length_app. simpl.
    replace (length pre + 3 + length ds - (length pre + S (S (length ds + 1)))) with 0 by lia.
    apply drop_0. }
  rewrite E1, E2, E3. unfold with_counter. simpl.
  rewrite <- !app_assoc. reflexivity.
Qed.

Lemma next_root_plain root :
  search counter_re root = None -> next_root root = with_counter root (fmt_d 1) [].
Proof. unfold next_root. intros ->. reflexivity. Qed.

(** Whatever the name, one turn of the loop leaves it with a counter, and
    a further turn adds one to that counter. *)
Lemma next_root_form root :
  exists pre n tl, at_end tl /\ next_root root = with_counter pre (fmt_d n) tl.
Proof.
  destruct (search counter_re root) as [m|] eqn:Hs.
  - unfold search in Hs. pose proof (finditer_leftmost counter_re root) as Hl.
    destruct (finditer counter_re root) as [|m' ms]; [discriminate|].
    injection Hs as ->. simpl in Hl. destruct Hl as (_ & _ & Hm & _).
    apply counter_match_elim in Hm.
    destruct Hm as (ds & tl & Ht & Hds & Hne & Htl).
    exists (take (m_start m) root), (int ds + 1)%N, tl. split; [exact Htl|].
    rewrite <- (next_root_counter _ ds tl Hds Hne Htl). f_equal.
    rewrite <- (take_drop (m_start m) root) at 1. rewrite Ht. reflexivity.
  - exists root, 1%N, []. split; [left; reflexivity | apply next_root_plain, Hs].
Qed.

Lemma next_root_iter pre tl : at_end tl -> forall k n,
  Nat.iter k next_root (with_counter pre (fmt_d n) tl)
  = with_counter pre (fmt_d (n + N.of_nat k)) tl.
Proof.
  intros Htl. induction k as [|k IH]; intros n.
  - simpl. rewrite N.add_0_r. reflexivity.
  - rewrite Nat.iter_succ_r.
    rewrite (next_root_counter pre (fmt_d n) tl (fmt_d_digits n) (fmt_d_nonempty n) Htl).
    rewrite int_fmt_d, IH. f_equal. f_equal. lia.
Qed.

Lemma with_counter_inj pre tl a b :
  with_counter pre (fmt_d a) tl = with_counter pre (fmt_d b) tl -> a = b.
Proof.
  unfold with_counter. intros H. apply app_inv_head in H.
  injection H as H. apply fmt_d_inj.
  apply (app_inv_tail (")"%char :: tl)). exact H.
Qed.

(** ** Paths *)

Lemma join_inj d x y :
  starts_with_sep x = starts_with_sep y -> join d x = join d y -> x = y.
Proof.
  unfold join. intros <-. destruct (starts_with_sep x); [auto|].
  destruct (bool_decide (d = []) || ends_with_sep d).
  - apply app_inv_head.
  - intros H. apply app_inv_head in H. injection H as H. exact H.
Qed.

Lemma join_head d x y :
  starts_with_sep x = starts_with_sep y ->
  starts_with_sep (join d x) = starts_with_sep (join d y).
Proof.
  unfold join. intros H. rewrite <- H. destruct (starts_with_sep x) eqn:Hx; [congruence|].
  destruct d as [|c d]; simpl.
  - congruence.
  - destruct (ends_with_sep (c :: d)); reflexivity.
Qed.

Lemma with_counter_head pre ds ds' tl ext :
  starts_with_sep (with_counter pre ds tl ++ ext)
  = starts_with_sep (with_counter pre ds' tl ++ ext).
Proof. destruct pre; reflexivity. Qed.

(** ** A map cannot hold all the values of an injective sequence *)

Lemma fresh_key (m : gmap text node) (f : nat -> text) :
  (forall a b, f a = f b -> a = b) ->
  exists k, k <= size m /\ m !! f k = None.
Proof.
  intros Hinj.
  destruct (decide (Exists (fun k => m !! f k = None) (seq 0 (S (size m))))) as [He | Hn].
  - apply Exists_exists in He. destruct He as (k & Hin & Hk).
    apply elem_of_seq in Hin. exists k. split; [lia | exact Hk].
  - exfalso. apply not_Exists_Forall in Hn; [|intros k; apply _].
    rewrite Forall_forall in Hn.
    assert (Hsub : list_to_set (f <$> seq 0 (S (size m))) ⊆ dom m).
    { intros x Hx. apply elem_of_list_to_set, list_elem_of_fmap in Hx.
      destruct Hx as (k & -> & Hk). apply elem_of_dom.
      specialize (Hn k Hk). simpl in Hn.
      destruct (m !! f k); [eauto | congruence]. }
    apply subseteq_size in Hsub.
    rewrite size_dom, size_list_to_set, length_fmap, length_seq in Hsub; [lia|].
    apply NoDup_fmap_2_strong; [|apply NoDup_seq].
    intros a b _ _. apply Hinj.
Qed.

(** ** The loop of [uniquePath] *)

Lemma uniquePath_loop_spec fs dir ext : forall fuel root p,
  uniquePath_loop fuel fs dir root ext = Some p <->
  exists j, j < fuel
    /\ p = join dir (Nat.iter j next_root root ++ ext)
    /\ path_exists fs p = false
    /\ forall i, i < j -> path_exists fs (join dir (Nat.iter i next_root root ++ ext)) = true.
Proof.
  induction fuel as [|fuel IH]; intros root p; simpl.
  - split; [discriminate | intros (j & Hj & _); lia].
  - destruct (path_exists fs (join dir (root ++ ext))) eqn:Hex; simpl.
    + rewrite IH. split.
      * intros (j & Hj & Hp & Hfree & Hbusy). exists (S j).
        rewrite Nat.iter_succ_r. repeat split; [lia | exact Hp | exact Hfree |].
        intros [|i] Hi; [exact Hex|]. rewrite Nat.iter_succ_r. apply Hbusy. lia.
      * intros ([|j] & Hj & Hp & Hfree & Hbusy).
        -- simpl in Hp. subst p. congruence.
        -- exists j. rewrite Nat.iter_succ_r in Hp. repeat split; [lia | exact Hp | exact Hfree |].
           intros i Hi. specialize (Hbusy (S i) ltac:(lia)).
           rewrite Nat.iter_succ_r in Hbusy. exact Hbusy.
    + split.
      * intros [= <-]. exists 0. repeat split; [lia | exact Hex | intros i Hi; lia].
      * intros ([|j] & Hj & Hp & Hfree & Hbusy).
        -- simpl in Hp. congruence.
        -- specialize (Hbusy 0 ltac:(lia)). simpl in Hbusy. congruence.
Qed.

Lemma uniquePath_loop_complete fs dir ext : forall fuel root j,
  j < fuel ->
  path_exists fs (join dir (Nat.iter j next_root root ++ ext)) = false ->
  exists p, uniquePath_loop fuel fs dir root ext = Some p.
Proof.
  induction fuel as [|fuel IH]; intros root j Hj Hfree; [lia|]. simpl.
  destruct (path_exists fs (join dir (root ++ ext))) eqn:Hex; simpl; [|eauto].
  destruct j as [|j]; [simpl in Hfree; congruence|].
  rewrite Nat.iter_succ_r in Hfree. apply (IH _ j); [lia | exact Hfree].
Qed.

Lemma uniquePath_loop_more fs dir ext fuel extra root p :
  uniquePath_loop fuel fs dir root ext = Some p ->
  uniquePath_loop (fuel + extra) fs dir root ext = Some p.
Proof.
  rewrite !uniquePath_loop_spec. intros (j & Hj & H). exists j. split; [lia | exact H].
Qed.

(** Among the names with the counters [n], [n + 1], ... one is free. *)
Lemma counter_free fs dir ext pre n tl :
  exists k, k <= size (nodes fs)
    /\ path_exists fs (join dir (with_counter pre (fmt_d (n + N.of_nat k)) tl ++ ext)) = false.
Proof.
  destruct (fresh_key (nodes fs)
              (fun k => resolve fs (join dir (with_counter pre (fmt_d (n + N.of_nat k)) tl ++ ext))))
    as (k & Hk & Hnone).
  - intros a b H. unfold resolve in H.
    apply join_inj in H; [|apply join_head, with_counter_head].
    apply join_inj in H; [|apply with_counter_head].
    apply app_inv_tail in H. apply with_counter_inj in H. lia.
  - exists k. split; [exact Hk|]. unfold path_exists, lookup_path. rewrite Hnone. reflexivity.
Qed.

Lemma uniquePath_loop_terminates fs dir root ext :
  exists p, uniquePath_loop (size (nodes fs) + 2) fs dir root ext = Some p.
Proof.
  destruct (next_root_form root) as (pre & n & tl & Htl & Hnext).
  destruct (counter_free fs dir ext pre n tl) as (k & Hk & Hfree).
  apply (uniquePath_loop_complete fs dir ext _ root (S k)); [lia|].
  rewrite Nat.iter_succ_r, Hnext, (next_root_iter pre tl Htl). exact Hfree.
Qed.

(** ** Removing the dangerous characters *)

Lemma scan_each_char ok : forall s p,
  scan {| icase := false; items := [Ch ok Once] |} s p 0 = each_char (accepts false ok) s p.
Proof.
  induction s as [|c s IH]; intros p; [reflexivity|].
  simpl. unfold match_at. simpl.
  destruct (accepts false ok c).
  - replace (S p - p - 1) with 0 by lia. rewrite IH. reflexivity.
  - apply IH.
Qed.

Lemma each_char_head ok : forall s p m ms,
  each_char ok s p = m :: ms -> p <= m_start m.
Proof.
  induction s as [|c s IH]; intros p m ms; simpl; [discriminate|].
  destruct (ok c).
  - intros [= <- _]. simpl. lia.
  - intros H. apply IH in H. lia.
Qed.

Lemma splice_skip (s : text) ms p c rest :
  drop p s = c :: rest ->
  match ms with m :: _ => S p <= m_start m | [] => True end ->
  splice (fun _ => []) s ms p = c :: splice (fun _ => []) s ms (S p).
Proof.
  intros Hd Hms. destruct (drop_cons_S _ _ _ _ Hd) as [Hd' _].
  destruct ms as [|m ms]; simpl.
  - rewrite Hd, Hd'. reflexivity.
  - unfold substring. rewrite Hd, Hd'.
    replace (m_start m - p) with (S (m_start m - S p)) by lia. reflexivity.
Qed.

Lemma splice_each_char ok : forall s pre,
  splice (fun _ => []) (pre ++ s) (each_char ok s (length pre)) (length pre)
  = filter (fun c => ok c = false) s.
Proof.
  induction s as [|c s IH]; intros pre.
  - simpl. rewrite app_nil_r. apply drop_all.
  - specialize (IH (pre ++ [c])). rewrite <- app_assoc, length_app in IH. simpl in IH.
    replace (length pre + 1) with (S (length pre)) in IH by lia.
    simpl each_char. rewrite filter_cons. destruct (ok c) eqn:Hc.
    + simpl. unfold substring. rewrite Nat.sub_diag, take_0. simpl.
      exact IH.
    + rewrite <- IH.
      apply (splice_skip _ _ _ c s).
      * rewrite drop_app_length. reflexivity.
      * destruct (each_char ok s (S (length pre))) as [|m ms] eqn:E; [exact I|].
        apply each_char_head in E. exact E.
Qed.

Lemma existsb_eqb_elem (c : ascii) (l : list ascii) :
  existsb (Ascii.eqb c) l = bool_decide (c ∈ l).
Proof.
  induction l as [|x l IH]; simpl.
  - reflexivity.
  - rewrite IH. destruct (Ascii.eqb c x) eqn:E; simpl.
    + apply Ascii.eqb_eq in E. subst x. symmetry. apply bool_decide_eq_true. left.
    + apply Ascii.eqb_neq in E. apply bool_decide_ext. rewrite elem_of_cons. tauto.
Qed.

Lemma accepts_dangerous c :
  accepts false (Among false (str "][<>:/\")) c = dangerous c.
Proof. unfold accepts, dangerous. rewrite existsb_eqb_elem. reflexivity. Qed.

Lemma sub_dangerous base :
  sub dangerous_re (fun _ => []) base = filter (fun c => dangerous c = false) base.
Proof.
  rewrite dangerous_re_read. unfold sub, finditer. rewrite scan_each_char.
  rewrite (splice_each_char _ base []).
  apply list_filter_iff. intros c. rewrite accepts_dangerous. reflexivity.
Qed.

(** ** The names that [uniquePath] tries *)

Lemma splitext_app p : (splitext p).1 ++ (splitext p).2 = p.
Proof.
  unfold splitext.
  destruct (rfind "/" p <? rfind "." p)%Z; [|apply app_nil_r].
  destruct (existsb _ _); simpl; [apply take_drop | apply app_nil_r].
Qed.

Lemma next_root_cases r :
  (search counter_re r = None /\ next_root r = with_counter r (fmt_d 1) [])
  \/ (exists pre ds tl, r = with_counter pre ds tl
        /\ forallb is_digit ds = true /\ ds <> [] /\ at_end tl
        /\ next_root r = with_counter pre (fmt_d (int ds + 1)) tl).
Proof.
  destruct (search counter_re r) as [m|] eqn:Hs.
  - right. unfold search in Hs. pose proof (finditer_leftmost counter_re r) as Hl.
    destruct (finditer counter_re r) as [|m' ms]; [discriminate|].
    injection Hs as ->. simpl in Hl. destruct Hl as (_ & _ & Hm & _).
    apply counter_match_elim in Hm.
    destruct Hm as (ds & tl & Ht & Hds & Hne & Htl).
    assert (Hr : r = with_counter (take (m_start m) r) ds tl).
    { rewrite <- (take_drop (m_start m) r) at 1. rewrite Ht. reflexivity. }
    exists (take (m_start m) r), ds, tl. repeat split; try assumption.
    rewrite Hr at 1. apply next_root_counter; assumption.
  - left. split; [reflexivity | apply next_root_plain, Hs].
Qed.


Lemma uniquePath_unfold fuel fs dir base :
  uniquePath fuel fs dir base
  = uniquePath_loop fuel fs dir (splitext (sub dangerous_re (fun _ => []) base)).1
                                (splitext (sub dangerous_re (fun _ => []) base)).2.
Proof. unfold uniquePath. destruct (splitext _). reflexivity. Qed.

(** C10: the search of [uniquePath] for a free name ends, in at most as
    many turns as the file system has nodes, plus two, and on a path that
    does not exist; from the first turn on, the names tried are one name
    whose counter goes up by one in each turn. *)
Theorem uniquePath_terminates (fs : filesystem) (dir base : text) :
  exists fuel p,
    fuel <= size (nodes fs) + 2
    /\ (forall extra, uniquePath (fuel + extra) fs dir base = Some p)
    /\ path_exists fs p = false
    /\ exists pre n tl, at_end tl /\
         forall k, Nat.iter (S k) next_root
                     (splitext (sub dangerous_re (fun _ => []) base)).1
                   = with_counter pre (fmt_d (n + N.of_nat k)) tl.
Proof.
  set (root := (splitext (sub dangerous_re (fun _ => []) base)).1).
  set (ext := (splitext (sub dangerous_re (fun _ => []) base)).2).
  destruct (uniquePath_loop_terminates fs dir root ext) as (p & Hp).
  exists (size (nodes fs) + 2), p. split; [lia|]. split; [|split].
  - intros extra. rewrite uniquePath_unfold. apply uniquePath_loop_more, Hp.
  - apply uniquePath_loop_spec in Hp. destruct Hp as (j & _ & _ & Hfree & _). exact Hfree.
  - destruct (next_root_form root) as (pre & n & tl & Htl & Hnext).
    exists pre, n, tl. split; [exact Htl|]. intros k.
    rewrite Nat.iter_succ_r, Hnext. apply next_root_iter, Htl.
Qed.

(** ** Creating the path that [uniquePath] gave *)


Lemma path_exists_insert fs k x q :
  path_exists {| nodes := <[k := x]> (nodes fs); cwd := cwd fs |} q
  = bool_decide (resolve fs q = k) || path_exists fs q.
Proof.
  unfold path_exists, lookup_path, resolve. simpl.
  destruct (decide (join (cwd fs) q = k)) as [E | E].
  - rewrite E, lookup_insert_eq, bool_decide_eq_true_2; reflexivity.
  - rewrite lookup_insert_ne by congruence.
    rewrite bool_decide_eq_false_2 by exact E. reflexivity.
Qed.


(** ** Names without separators *)

Lemma after_last_sep_plain : forall p acc,
  existsb is_sep p = false -> after_last_sep p acc = acc.
Proof.
  induction p as [|c p IH]; intros acc; simpl; [reflexivity|].
  destruct (is_sep c); simpl; [discriminate | apply IH].
Qed.

Lemma basename_plain name : existsb is_sep name = false -> basename name = name.
Proof. apply after_last_sep_plain. Qed.

Lemma existsb_sep_app (a b : text) :
  existsb is_sep (a ++ b) = false <-> existsb is_sep a = false /\ existsb is_sep b = false.
Proof. rewrite existsb_app. apply orb_false_iff. Qed.

Lemma after_last_sep_last : forall a b acc,
  existsb is_sep b = false -> after_last_sep (a ++ "/"%char :: b) acc = b.
Proof.
  induction a as [|c a IH]; intros b acc Hb; simpl.
  - apply after_last_sep_plain, Hb.
  - destruct (is_sep c); apply IH, Hb.
Qed.

(** The name of a path made with [join] is the name that was joined. *)
Lemma basename_join dir name :
  existsb is_sep name = false -> basename (join dir name) = name.
Proof.
  intros Hname. unfold basename, join.
  assert (Hhead : starts_with_sep name = false).
  { destruct name as [|c name]; [reflexivity|]. simpl in *.
    apply orb_false_iff in Hname. apply Hname. }
  rewrite Hhead. destruct (decide (dir = [])) as [-> | Hne].
  - simpl. apply after_last_sep_plain, Hname.
  - rewrite (bool_decide_eq_false_2 _ Hne). simpl.
    destruct (ends_with_sep dir) eqn:Hend.
    + unfold ends_with_sep in Hend. destruct (last dir) as [c|] eqn:Hlast; [|discriminate].
      apply last_Some in Hlast. destruct Hlast as [dir' ->].
      apply Ascii.eqb_eq in Hend. subst c.
      rewrite <- app_assoc. simpl. apply after_last_sep_last, Hname.
    + apply after_last_sep_last, Hname.
Qed.

Lemma digits_no_sep ds : forallb is_digit ds = true -> existsb is_sep ds = false.
Proof.
  induction ds as [|c ds IH]; simpl; [reflexivity|].
  intros H. apply andb_true_iff in H. destruct H as [Hc Hds].
  rewrite (IH Hds), orb_false_r. unfold is_sep.
  destruct (Ascii.eqb c "/") eqn:E; [|reflexivity].
  apply Ascii.eqb_eq in E. subst c. discriminate Hc.
Qed.

Lemma with_counter_no_sep pre ds tl :
  existsb is_sep (with_counter pre ds tl) = false
  <-> existsb is_sep pre = false /\ existsb is_sep ds = false /\ existsb is_sep tl = false.
Proof.
  unfold with_counter. rewrite existsb_sep_app. simpl. rewrite existsb_sep_app. simpl.
  tauto.
Qed.

Lemma next_root_no_sep r :
  existsb is_sep r = false -> existsb is_sep (next_root r) = false.
Proof.
  intros Hr.
  destruct (next_root_cases r) as [[_ ->] | (pre & ds & tl & -> & Hds & _ & _ & ->)].
  - apply with_counter_no_sep. split; [exact Hr | split; reflexivity].
  - apply with_counter_no_sep in Hr. destruct Hr as (Hpre & _ & Htl).
    apply with_counter_no_sep.
    split; [exact Hpre | split; [apply digits_no_sep, fmt_d_digits | exact Htl]].
Qed.

Lemma next_root_iter_no_sep r : forall k,
  existsb is_sep r = false -> existsb is_sep (Nat.iter k next_root r) = false.
Proof.
  induction k as [|k IH]; intros Hr; [exact Hr|].
  simpl. apply next_root_no_sep, IH, Hr.
Qed.

Lemma clean_no_sep base :
  existsb is_sep (filter (fun c => dangerous c = false) base) = false.
Proof.
  induction base as [|c base IH]; [reflexivity|].
  rewrite filter_cons. destruct (decide (dangerous c = false)) as [Hc | Hc]; [|exact IH].
  simpl. rewrite IH, orb_false_r. unfold is_sep.
  destruct (Ascii.eqb c "/") eqn:E; [|reflexivity].
  apply Ascii.eqb_eq in E. subst c. discriminate Hc.
Qed.


(** ** Download missing *)

(** The primitive routines, for [autounfold]. *)
Create HintDb deck_ops discriminated.
#[local] Hint Unfold fetch_file try_except bind ret url_read open_write open_read
  lift_fs lift_io gets modify tell : deck_ops.

Lemma fetch_file_cases E rpath f d :
  fetch_file E rpath f d =
  match urlopen E (requests d) rpath with
  | Some data =>
      match write_file (fs d) f data with
      | Some fs' => Ret true (with_fs fs' (with_requests (S (requests d)) d))
      | None => Ret false (with_requests (S (requests d)) d)
      end
  | None => Ret false (with_requests (S (requests d)) d)
  end.
Proof.
  autounfold with deck_ops.
  destruct (urlopen E (requests d) rpath) as [data|]; [|reflexivity].
  simpl. destruct (write_file (fs d) f data); reflexivity.
Qed.


Lemma download_rows_cons E urlbase mdir r rows g m d :
  download_rows E urlbase mdir (r :: rows) g m d =
  if path_exists (fs d) (join mdir (Media.filename r)) then
    download_rows E urlbase mdir rows g m (said (Update (g + m)) d)
  else
    match fetch_file E (urlbase ++ Media.filename r) (Media.filename r) d with
    | Ret true d' =>
        download_rows E urlbase mdir rows (g + 1) m (said (Update (g + 1 + m)) d')
    | Ret false d' =>
        if nonempty (Media.originalPath r)
        then Ret (inl (urlbase ++ Media.filename r)) (said Finish d')
        else download_rows E urlbase mdir rows g (m + 1) (said (Update (g + (m + 1))) d')
    | Raise e d' => Raise e d'
    | Loops => Loops
    end.
Proof.
  simpl. unfold bind at 1. unfold os_path_exists, gets.
  destruct (path_exists (fs d) (join mdir (Media.filename r))); simpl; [reflexivity|].
  unfold bind at 1.
  destruct (fetch_file E (urlbase ++ Media.filename r) (Media.filename r) d)
    as [[|] d' | e d' |]; try reflexivity.
  destruct (nonempty (Media.originalPath r)); reflexivity.
Qed.



Lemma downloadMissing_unfold E d c u :
  mediaURL d = Some (c :: u) ->
  downloadMissing E d =
  (x <- download_rows E (c :: u) (mediaPath d) (media d) 0 0 ;; report x)
    (said Start (with_fs (mkdir (fs d) (mediaPath d)) d)).
Proof. unfold downloadMissing. unfold bind at 1. unfold gets. intros ->. reflexivity. Qed.


(** C6, amended: when the file of [r] is absent and its download succeeds,
    the data is written at the path [f] as the working directory resolves
    it, [grabbed] goes up by one, and the path of [f] in the media directory
    exists afterwards only when it is that same path. *)
Theorem download_writes_cwd (E : env) (urlbase mdir : text) (r : Media.row)
    (rows : list Media.row) (g m : Z) (d : deck) (data : text) (fs' : filesystem) :
  path_exists (fs d) (join mdir (Media.filename r)) = false ->
  urlopen E (requests d) (urlbase ++ Media.filename r) = Some data ->
  write_file (fs d) (Media.filename r) data = Some fs' ->
  download_rows E urlbase mdir (r :: rows) g m d =
    download_rows E urlbase mdir rows (g + 1) m
      (said (Update (g + 1 + m)) (with_fs fs' (with_requests (S (requests d)) d)))
  /\ fs' = {| nodes := <[join (cwd (fs d)) (Media.filename r) := File true data]> (nodes (fs d));
              cwd := cwd (fs d) |}
  /\ path_exists fs' (join mdir (Media.filename r))
     = bool_decide (resolve (fs d) (join mdir (Media.filename r))
                    = resolve (fs d) (Media.filename r)).
Proof.
  intros Habsent Hurl Hwrite.
  assert (Hfs : fs' = {| nodes := <[resolve (fs d) (Media.filename r) := File true data]> (nodes (fs d));
                         cwd := cwd (fs d) |}).
  { unfold write_file in Hwrite.
    destruct (lookup_path (fs d) (Media.filename r)) as [[[|] ?|]|]; congruence. }
  split; [|split].
  - rewrite download_rows_cons, Habsent, fetch_file_cases, Hurl, Hwrite. reflexivity.
  - exact Hfs.
  - rewrite Hfs, path_exists_insert, Habsent. apply orb_false_r.
Qed.

(** ** The check of the md5s *)

Lemma with_readings_same d : with_readings (readings d) d = d.
Proof. destruct d. reflexivity. Qed.

Lemma check_sums_ok E mdir : forall rows acc d,
  Forall (fun r => is_Some (fresh_sum E (fs d) mdir r)) rows ->
  check_sums E mdir rows acc d
  = Ret (acc ++ changes_from E (fs d) mdir (readings d) rows)
        (with_readings (readings d + length (changes_from E (fs d) mdir (readings d) rows)) d).
Proof.
  induction rows as [|r rows IH]; intros acc d Hok.
  - simpl. unfold ret. rewrite app_nil_r, Nat.add_0_r, with_readings_same. reflexivity.
  - inversion Hok as [|? ? [sum Hsum] Hok']; subst.
    simpl. rewrite Hsum. unfold fresh_sum in Hsum.
    unfold bind at 1. unfold os_path_exists, gets, path_exists.
    destruct (lookup_path (fs d) (join mdir (Media.filename r))) as [[[|] data|]|] eqn:Hl;
      try discriminate; simpl.
    + injection Hsum as <-.
      unfold bind at 1. unfold open_read, lift_io, read_file. rewrite Hl.
      destruct (decide (Media.originalPath r = checksum E data)) as [Heq | Hne].
      * rewrite (bool_decide_eq_false_2 _ (fun H => H Heq)).
        rewrite (bool_decide_eq_true_2 _ Heq). apply IH, Hok'.
      * rewrite (bool_decide_eq_true_2 _ Hne), (bool_decide_eq_false_2 _ Hne).
        unfold bind at 1. unfold time_time.
        rewrite IH by exact Hok'. simpl. rewrite <- app_assoc. simpl.
        f_equal. destruct d; unfold with_readings; simpl. f_equal. lia.
    + injection Hsum as <-. unfold nonempty.
      destruct (decide (Media.originalPath r = [])) as [Heq | Hne].
      * rewrite !(bool_decide_eq_true_2 _ Heq). simpl. apply IH, Hok'.
      * rewrite !(bool_decide_eq_false_2 _ Hne). simpl.
        unfold bind at 1. unfold time_time.
        rewrite IH by exact Hok'. simpl. rewrite <- app_assoc. simpl.
        f_equal. destruct d; unfold with_readings; simpl. f_equal. lia.
Qed.

Lemma check_sums_raises E mdir : forall rows acc d,
  Exists (fun r => fresh_sum E (fs d) mdir r = None) rows ->
  exists d', check_sums E mdir rows acc d = Raise IOError d' /\ media d' = media d.
Proof.
  induction rows as [|r rows IH]; intros acc d Hex; [inversion Hex|].
  simpl. unfold bind at 1. unfold os_path_exists, gets, path_exists.
  destruct (fresh_sum E (fs d) mdir r) as [sum|] eqn:Hsum.
  - assert (Hex' : Exists (fun r => fresh_sum E (fs d) mdir r = None) rows)
      by (inversion Hex; [congruence | assumption]).
    unfold fresh_sum in Hsum.
    destruct (lookup_path (fs d) (join mdir (Media.filename r))) as [[[|] data|]|] eqn:Hl;
      try discriminate; simpl.
    + unfold bind at 1. unfold open_read, lift_io, read_file. rewrite Hl.
      destruct (bool_decide (Media.originalPath r <> checksum E data)).
      * unfold bind at 1. unfold time_time.
        destruct (IH (acc ++ [{| c_f := Media.filename r; c_sum := checksum E data;
                                 c_c := clock E (readings d) |}])
                    (with_readings (S (readings d)) d) Hex') as (d' & -> & Hm).
        exists d'. split; [reflexivity | exact Hm].
      * apply IH, Hex'.
    + destruct (nonempty (Media.originalPath r)).
      * unfold bind at 1. unfold time_time.
        destruct (IH (acc ++ [{| c_f := Media.filename r; c_sum := [];
                                 c_c := clock E (readings d) |}])
                    (with_readings (S (readings d)) d) Hex') as (d' & -> & Hm).
        exists d'. split; [reflexivity | exact Hm].
      * apply IH, Hex'.
  - unfold fresh_sum in Hsum.
    destruct (lookup_path (fs d) (join mdir (Media.filename r))) as [[[|] data|]|] eqn:Hl;
      try discriminate; simpl.
    + unfold bind at 1. unfold open_read, lift_io, read_file. rewrite Hl.
      exists d. split; reflexivity.
    + unfold bind at 1. unfold open_read, lift_io, read_file. rewrite Hl.
      exists d. split; reflexivity.
Qed.

Lemma fold_apply_change : forall U rows,
  fold_left apply_change U rows = map (fun r => fold_left change_row U r) rows.
Proof.
  induction U as [|u U IH]; intros rows; simpl.
  - symmetry. apply map_id.
  - rewrite IH. unfold apply_change, update_where. rewrite map_map. reflexivity.
Qed.

Lemma change_row_filename r u : Media.filename (change_row r u) = Media.filename r.
Proof. unfold change_row. destruct (has_filename (c_f u) r); reflexivity. Qed.

Lemma change_row_size r u : Media.size (change_row r u) = Media.size r.
Proof. unfold change_row. destruct (has_filename (c_f u) r); reflexivity. Qed.

Lemma fold_change_row_keeps : forall U r,
  Media.filename (fold_left change_row U r) = Media.filename r
  /\ Media.size (fold_left change_row U r) = Media.size r.
Proof.
  induction U as [|u U IH]; intros r; simpl; [split; reflexivity|].
  destruct (IH (change_row r u)) as [-> ->].
  split; [apply change_row_filename | apply change_row_size].
Qed.





(** ** Counting the references *)

Lemma bind_Ret {A B} (m : M A) (k : A -> M B) d a d' :
  m d = Ret a d' -> bind m k d = k a d'.
Proof. unfold bind. intros ->. reflexivity. Qed.

Lemma count_ref_comm (m : gmap text Z) x y :
  count_ref (count_ref m x) y = count_ref (count_ref m y) x.
Proof.
  destruct (decide (x = y)) as [-> | Hne]; [reflexivity|].
  unfold count_ref.
  destruct (m !! x) as [a|] eqn:Hx, (m !! y) as [b|] eqn:Hy;
    rewrite ?lookup_insert_ne, ?Hx, ?Hy by congruence;
    apply insert_insert_ne; congruence.
Qed.

Lemma count_refs_perm l l' : l ≡ₚ l' ->
  forall m, fold_left count_ref l m = fold_left count_ref l' m.
Proof.
  induction 1 as [|x l l' _ IH|x y l|l1 l2 l3 _ IH1 _ IH2]; intros m; simpl.
  - reflexivity.
  - apply IH.
  - rewrite count_ref_comm. reflexivity.
  - rewrite IH1. apply IH2.
Qed.

Lemma updateMediaCount_media E file count d :
  (0 < count)%Z ->
  exists d',
    updateMediaCount E file count d = Ret tt d'
    /\ fs d' = fs d /\ cards d' = cards d /\ mediaPath d' = mediaPath d
    /\ ((existsb (has_filename file) (media d) = true
         /\ exists t, media d' = update_where file (add_count count t) (media d))
        \/ (existsb (has_filename file) (media d) = false
            /\ exists row, Media.filename row = file /\ Media.size row = count
                           /\ media d' = media d ++ [row])).
Proof.
  intros Hpos. unfold updateMediaCount.
  unfold bind at 1. unfold mediaDir at 1. unfold bind at 1. unfold gets at 1.
  destruct (existsb (has_filename file) (media d)) eqn:Hk.
  - unfold bind, time_time, modify. eexists. split; [reflexivity|].
    repeat split. left. split; [reflexivity|]. eexists. reflexivity.
  - apply Z.ltb_lt in Hpos. rewrite Hpos.
    unfold bind at 1. unfold try_except, bind at 1, open_read, lift_io.
    destruct (read_file (fs d) (join (mediaPath d) file)) as [data|];
      unfold ret, bind, gen_id, time_time, modify; simpl;
      (eexists; split; [reflexivity|]; repeat split; right;
       split; [reflexivity|]; eexists; repeat split; reflexivity).
Qed.

Lemma updateMediaCount_counts E file count d :
  (0 < count)%Z ->
  (forall r, r ∈ media d -> Media.filename r = file -> Media.size r = 0%Z) ->
  exists d',
    updateMediaCount E file count d = Ret tt d'
    /\ fs d' = fs d /\ cards d' = cards d /\ mediaPath d' = mediaPath d
    /\ counted file count (media d')
    /\ (forall g r', g <> file -> r' ∈ media d' -> Media.filename r' = g -> r' ∈ media d)
    /\ (forall g r, g <> file -> r ∈ media d -> Media.filename r = g -> r ∈ media d').
Proof.
  intros Hpos Hzero.
  destruct (updateMediaCount_media E file count d Hpos)
    as (d' & Hrun & Hfs & Hcards & Hpath & Hmedia).
  exists d'. split; [exact Hrun|]. split; [exact Hfs|]. split; [exact Hcards|].
  split; [exact Hpath|].
  destruct Hmedia as [[Hk [t Hm]] | [Hk (row & Hname & Hsize & Hm)]]; rewrite Hm.
  - split; [split|split].
    + apply existsb_exists in Hk. destruct Hk as (r & Hin & Hr).
      apply bool_decide_eq_true in Hr. exists (add_count count t r). split; [|exact Hr].
      unfold update_where. apply list_elem_of_fmap. exists r.
      split; [|apply list_elem_of_In, Hin].
      unfold has_filename. rewrite bool_decide_eq_true_2 by exact Hr. reflexivity.
    + intros r' Hin Hr'. unfold update_where in Hin. apply list_elem_of_fmap in Hin.
      destruct Hin as (r & -> & Hin). unfold has_filename in *.
      destruct (bool_decide (Media.filename r = file)) eqn:Hb.
      * simpl. rewrite (Hzero r Hin); [lia|]. apply bool_decide_eq_true in Hb. exact Hb.
      * apply bool_decide_eq_false in Hb. contradiction.
    + intros g r' Hg Hin Hr'. unfold update_where in Hin. apply list_elem_of_fmap in Hin.
      destruct Hin as (r & -> & Hin). unfold has_filename in *.
      destruct (bool_decide (Media.filename r = file)) eqn:Hb; [|exact Hin].
      apply bool_decide_eq_true in Hb. simpl in Hr'. congruence.
    + intros g r Hg Hin Hr. unfold update_where. apply list_elem_of_fmap. exists r.
      split; [|exact Hin]. unfold has_filename.
      rewrite bool_decide_eq_false_2 by congruence. reflexivity.
  - assert (Hnone : forall r, r ∈ media d -> Media.filename r <> file).
    { intros r Hin Hr. apply not_true_iff_false in Hk. apply Hk.
      apply existsb_exists. exists r. split; [apply list_elem_of_In, Hin|].
      apply bool_decide_eq_true. exact Hr. }
    split; [split|split].
    + exists row. split; [|exact Hname]. apply elem_of_app. right. left.
    + intros r' Hin Hr'. apply elem_of_app in Hin. destruct Hin as [Hin | Hin].
      * exfalso. exact (Hnone r' Hin Hr').
      * apply list_elem_of_singleton in Hin. subst r'. exact Hsize.
    + intros g r' Hg Hin Hr'. apply elem_of_app in Hin. destruct Hin as [Hin | Hin].
      * exact Hin.
      * apply list_elem_of_singleton in Hin. subst r'. congruence.
    + intros g r Hg Hin Hr. apply elem_of_app. left. exact Hin.
Qed.

Lemma for_each_counts E : forall (l : list (text * Z)) d,
  NoDup (map fst l) ->
  Forall (fun x => (0 < x.2)%Z) l ->
  (forall x r, x ∈ l -> r ∈ media d -> Media.filename r = x.1 -> Media.size r = 0%Z) ->
  exists d',
    for_each l (fun '(file, count) => updateMediaCount E file count) d = Ret tt d'
    /\ fs d' = fs d /\ cards d' = cards d /\ mediaPath d' = mediaPath d
    /\ (forall x, x ∈ l -> counted x.1 x.2 (media d'))
    /\ (forall g n, g ∉ map fst l -> counted g n (media d) -> counted g n (media d'))
    /\ (forall r, r ∈ media d' -> Media.filename r ∈ map fst l \/ r ∈ media d).
Proof.
  induction l as [|[file count] l IH]; intros d Hnd Hpos Hzero.
  - exists d. simpl. unfold ret. do 4 (split; [reflexivity|]).
    split; [intros x Hx; inversion Hx|].
    split; [intros g n _ H; exact H | intros r Hr; right; exact Hr].
  - simpl in Hnd. apply NoDup_cons in Hnd. destruct Hnd as [Hnotin Hnd].
    inversion Hpos as [|? ? Hc Hpos']; subst. simpl in Hc.
    destruct (updateMediaCount_counts E file count d Hc) as
      (d1 & Hrun & Hfs & Hcards & Hpath & Hcnt & Hback & Hforth).
    { intros r Hin Hr. apply (Hzero (file, count) r); [left | exact Hin | exact Hr]. }
    destruct (IH d1 Hnd Hpos') as (d' & Hrun' & Hfs' & Hcards' & Hpath' & Hcnt' & Hkeep' & Hfrom').
    { intros x r Hx Hin Hr. apply (Hzero x r); [right; exact Hx | | exact Hr].
      apply (Hback x.1); [|exact Hin | exact Hr].
      intros Heq. apply Hnotin. rewrite <- Heq.
      apply list_elem_of_fmap. exists x. split; [reflexivity | exact Hx]. }
    exists d'. split.
    { simpl. rewrite (bind_Ret _ _ _ _ _ Hrun). exact Hrun'. }
    split; [congruence|]. split; [congruence|]. split; [congruence|]. split; [|split].
    + intros x Hx. apply elem_of_cons in Hx. destruct Hx as [-> | Hx].
      * simpl. apply Hkeep'; [exact Hnotin | exact Hcnt].
      * apply Hcnt', Hx.
    + intros g n Hg [[r [Hin Hr]] Hall]. apply Hkeep'.
      * intros Hin'. apply Hg. simpl. right. exact Hin'.
      * assert (Hne : g <> file) by (intros ->; apply Hg; simpl; left).
        split.
        -- exists r. split; [apply (Hforth g); assumption | exact Hr].
        -- intros r' Hin' Hr'. apply Hall; [|exact Hr']. apply (Hback g); assumption.
    + intros r Hr. simpl. destruct (Hfrom' r Hr) as [Hin | Hin]; [left; right; exact Hin|].
      destruct (decide (Media.filename r = file)) as [-> | Hne]; [left; left|].
      right. apply (Hback (Media.filename r)); [exact Hne | exact Hin | reflexivity].
Qed.

(** [updateMediaCount], the only routine that adds rows, keeps the file
    names of the table distinct. *)
Lemma updateMediaCount_unique E file count d d' :
  NoDup (map Media.filename (media d)) ->
  updateMediaCount E file count d = Ret tt d' ->
  NoDup (map Media.filename (media d')).
Proof.
  intros Hnd. unfold updateMediaCount.
  unfold bind at 1. unfold mediaDir at 1. unfold bind at 1. unfold gets at 1.
  destruct (existsb (has_filename file) (media d)) eqn:Hk.
  - unfold bind, time_time, modify. intros [= <-]. simpl.
    unfold update_where. rewrite map_map.
    erewrite map_ext; [exact Hnd|].
    intros r. destruct (has_filename file r); reflexivity.
  - destruct (0 <? count)%Z.
    + unfold bind at 1. unfold try_except, bind at 1, open_read, lift_io.
      destruct (read_file (fs d) (join (mediaPath d) file)) as [data|];
        unfold ret, bind, gen_id, time_time, modify; simpl;
        intros [= <-]; simpl; rewrite map_app; simpl;
        (apply NoDup_app; split; [exact Hnd|]; split; [|apply NoDup_singleton]);
        intros x Hx Hx'; apply list_elem_of_singleton in Hx'; subst x;
        apply list_elem_of_fmap in Hx; destruct Hx as (r & Hr & Hin);
        apply not_true_iff_false in Hk; apply Hk; apply existsb_exists;
        exists r; (split; [apply list_elem_of_In, Hin|]);
        apply bool_decide_eq_true; symmetry; exact Hr.
    + unfold ret. intros [= <-]. exact Hnd.
Qed.

(** ** The rebuild *)

Lemma listdir_Some_dir fs dir names : listdir fs dir = Some names -> mkdir fs dir = fs.
Proof.
  unfold listdir, mkdir. destruct (lookup_path fs dir) as [[|]|]; try discriminate.
  reflexivity.
Qed.

Lemma refresh_sums_ret E mdir d :
  Forall (fun r => is_Some (fresh_sum E (fs d) mdir r)) (media d) ->
  exists U n,
    refresh_sums E mdir d
    = Ret tt (with_media (map (fun r => fold_left change_row U r) (media d))
                (with_readings n d)).
Proof.
  intros Hok. eexists _, _. unfold refresh_sums.
  unfold bind at 1. unfold gets. unfold bind at 1.
  rewrite check_sums_ok by exact Hok. unfold modify. simpl.
  rewrite fold_apply_change. reflexivity.
Qed.

Lemma counted_changes g n U rows :
  counted g n rows -> counted g n (map (fun r => fold_left change_row U r) rows).
Proof.
  intros [[r [Hin Hr]] Hall]. split.
  - exists (fold_left change_row U r). split.
    + apply list_elem_of_fmap. exists r. split; [reflexivity | exact Hin].
    + rewrite (proj1 (fold_change_row_keeps U r)). exact Hr.
  - intros r' Hin' Hr'. apply list_elem_of_fmap in Hin'. destruct Hin' as (r0 & -> & Hin0).
    destruct (fold_change_row_keeps U r0) as [Hf Hs]. rewrite Hs. apply Hall; [exact Hin0|].
    rewrite <- Hf. exact Hr'.
Qed.

(** C1: on a deck whose cards refer to a.mp3 twice and to b.jpg once, and
    whose media directory lists the readable files a.mp3, b.jpg and c.png,
    a rebuild that does not delete returns c.png alone as unused, and leaves
    the rows of a.mp3 with the count 2 and those of b.jpg with the count 1,
    whatever the table held before (no file of a row of the table being
    there without being readable). *)
Theorem rebuild_counts_example (E : env) (dirty : bool) (d : deck) (names : list text) :
  flat_map card_refs (cards d) ≡ₚ [str "a.mp3"; str "a.mp3"; str "b.jpg"] ->
  listdir (fs d) (mediaPath d) = Some names ->
  names ≡ₚ [str "a.mp3"; str "b.jpg"; str "c.png"] ->
  Forall (fun f => exists data,
            lookup_path (fs d) (join (mediaPath d) f) = Some (File true data))
         [str "a.mp3"; str "b.jpg"; str "c.png"] ->
  Forall (fun r => is_Some (fresh_sum E (fs d) (mediaPath d) r)) (media d) ->
  exists nohave d',
    rebuildMediaDir E false dirty d = Ret (nohave, [str "c.png"]) d'
    /\ counted (str "a.mp3") 2 (media d')
    /\ counted (str "b.jpg") 1 (media d').
Proof.
  intros Hrefs Hlist Hnames Hfiles Hcat.
  set (refs := fold_left count_ref [str "a.mp3"; str "a.mp3"; str "b.jpg"] ∅).
  assert (Hcount : count_refs (cards d) = refs) by (apply count_refs_perm, Hrefs).
  rewrite !Forall_cons in Hfiles.
  destruct Hfiles as ([da Hfa] & [db Hfb] & [dc Hfc] & _).
  unfold rebuildMediaDir.
  unfold bind at 1. unfold tell at 1, modify at 1.
  unfold bind at 1. unfold mediaDir at 1.
  change (fs (said Start d)) with (fs d).
  change (mediaPath (said Start d)) with (mediaPath d).
  rewrite (listdir_Some_dir _ _ _ Hlist).
  unfold bind at 1. unfold modify at 1.
  unfold bind at 1. unfold gets at 1.
  set (d1 := with_media _ _).
  change (cards d1) with (cards d). rewrite Hcount.
  assert (Hkeys : map fst (map_to_list refs) ≡ₚ [str "a.mp3"; str "b.jpg"]).
  { let v := eval vm_compute in (map_to_list refs) in
    replace (map_to_list refs) with v by (vm_compute; reflexivity).
    simpl. first [reflexivity | apply perm_swap]. }
  destruct (for_each_counts E (map_to_list refs) d1) as
    (d2 & Hrun & Hfs & Hcards & Hpath & Hcnt & _ & Hfrom).
  { apply NoDup_fst_map_to_list. }
  { let v := eval vm_compute in (map_to_list refs) in
    replace (map_to_list refs) with v by (vm_compute; reflexivity).
    repeat constructor. }
  { intros x r _ Hin _. unfold d1 in Hin. simpl in Hin.
    apply list_elem_of_fmap in Hin. destruct Hin as (r0 & -> & _). reflexivity. }
  rewrite (bind_Ret _ _ _ _ _ Hrun).
  change (fs d1) with (fs d) in Hfs.
  assert (Hls : os_listdir (mediaPath d) d2 = Ret names d2).
  { unfold os_listdir, lift_io. rewrite Hfs, Hlist. reflexivity. }
  rewrite (bind_Ret _ _ _ _ _ Hls).
  unfold bind at 1. unfold gets at 1. rewrite Hfs.
  assert (Hunused : filter (fun file => isfile (fs d) (join (mediaPath d) file) = true
                                        /\ refs !! file = None) names = [str "c.png"]).
  { apply Permutation_singleton_r. rewrite Hnames.
    rewrite !filter_cons, filter_nil.
    rewrite decide_False by (intros [_ H]; vm_compute in H; discriminate H).
    rewrite decide_False by (intros [_ H]; vm_compute in H; discriminate H).
    rewrite decide_True; [reflexivity|].
    split; [unfold isfile; rewrite Hfc; reflexivity | vm_compute; reflexivity]. }
  rewrite Hunused.
  unfold bind at 1. unfold ret at 1.
  destruct (refresh_sums_ret E (mediaPath d) d2) as (U & n & Hrefresh).
  { rewrite Hfs. apply Forall_forall. intros r Hr.
    destruct (Hfrom r Hr) as [Hin | Hin].
    - rewrite Hkeys in Hin. unfold fresh_sum.
      apply elem_of_cons in Hin. destruct Hin as [-> | Hin]; [rewrite Hfa; eexists; reflexivity|].
      apply list_elem_of_singleton in Hin. rewrite Hin, Hfb. eexists; reflexivity.
    - unfold d1 in Hin. simpl in Hin. apply list_elem_of_fmap in Hin.
      destruct Hin as (r0 & -> & Hin). rewrite Forall_forall in Hcat.
      exact (Hcat r0 Hin). }
  rewrite (bind_Ret _ _ _ _ _ Hrefresh).
  assert (Ha : counted (str "a.mp3") 2 (media d2)).
  { apply (Hcnt (str "a.mp3", 2%Z)). apply elem_of_map_to_list. vm_compute. reflexivity. }
  assert (Hb : counted (str "b.jpg") 1 (media d2)).
  { apply (Hcnt (str "b.jpg", 1%Z)). apply elem_of_map_to_list. vm_compute. reflexivity. }
  apply (counted_changes _ _ U) in Ha, Hb.
  destruct dirty; eexists _, _; (split; [reflexivity | split; [exact Ha | exact Hb]]).
Qed.

(** C4: the rebuild of a deck with a card that refers to a file of the
    media directory that cannot be read raises the error of [open] from the
    check of the md5s, though [updateMediaCount], reading the same file for
    the new row, treats the failure as an absent file and records the empty
    checksum. *)
Theorem rebuild_raises_on_unreadable (E : env) :
  (exists d1,
     updateMediaCount E (str "a.mp3") 1 deck_unreadable = Ret tt d1
     /\ map Media.originalPath (media d1) = [[]])
  /\ exists d', rebuildMediaDir E false true deck_unreadable = Raise IOError d'.
Proof.
  split.
  - eexists. split; vm_compute; reflexivity.
  - eexists. vm_compute. reflexivity.
Qed.

(** The check of the md5s raises as soon as a row names a path that exists
    and cannot be read. *)
Lemma refresh_sums_raises E mdir d :
  Exists (fun r => fresh_sum E (fs d) mdir r = None) (media d) ->
  exists d', refresh_sums E mdir d = Raise IOError d'.
Proof.
  intros Hex. unfold refresh_sums. unfold bind at 1. unfold gets. unfold bind at 1.
  destruct (check_sums_raises E mdir (media d) [] d Hex) as (d' & -> & _).
  exists d'. reflexivity.
Qed.

(** ** Copying a file into the media directory *)

Lemma copyToMedia_hit E fuel path d data name :
  read_file (fs d) path = Some data ->
  filename_of_checksum (checksum E data) (media d) = Some name ->
  name <> [] ->
  copyToMedia E fuel path d = Ret (basename name) d.
Proof.
  intros Hread Hfind Hne. unfold copyToMedia.
  unfold bind at 1. unfold open_read, lift_io. rewrite Hread.
  unfold bind at 1. unfold gets. rewrite Hfind.
  destruct name; [congruence | reflexivity].
Qed.

Lemma copyToMedia_media E fuel path d x d' :
  copyToMedia E fuel path d = Ret x d' -> media d' = media d.
Proof.
  unfold copyToMedia.
  unfold bind at 1. unfold open_read at 1, lift_io.
  destruct (read_file (fs d) path) as [data|]; [|discriminate].
  unfold bind at 1. unfold gets at 1.
  destruct (filename_of_checksum (checksum E data) (media d)) as [[|c p]|].
  2: { unfold ret. intros [= _ <-]. reflexivity. }
  all: unfold bind at 1; unfold mediaDir at 1;
    unfold bind at 1; unfold unique_path at 1;
    destruct (uniquePath fuel _ _ _) as [np|]; [|discriminate];
    unfold bind at 1; unfold copy2; unfold bind at 1; unfold gets at 1;
    unfold bind at 1; unfold open_read, lift_io;
    destruct (read_file _ path) as [data'|]; [|discriminate];
    unfold open_write, lift_fs;
    destruct (write_file _ _ data') as [fs'|]; [|discriminate];
    unfold ret; intros [= _ <-]; reflexivity.
Qed.

(** C5, as the code has it: with a table that does not know the content,
    the two calls give two names and the media directory gains two files. *)
Lemma copyToMedia_copies_twice :
  exists d',
    (p1 <- copyToMedia env0 10 (str "/tmp/a.txt") ;;
     p2 <- copyToMedia env0 10 (str "/tmp/b.txt") ;;
     ret (p1, p2)) deck_import = Ret (str "a.txt", str "b.txt") d'
    /\ listdir (fs deck_import) (str "/m") = Some []
    /\ (length <$> listdir (fs d') (str "/m")) = Some 2.
Proof. eexists. vm_compute. repeat split. Qed.

(** C5, amended: when the table has a row with the checksum of the source
    (the first such row, with a file name that is not empty), [copyToMedia]
    returns the base name of that file name, which is the file name itself
    when it has no separator, and changes nothing: two sources of that
    content give the same name and no file is added.  In no case does
    [copyToMedia] change the table. *)
Theorem copyToMedia_known_content (E : env) (fuel : nat) (path1 path2 : text)
    (d : deck) (data name : text) :
  read_file (fs d) path1 = Some data ->
  read_file (fs d) path2 = Some data ->
  filename_of_checksum (checksum E data) (media d) = Some name ->
  name <> [] ->
  (p1 <- copyToMedia E fuel path1 ;;
   p2 <- copyToMedia E fuel path2 ;;
   ret (p1, p2)) d = Ret (basename name, basename name) d
  /\ (existsb is_sep name = false -> basename name = name)
  /\ forall path d0 x d', copyToMedia E fuel path d0 = Ret x d' -> media d' = media d0.
Proof.
  intros H1 H2 Hfind Hne. split; [|split].
  - rewrite (bind_Ret _ _ _ _ _ (copyToMedia_hit E fuel path1 d data name H1 Hfind Hne)).
    rewrite (bind_Ret _ _ _ _ _ (copyToMedia_hit E fuel path2 d data name H2 Hfind Hne)).
    reflexivity.
  - apply basename_plain.
  - intros path d0 x d'. apply copyToMedia_media.
Qed.

(** C6, as the code has it: with the media directory as the working
    directory, the file is in the media directory after the download. *)
Lemma download_lands_in_media_dir :
  exists d',
    downloadMissing env0 deck_fetch_in_place = Ret (Done 1 0) d'
    /\ path_exists (fs deck_fetch_in_place) (join (str "/m") (str "b.jpg")) = false
    /\ path_exists (fs d') (join (str "/m") (str "b.jpg")) = true.
Proof. eexists. vm_compute. repeat split. Qed.

(** ** The theorems at work on the example decks *)

Lemma rebuild_counts_example_witness :
  exists nohave d',
    rebuildMediaDir env0 false true deck_refs = Ret (nohave, [str "c.png"]) d'
    /\ counted (str "a.mp3") 2 (media d')
    /\ counted (str "b.jpg") 1 (media d').
Proof.
  eapply (rebuild_counts_example env0 true deck_refs).
  - vm_compute. reflexivity.
  - vm_compute. reflexivity.
  - apply (bool_decide_unpack _). vm_compute. exact I.
  - repeat constructor; eexists; vm_compute; reflexivity.
  - repeat constructor; vm_compute; eexists; reflexivity.
Defined.


Lemma download_writes_cwd_witness :
  path_exists
    {| nodes := <[str "/home/b.jpg" := File true (str "B")]> (nodes (fs deck_fetch));
       cwd := str "/home" |}
    (join (str "/m") (str "b.jpg")) = false.
Proof.
  destruct (download_writes_cwd env0 (str "http://host/") (str "/m")
              (row0 2 "b.jpg" 1 "") [] 0 0 deck_fetch (str "B")
              {| nodes := <[str "/home/b.jpg" := File true (str "B")]> (nodes (fs deck_fetch));
                 cwd := str "/home" |}) as (_ & _ & H).
  - vm_compute. reflexivity.
  - vm_compute. reflexivity.
  - vm_compute. reflexivity.
  - etransitivity; [apply H|]. vm_compute. reflexivity.
Defined.

Lemma copyToMedia_known_content_witness :
  (p1 <- copyToMedia env0 10 (str "/tmp/a.txt") ;;
   p2 <- copyToMedia env0 10 (str "/tmp/b.txt") ;;
   ret (p1, p2)) deck_import_known
  = Ret (str "first.txt", str "first.txt") deck_import_known.
Proof.
  destruct (copyToMedia_known_content env0 10 (str "/tmp/a.txt") (str "/tmp/b.txt")
              deck_import_known (str "same") (str "first.txt")) as (H & Hplain & _).
  - vm_compute. reflexivity.
  - vm_compute. reflexivity.
  - vm_compute. reflexivity.
  - discriminate.
  - rewrite H, Hplain; reflexivity.
Defined.


(** * Further properties *)

(** ** The routines on the table *)

Lemma tombstone_loop E : forall ids d,
  for_each ids (fun i =>
    t <- time_time E ;;
    modify (fun d => with_mediaDeleted (mediaDeleted d ++ [(i, t)]) d)) d
  = Ret tt (with_mediaDeleted (mediaDeleted d ++ tombstones E (readings d) ids)
              (with_readings (readings d + length ids) d)).
Proof.
  induction ids as [|i ids IH]; intros d.
  - simpl. unfold ret. destruct d; unfold with_mediaDeleted, with_readings; simpl.
    rewrite app_nil_r, Nat.add_0_r. reflexivity.
  - simpl. unfold bind at 1. unfold bind at 1. unfold time_time, modify.
    rewrite IH. destruct d; unfold with_mediaDeleted, with_readings; simpl.
    rewrite <- app_assoc. simpl. repeat f_equal. lia.
Qed.

Lemma tombstones_length E : forall ids n, length (tombstones E n ids) = length ids.
Proof. induction ids as [|i ids IH]; intros n; simpl; [|rewrite IH]; reflexivity. Qed.

Lemma tombstones_ids E : forall ids n, map fst (tombstones E n ids) = ids.
Proof. induction ids as [|i ids IH]; intros n; simpl; [|rewrite IH]; reflexivity. Qed.

Lemma filter_split_length {A} (P : A -> bool) (l : list A) :
  length l = length (filter (fun x => P x = false) l) + length (filter (fun x => P x = true) l).
Proof.
  induction l as [|x l IH]; [reflexivity|].
  rewrite !filter_cons. destruct (P x) eqn:E.
  - rewrite decide_False by discriminate. rewrite decide_True by reflexivity.
    simpl. rewrite IH. lia.
  - rewrite decide_True by reflexivity. rewrite decide_False by discriminate.
    simpl. rewrite IH. lia.
Qed.

(** X1: [removeUnusedMedia] always ends; it removes exactly the rows whose
    count is 0 and keeps the others as they are, in their order; it writes
    one row of [mediaDeleted] for each removed row, with its identifier, in
    the order of the table, each with a reading of the clock of its own; so
    every row of the table is kept or recorded as deleted.  The files and
    the cards are not touched. *)
Theorem removeUnusedMedia_purges (E : env) (d : deck) :
  let gone := filter (fun r => unreferenced r = true) (media d) in
  exists d',
    removeUnusedMedia E d = Ret tt d'
    /\ media d' = filter (fun r => unreferenced r = false) (media d)
    /\ Forall (fun r => Media.size r <> 0%Z) (media d')
    /\ mediaDeleted d' = mediaDeleted d ++ tombstones E (readings d) (map Media.id gone)
    /\ map fst (drop (length (mediaDeleted d)) (mediaDeleted d')) = map Media.id gone
    /\ length (media d)
       = length (media d') + (length (mediaDeleted d') - length (mediaDeleted d))
    /\ readings d' = readings d + length gone
    /\ fs d' = fs d /\ cards d' = cards d.
Proof.
  intros gone. eexists. split.
  { unfold removeUnusedMedia. unfold bind at 1. unfold gets at 1.
    unfold bind at 1. rewrite tombstone_loop. unfold modify. reflexivity. }
  simpl. fold gone. split; [reflexivity|]. split.
  { apply Forall_forall. intros r Hr. apply list_elem_of_filter in Hr.
    destruct Hr as [Hr _]. unfold unreferenced in Hr. apply Z.eqb_neq in Hr. exact Hr. }
  split; [reflexivity|]. split.
  { rewrite drop_app_length. apply tombstones_ids. }
  split.
  { rewrite length_app, tombstones_length, !length_map.
    rewrite (filter_split_length unreferenced (media d)). fold gone. lia. }
  split; [rewrite length_map; reflexivity|]. split; reflexivity.
Qed.

Lemma updateMediaCount_known E file c d :
  existsb (has_filename file) (media d) = true ->
  updateMediaCount E file c d
  = Ret tt (with_media (update_where file (add_count c (clock E (readings d))) (media d))
              (with_readings (S (readings d)) d)).
Proof.
  intros Hk. unfold updateMediaCount.
  unfold bind at 1. unfold mediaDir at 1. unfold bind at 1. unfold gets at 1.
  rewrite Hk. reflexivity.
Qed.

Lemma updateMediaCount_fresh E file c d :
  existsb (has_filename file) (media d) = false -> (0 < c)%Z ->
  updateMediaCount E file c d
  = Ret tt (with_media
              (media d ++
               [{| Media.id := genID E (issued d); Media.filename := file;
                   Media.size := c; Media.created := clock E (readings d);
                   Media.originalPath :=
                     match read_file (fs d) (join (mediaPath d) file) with
                     | Some data => checksum E data
                     | None => []
                     end;
                   Media.description := [] |}])
              (with_readings (S (readings d)) (with_issued (S (issued d)) d))).
Proof.
  intros Hk Hc. unfold updateMediaCount.
  unfold bind at 1. unfold mediaDir at 1. unfold bind at 1. unfold gets at 1.
  rewrite Hk. apply Z.ltb_lt in Hc. rewrite Hc.
  unfold bind at 1. unfold try_except, bind at 1, open_read, lift_io.
  destruct (read_file (fs d) (join (mediaPath d) file)); reflexivity.
Qed.

Lemma updateMediaCount_noop E file c d :
  existsb (has_filename file) (media d) = false -> (c <= 0)%Z ->
  updateMediaCount E file c d = Ret tt d.
Proof.
  intros Hk Hc. unfold updateMediaCount.
  unfold bind at 1. unfold mediaDir at 1. unfold bind at 1. unfold gets at 1.
  rewrite Hk. apply Z.ltb_ge in Hc. rewrite Hc. reflexivity.
Qed.

Lemma update_where_others file (g : Media.row -> Media.row) rows :
  (forall r, Media.filename (g r) = Media.filename r) ->
  filter (fun r => Media.filename r <> file) (update_where file g rows)
  = filter (fun r => Media.filename r <> file) rows.
Proof.
  intros Hg. induction rows as [|r rows IH]; [reflexivity|].
  simpl. rewrite !filter_cons, IH. unfold has_filename.
  destruct (decide (Media.filename r = file)) as [Heq | Hne].
  - rewrite (bool_decide_eq_true_2 _ Heq).
    rewrite !decide_False; [reflexivity | tauto | rewrite Hg; tauto].
  - rewrite (bool_decide_eq_false_2 _ Hne). rewrite !decide_True by exact Hne.
    reflexivity.
Qed.

Lemma update_where_known file g rows :
  (forall r, Media.filename (g r) = Media.filename r) ->
  existsb (has_filename file) (update_where file g rows)
  = existsb (has_filename file) rows.
Proof.
  intros Hg. induction rows as [|r rows IH]; [reflexivity|].
  simpl. rewrite IH. f_equal. unfold has_filename.
  destruct (bool_decide (Media.filename r = file)) eqn:Hb; [|exact Hb].
  apply bool_decide_eq_true in Hb. apply bool_decide_eq_true. rewrite Hg. exact Hb.
Qed.

(** X2: [updateMediaCount] always ends, whatever the file and the count,
    also when the file cannot be read; it leaves the files, the cards and
    the deleted rows alone, leaves the rows of the other file names as they
    are, in their order, and adds one row at most. *)
Theorem updateMediaCount_frame (E : env) (file : text) (count : Z) (d : deck) :
  exists d',
    updateMediaCount E file count d = Ret tt d'
    /\ fs d' = fs d /\ cards d' = cards d /\ mediaDeleted d' = mediaDeleted d
    /\ filter (fun r => Media.filename r <> file) (media d')
       = filter (fun r => Media.filename r <> file) (media d)
    /\ length (media d) <= length (media d') <= S (length (media d)).
Proof.
  destruct (existsb (has_filename file) (media d)) eqn:Hk.
  - eexists. split; [apply updateMediaCount_known, Hk|]. simpl.
    do 3 (split; [reflexivity|]). split.
    + apply update_where_others. reflexivity.
    + unfold update_where. rewrite length_map. lia.
  - destruct (Z.lt_ge_cases 0 count) as [Hc | Hc].
    + eexists. split; [apply updateMediaCount_fresh; assumption|]. simpl.
      do 3 (split; [reflexivity|]). split.
      * rewrite filter_app, filter_cons, filter_nil. simpl.
        rewrite decide_False by tauto. apply app_nil_r.
      * rewrite length_app. simpl. lia.
    + exists d. split; [apply updateMediaCount_noop; assumption|].
      do 4 (split; [reflexivity|]). lia.
Qed.


Lemma update_where_twice file g h rows :
  (forall r, Media.filename (g r) = Media.filename r) ->
  update_where file h (update_where file g rows)
  = update_where file (fun r => h (g r)) rows.
Proof.
  intros Hg. unfold update_where. rewrite map_map. apply map_ext. intros r.
  unfold has_filename. destruct (bool_decide (Media.filename r = file)) eqn:Hb.
  - apply bool_decide_eq_true in Hb. rewrite bool_decide_eq_true_2; [reflexivity|].
    rewrite Hg. exact Hb.
  - rewrite Hb. reflexivity.
Qed.

(** X4: for a file name that the table has, two calls of [updateMediaCount]
    with the counts [c1] and [c2] leave the same counts as one call with
    [c1 + c2], and no call changes the identifier, the file name, the
    checksum or the number of the rows; so a call with [c] followed by a
    call with [- c] gives back the counts there were. *)
Theorem updateMediaCount_adds (E : env) (file : text) (c1 c2 : Z) (d : deck) :
  existsb (has_filename file) (media d) = true ->
  exists d2 d3,
    (updateMediaCount E file c1 ;;; updateMediaCount E file c2) d = Ret tt d2
    /\ updateMediaCount E file (c1 + c2) d = Ret tt d3
    /\ map Media.size (media d2) = map Media.size (media d3)
    /\ map row_data (media d2) = map row_data (media d)
    /\ map row_data (media d3) = map row_data (media d)
    /\ (c2 = (- c1)%Z -> map Media.size (media d2) = map Media.size (media d)).
Proof.
  intros Hk.
  assert (Hk1 : existsb (has_filename file)
                  (update_where file (add_count c1 (clock E (readings d))) (media d)) = true)
    by (rewrite update_where_known; [exact Hk | reflexivity]).
  eexists _, _. split.
  { rewrite (bind_Ret _ _ _ _ _ (updateMediaCount_known E file c1 d Hk)).
    apply updateMediaCount_known. exact Hk1. }
  split; [apply updateMediaCount_known, Hk|].
  simpl. rewrite update_where_twice by reflexivity.
  unfold update_where. rewrite !map_map.
  split; [|split; [|split]].
  - apply map_ext. intros r. destruct (has_filename file r); simpl; [lia | reflexivity].
  - apply map_ext. intros r. destruct (has_filename file r); reflexivity.
  - apply map_ext. intros r. destruct (has_filename file r); reflexivity.
  - intros ->. apply map_ext. intros r. destruct (has_filename file r); simpl; [lia | reflexivity].
Qed.

(** ** The count of the references *)

Lemma occurrences_cons f x l :
  occurrences f (x :: l) = ((if decide (x = f) then 1 else 0) + occurrences f l)%Z.
Proof.
  unfold occurrences. rewrite filter_cons.
  destruct (decide (x = f)); simpl length; lia.
Qed.

Lemma occurrences_nonneg f l : (0 <= occurrences f l)%Z.
Proof. unfold occurrences. lia. Qed.

Lemma fold_count_ref f : forall l (m : gmap text Z),
  fold_left count_ref l m !! f
  = match m !! f with
    | Some n => Some (n + occurrences f l)%Z
    | None => if decide (occurrences f l = 0%Z) then None else Some (occurrences f l)
    end.
Proof.
  induction l as [|x l IH]; intros m.
  - simpl. destruct (m !! f); [f_equal; unfold occurrences; simpl; lia | reflexivity].
  - simpl fold_left. rewrite IH, occurrences_cons.
    pose proof (occurrences_nonneg f l) as Hpos.
    unfold count_ref. destruct (decide (x = f)) as [-> | Hne].
    + destruct (m !! f) as [n|] eqn:Hm; rewrite lookup_insert_eq.
      * f_equal. lia.
      * destruct (decide ((1 + occurrences f l)%Z = 0%Z)); [lia|]. f_equal.
    + rewrite Z.add_0_l.
      destruct (m !! x) as [k|]; rewrite lookup_insert_ne by exact Hne; reflexivity.
Qed.

(** X5: the map [refs] that the rebuild makes from the cards gives, for each
    file name, the number of times the name occurs among the references of
    all the questions and answers, and has no key for a name that does not
    occur: a count is never 0 or less. *)
Theorem count_refs_occurrences (cs : list (text * text)) (f : text) :
  count_refs cs !! f
  = (if decide (occurrences f (all_refs cs) = 0%Z) then None
     else Some (occurrences f (all_refs cs)))
  /\ (forall n, count_refs cs !! f = Some n -> (0 < n)%Z /\ f ∈ all_refs cs).
Proof.
  assert (H : count_refs cs !! f
              = if decide (occurrences f (all_refs cs) = 0%Z) then None
                else Some (occurrences f (all_refs cs))).
  { unfold count_refs, all_refs. rewrite fold_count_ref, lookup_empty. reflexivity. }
  split; [exact H|]. intros n Hn. rewrite H in Hn.
  destruct (decide (occurrences f (all_refs cs) = 0%Z)) as [|Hne]; [discriminate|].
  injection Hn as <-. pose proof (occurrences_nonneg f (all_refs cs)). split; [lia|].
  unfold occurrences in Hne.
  destruct (filter (fun g => g = f) (all_refs cs)) as [|g l] eqn:E; [simpl in Hne; lia|].
  assert (Hg : g ∈ filter (fun g => g = f) (all_refs cs)) by (rewrite E; left).
  apply list_elem_of_filter in Hg. destruct Hg as [-> Hg]. exact Hg.
Qed.

Lemma count_refs_pos cs f n : count_refs cs !! f = Some n -> (0 < n)%Z.
Proof.
  unfold count_refs. rewrite fold_count_ref, lookup_empty.
  pose proof (occurrences_nonneg f (flat_map card_refs cs)).
  destruct (decide _); [discriminate|]. intros [= <-]. lia.
Qed.

(** ** More on the references of a text *)

Lemma lower_fix x k :
  ~ (97 <= nat_of_ascii k <= 122) -> lower x = k -> x = k.
Proof.
  unfold lower. intros Hk.
  destruct ((65 <=? nat_of_ascii x) && (nat_of_ascii x <=? 90)) eqn:E; [|auto].
  apply andb_true_iff in E. destruct E as [E1 E2].
  apply Nat.leb_le in E1, E2. intros H. exfalso. apply Hk.
  rewrite <- H, nat_ascii_embedding by lia. lia.
Qed.

Ltac not_a_letter :=
  match goal with
  | |- ~ (97 <= nat_of_ascii ?k <= 122) =>
      let n := eval vm_compute in (nat_of_ascii k) in
      change (nat_of_ascii k) with n; lia
  end.

Lemma finditer_none re s :
  (forall q, q <= length s -> match_at re (drop q s) q = None) -> finditer re s = [].
Proof.
  intros H. apply (leftmost_unique re s _ _ 0); [apply finditer_leftmost|].
  simpl. intros q Hq. apply H. lia.
Qed.

Lemma drop_head_elem {A} (l : list A) q c rest : drop q l = c :: rest -> c ∈ l.
Proof.
  intros H. rewrite <- (take_drop q l), H. apply elem_of_app. right. left.
Qed.

Lemma sound_needs_bracket t p :
  match t with c :: _ => c <> "["%char | [] => True end ->
  match_at sound_re t p = None.
Proof.
  rewrite sound_re_read. unfold match_at. simpl.
  destruct t as [|c t]; [reflexivity|]. intros Hc.
  destruct (Ascii.eqb (lower c) (lower "[")) eqn:E; [|reflexivity].
  apply Ascii.eqb_eq in E. change (lower "[") with "["%char in E. apply lower_fix in E; [contradiction | not_a_letter].
Qed.

Lemma img_needs_angle t p :
  match t with c :: _ => c <> "<"%char | [] => True end ->
  match_at img_re t p = None.
Proof.
  rewrite img_re_read. unfold match_at. simpl.
  destruct t as [|c t]; [reflexivity|]. intros Hc.
  destruct (Ascii.eqb (lower c) (lower "<")) eqn:E; [|reflexivity].
  apply Ascii.eqb_eq in E. change (lower "<") with "<"%char in E. apply lower_fix in E; [contradiction | not_a_letter].
Qed.

Lemma finditer_sound_none s : "["%char ∉ s -> finditer sound_re s = [].
Proof.
  intros Hs. apply finditer_none. intros q _. apply sound_needs_bracket.
  destruct (drop q s) as [|c rest] eqn:E; [exact I|].
  intros ->. apply Hs. exact (drop_head_elem _ _ _ _ E).
Qed.

Lemma finditer_img_none s : "<"%char ∉ s -> finditer img_re s = [].
Proof.
  intros Hs. apply finditer_none. intros q _. apply img_needs_angle.
  destruct (drop q s) as [|c rest] eqn:E; [exact I|].
  intros ->. apply Hs. exact (drop_head_elem _ _ _ _ E).
Qed.

(** X6: a text that has neither [[] nor [<] holds no reference, and
    [stripMedia] gives it back as it is. *)
Theorem plain_text_untouched (s : text) :
  plain s -> mediaFiles s = [] /\ stripMedia s = s.
Proof.
  intros [Hb Ha].
  assert (H : mediaFiles s = []).
  { apply mediaFiles_nil. split; [apply finditer_sound_none, Hb | apply finditer_img_none, Ha]. }
  split; [exact H | apply stripMedia_id_iff, H].
Qed.

Lemma name_accepted (name : text) :
  "]"%char ∉ name -> forallb (accepts true (Among true ["]"%char])) name = true.
Proof.
  intros Hn. apply forallb_forall. intros x Hx. apply list_elem_of_In in Hx.
  unfold accepts. simpl.
  destruct (Ascii.eqb (lower x) (lower "]")) eqn:E; [|reflexivity].
  apply Ascii.eqb_eq in E. change (lower "]") with "]"%char in E.
  apply lower_fix in E; [|not_a_letter]. subst x. contradiction.
Qed.

Lemma sound_match_at (tag name post : text) p :
  map lower tag = str "[sound:" -> name <> [] -> "]"%char ∉ name ->
  match_at sound_re (tag ++ name ++ "]"%char :: post) p
  = Some (p + 8 + length name,
          [(1, (p, p + 8 + length name)); (2, (p + 7, p + 7 + length name))]).
Proof.
  intros Htag Hne Hname.
  destruct tag as [|c0 [|c1 [|c2 [|c3 [|c4 [|c5 [|c6 [|c7 tag]]]]]]]]; try discriminate Htag.
  injection Htag as H0 H1 H2 H3 H4 H5 H6.
  rewrite sound_re_read. unfold match_at. simpl.
  rewrite H0, H1, H2, H3, H4, H5, H6. simpl.
  rewrite (greedy_longest _ _ name ("]"%char :: post) _
             (p + 8 + length name,
              [(1, (p, p + 8 + length name)); (2, (p + 7, p + 7 + length name))]));
    [reflexivity | apply name_accepted, Hname | exact Hne | reflexivity |].
  simpl. repeat f_equal; lia.
Qed.

Lemma sound_tag_no_angle tag : map lower tag = str "[sound:" -> "<"%char ∉ tag.
Proof.
  intros Htag Hin. apply list_elem_of_In in Hin.
  apply (in_map lower) in Hin. rewrite Htag in Hin.
  change (lower "<") with "<"%char in Hin. simpl in Hin.
  repeat (destruct Hin as [Hin | Hin]; [discriminate Hin|]). exact Hin.
Qed.

(** X7: a sound tag written around a name is read back: when the text
    before and after the tag has neither [[] nor [<], and the name is not
    empty and has neither []] nor [<], the references of the text are that
    name alone, and [stripMedia] leaves the text before and after; the
    letters of the tag may be of either case. *)
Theorem sound_tag_round_trip (pre tag name post : text) :
  map lower tag = str "[sound:" ->
  name <> [] -> "]"%char ∉ name -> "<"%char ∉ name ->
  plain pre -> plain post ->
  mediaFiles (pre ++ tag ++ name ++ "]"%char :: post) = [name]
  /\ stripMedia (pre ++ tag ++ name ++ "]"%char :: post) = pre ++ post.
Proof.
  intros Htag Hne Hname Hangle [Hpre1 Hpre2] [Hpost1 Hpost2].
  set (s := pre ++ tag ++ name ++ "]"%char :: post).
  assert (Hlen : length tag = 7)
    by (rewrite <- (length_map lower tag), Htag; reflexivity).
  assert (Hs : length s = length pre + 8 + length name + length post).
  { unfold s. rewrite !length_app. simpl. lia. }
  set (m := {| m_start := length pre; m_stop := length pre + 8 + length name;
               m_groups := [(1, (length pre, length pre + 8 + length name));
                            (2, (length pre + 7, length pre + 7 + length name))] |}).
  assert (Hsound : finditer sound_re s = [m]).
  { apply (leftmost_unique sound_re s _ _ 0); [apply finditer_leftmost|].
    simpl. rewrite Hs. repeat split; try lia.
    - unfold s. rewrite drop_app_length. apply sound_match_at; assumption.
    - intros q Hq. apply sound_needs_bracket.
      destruct (drop q s) as [|c rest] eqn:E; [exact I|].
      unfold s in E. rewrite drop_app_le in E by lia.
      destruct (drop q pre) as [|c' rest'] eqn:E'.
      { apply (f_equal length) in E'. rewrite length_drop in E'. simpl in E'. lia. }
      simpl in E. injection E as -> _. intros ->. apply Hpre1.
      exact (drop_head_elem _ _ _ _ E').
    - intros q Hq. apply sound_needs_bracket.
      destruct (drop q s) as [|c rest] eqn:E; [exact I|].
      unfold s in E.
      replace (pre ++ tag ++ name ++ "]"%char :: post)
        with ((pre ++ tag ++ name ++ ["]"%char]) ++ post) in E
        by (rewrite <- !app_assoc; reflexivity).
      rewrite drop_app_ge in E by (rewrite !length_app; simpl; lia).
      intros ->. apply Hpost1. exact (drop_head_elem _ _ _ _ E). }
  assert (Himg_s : "<"%char ∉ s).
  { unfold s. rewrite !elem_of_app, elem_of_cons.
    pose proof (sound_tag_no_angle tag Htag). intros [H1 | [H1 | [H1 | [H1 | H1]]]];
      [tauto | tauto | tauto | discriminate H1 | tauto]. }
  split.
  - rewrite mediaFiles_unfold, Hsound, (finditer_img_none s Himg_s). simpl.
    unfold group, substring. simpl. f_equal.
    unfold s.
    replace (pre ++ tag ++ name ++ "]"%char :: post)
      with ((pre ++ tag) ++ name ++ "]"%char :: post)
      by (rewrite <- !app_assoc; reflexivity).
    rewrite drop_app_ge by (rewrite length_app; lia).
    rewrite length_app, Hlen.
    replace (length pre + 7 - (length pre + 7)) with 0 by lia. rewrite drop_0.
    replace (length pre + 7 + length name - (length pre + 7)) with (length name) by lia.
    apply take_app_length.
  - rewrite stripMedia_unfold.
    assert (Hsub : sub sound_re (fun _ => []) s = pre ++ post).
    { unfold sub. rewrite Hsound. simpl. unfold substring. rewrite drop_0, Nat.sub_0_r.
      unfold s. rewrite take_app_length. f_equal.
      replace (pre ++ tag ++ name ++ "]"%char :: post)
        with ((pre ++ tag ++ name ++ ["]"%char]) ++ post)
        by (rewrite <- !app_assoc; reflexivity).
      rewrite drop_app_ge by (rewrite !length_app; simpl; lia).
      rewrite !length_app. simpl.
      replace (length pre + 8 + length name - (length pre + (length tag + (length name + 1))))
        with 0 by lia.
      apply drop_0. }
    rewrite Hsub. apply sub_nomatch, finditer_img_none.
    rewrite elem_of_app. tauto.
Qed.

(** *** The shape of the two patterns: a name in a group *)

Lemma run_flat_prefix ic rest : forall its s p op gs x,
  forallb flat its = true ->
  run ic (its ++ rest) s p op gs = Some x ->
  exists k, k <= length s /\ run ic rest (drop k s) (p + k) op gs = Some x.
Proof.
  induction its as [|it its IH]; intros s p op gs x Hflat H.
  - exists 0. rewrite drop_0, Nat.add_0_r. split; [lia | exact H].
  - simpl in Hflat. apply andb_true_iff in Hflat. destruct Hflat as [Hit Hflat].
    destruct it as [k [| |]|g| |]; try discriminate Hit; simpl in H.
    + destruct s as [|c s]; [discriminate|].
      destruct (accepts ic k c); [|discriminate].
      destruct (IH _ _ _ _ _ Hflat H) as (n & Hn & Hr).
      exists (S n). simpl. replace (p + S n) with (S p + n) by lia. split; [lia | exact Hr].
    + destruct s as [|c s].
      * destruct (IH _ _ _ _ _ Hflat H) as (n & Hn & Hr). exists n. split; [exact Hn | exact Hr].
      * destruct (accepts ic k c).
        -- destruct (run ic (its ++ rest) s (S p) op gs) as [y|] eqn:E.
           ++ injection H as <-. destruct (IH _ _ _ _ _ Hflat E) as (n & Hn & Hr).
              exists (S n). simpl. replace (p + S n) with (S p + n) by lia.
              split; [lia | exact Hr].
           ++ destruct (IH _ _ _ _ _ Hflat H) as (n & Hn & Hr).
              exists n. split; [exact Hn | exact Hr].
        -- destruct (IH _ _ _ _ _ Hflat H) as (n & Hn & Hr).
           exists n. split; [exact Hn | exact Hr].
    + apply greedy_Some in H. destruct H as (n & Hn & _ & H).
      destruct (IH _ _ _ _ _ Hflat H) as (n' & Hn' & Hr).
      rewrite length_drop in Hn'. exists (n + n').
      rewrite drop_drop in Hr. replace (p + (n + n')) with (p + n + n') by lia.
      split; [lia | exact Hr].
    + destruct s as [|c [|c' s]].
      * destruct (IH _ _ _ _ _ Hflat H) as (n & Hn & Hr). exists n. split; [exact Hn | exact Hr].
      * destruct (Ascii.eqb c "010"); [|discriminate].
        destruct (IH _ _ _ _ _ Hflat H) as (n & Hn & Hr). exists n. split; [exact Hn | exact Hr].
      * discriminate.
Qed.

(** A pattern of the shape [(A(x+)B)], where [A] and [B] have no group:
    the second group is a run of one character or more inside the match. *)
Lemma named_match_shape ic A k B s p e gs :
  forallb flat A = true -> forallb flat B = true ->
  run ic ([Open 1] ++ A ++ [Open 2; Ch k Plus; Close] ++ B ++ [Close]) s p [] [] = Some (e, gs) ->
  exists b n, 1 <= n /\ p <= b /\ b + n <= e /\ e <= p + length s
              /\ gs = [(1, (p, e)); (2, (b, b + n))]
              /\ forallb (accepts ic k) (substring s (b - p) (b + n - p)) = true.
Proof.
  intros HA HB H.
  pose proof (run_bounds _ _ _ _ _ _ _ _ H) as [Hbound _].
  simpl in H. apply run_flat_prefix in H; [|exact HA].
  destruct H as (a & Ha & H). simpl in H.
  apply greedy_Some in H. destruct H as (n & Hn & Hok & H). simpl in H.
  apply run_flat_prefix in H; [|exact HB].
  destruct H as (c & Hc & H). simpl in H. injection H as <- <-.
  rewrite length_drop in Hn. rewrite !length_drop in Hc.
  exists (p + a), n. repeat split; try lia.
  unfold substring. replace (p + a - p) with a by lia.
  replace (p + a + n - p - a) with n by lia. exact Hok.
Qed.

Lemma sound_re_shape :
  items sound_re
  = [Open 1] ++ lits "[sound:" ++ [Open 2; Ch (Among true ["]"%char]) Plus; Close]
    ++ lits "]" ++ [Close]
  /\ forallb flat (lits "[sound:") = true /\ forallb flat (lits "]") = true.
Proof. rewrite sound_re_read. repeat split. Qed.

Lemma img_re_shape :
  exists A B,
    items img_re
    = [Open 1] ++ A ++ [Open 2; Ch (Among true [dquote; "'"%char; ">"%char]) Plus; Close]
      ++ B ++ [Close]
    /\ forallb flat A = true /\ forallb flat B = true.
Proof.
  exists (lits "<img" ++ [Ch (Among true [">"%char]) Plus] ++ lits "src="
          ++ [Ch (Among false [dquote; "'"%char]) Opt]),
         ([Ch (Among false [dquote; "'"%char]) Opt; Ch (Among true [">"%char]) Opt]
          ++ lits ">").
  rewrite img_re_read. repeat split.
Qed.

Lemma leftmost_each re s : forall ms lo,
  leftmost re s lo ms ->
  Forall (fun m => m_stop m <= length s
                   /\ match_at re (drop (m_start m) s) (m_start m)
                      = Some (m_stop m, m_groups m)) ms.
Proof.
  induction ms as [|m ms IH]; intros lo H; [constructor|].
  simpl in H. destruct H as (_ & Hstop & Hm & _ & Hrest).
  constructor; [split; assumption | exact (IH _ Hrest)].
Qed.

Lemma named_group_piece re A k B s m :
  items re = [Open 1] ++ A ++ [Open 2; Ch k Plus; Close] ++ B ++ [Close] ->
  forallb flat A = true -> forallb flat B = true ->
  m ∈ finditer re s ->
  group s m 2 <> []
  /\ (exists a b, s = a ++ group s m 2 ++ b)
  /\ forallb (accepts (icase re) k) (group s m 2) = true.
Proof.
  intros Hitems HA HB Hm.
  pose proof (leftmost_each re s _ 0 (finditer_leftmost re s)) as Hall.
  rewrite Forall_forall in Hall. destruct (Hall m Hm) as [Hstop Hmatch].
  unfold match_at in Hmatch. rewrite Hitems in Hmatch.
  apply named_match_shape in Hmatch; [|exact HA | exact HB].
  destruct Hmatch as (b & n & Hn & Hb & He & _ & Hgs & Hok).
  unfold group. rewrite Hgs. simpl.
  assert (Hsub : substring (drop (m_start m) s) (b - m_start m) (b + n - m_start m)
                 = substring s b (b + n)).
  { unfold substring. rewrite drop_drop. f_equal; [lia | f_equal; lia]. }
  rewrite Hsub in Hok. split; [|split].
  - intros Hnil. apply (f_equal length) in Hnil. unfold substring in Hnil.
    rewrite length_take, length_drop in Hnil. simpl in Hnil. lia.
  - exists (take b s), (drop (b + n) s). unfold substring.
    replace (b + n - b) with n by lia.
    replace (drop (b + n) s) with (drop n (drop b s))
      by (rewrite drop_drop; f_equal; lia).
    rewrite take_drop, take_drop. reflexivity.
  - exact Hok.
Qed.

(** X8: every name that [mediaFiles] gives is a piece of the text and is
    not empty; it has no []] when it comes from a sound tag, and neither a
    quote nor [>] when it comes from an image tag. *)
Theorem mediaFiles_names (s f : text) :
  f ∈ mediaFiles s ->
  f <> []
  /\ (exists a b, s = a ++ f ++ b)
  /\ (("]"%char ∉ f) \/ ((dquote ∉ f) /\ ("'"%char ∉ f) /\ (">"%char ∉ f))).
Proof.
  rewrite mediaFiles_unfold, elem_of_app, !list_elem_of_fmap.
  intros [(m & -> & Hm) | (m & -> & Hm)].
  - destruct sound_re_shape as (Hitems & HA & HB).
    destruct (named_group_piece sound_re _ _ _ s m Hitems HA HB Hm) as (Hne & Hpiece & Hok).
    split; [exact Hne|]. split; [exact Hpiece|]. left.
    intros Hin. rewrite forallb_forall in Hok.
    apply list_elem_of_In, Hok in Hin. rewrite sound_re_read in Hin. discriminate Hin.
  - destruct img_re_shape as (A & B & Hitems & HA & HB).
    destruct (named_group_piece img_re _ _ _ s m Hitems HA HB Hm) as (Hne & Hpiece & Hok).
    split; [exact Hne|]. split; [exact Hpiece|]. right.
    rewrite forallb_forall in Hok. rewrite img_re_read in Hok.
    repeat split; intros Hin; apply list_elem_of_In, Hok in Hin; discriminate Hin.
Qed.

(** ** More on [uniquePath] *)

Lemma uniquePath_spec fuel fs dir base p :
  uniquePath fuel fs dir base = Some p <->
  exists j, j < fuel
    /\ p = join dir (Nat.iter j next_root
                       (splitext (filter (fun c => dangerous c = false) base)).1
                     ++ (splitext (filter (fun c => dangerous c = false) base)).2)
    /\ path_exists fs p = false
    /\ forall i, i < j ->
         path_exists fs (join dir (Nat.iter i next_root
                          (splitext (filter (fun c => dangerous c = false) base)).1
                        ++ (splitext (filter (fun c => dangerous c = false) base)).2)) = true.
Proof. rewrite uniquePath_unfold, sub_dangerous. apply uniquePath_loop_spec. Qed.

Lemma next_root_iter_plain root k :
  search counter_re root = None ->
  Nat.iter (S k) next_root root = with_counter root (fmt_d (1 + N.of_nat k)) [].
Proof.
  intros Hs. rewrite Nat.iter_succ_r, (next_root_plain root Hs).
  apply next_root_iter. left. reflexivity.
Qed.

(** X9: for a name whose stem has no counter, [uniquePath] gives the path of
    the cleaned name when it is free, and otherwise the path of the name
    with the smallest counter, from 1 on, whose path is free: the cleaned
    name and all the names with a smaller counter exist. *)
Theorem uniquePath_smallest_counter (fuel : nat) (fs : filesystem) (dir base p : text) :
  let clean := filter (fun c => dangerous c = false) base in
  let root := (splitext clean).1 in
  let ext := (splitext clean).2 in
  uniquePath fuel fs dir base = Some p ->
  search counter_re root = None ->
  path_exists fs p = false
  /\ (p = join dir clean
      \/ exists n : nat,
           1 <= n
           /\ p = join dir (with_counter root (fmt_d (N.of_nat n)) [] ++ ext)
           /\ path_exists fs (join dir clean) = true
           /\ forall k, 1 <= k < n ->
                path_exists fs (join dir (with_counter root (fmt_d (N.of_nat k)) [] ++ ext))
                = true).
Proof.
  intros clean root ext Hp Hplain.
  apply uniquePath_spec in Hp. fold clean root ext in Hp.
  destruct Hp as (j & _ & Hpj & Hfree & Hbusy). split; [exact Hfree|].
  assert (Hclean : root ++ ext = clean) by apply splitext_app.
  destruct j as [|j].
  - left. simpl in Hpj. rewrite Hclean in Hpj. exact Hpj.
  - right. exists (S j). split; [lia|].
    rewrite (next_root_iter_plain root j Hplain) in Hpj.
    replace (1 + N.of_nat j)%N with (N.of_nat (S j)) in Hpj by lia.
    split; [exact Hpj|]. split.
    + specialize (Hbusy 0 ltac:(lia)). simpl in Hbusy. rewrite Hclean in Hbusy. exact Hbusy.
    + intros k Hk. destruct k as [|k]; [lia|].
      specialize (Hbusy (S k) ltac:(lia)).
      rewrite (next_root_iter_plain root k Hplain) in Hbusy.
      replace (1 + N.of_nat k)%N with (N.of_nat (S k)) in Hbusy by lia. exact Hbusy.
Qed.

Lemma digit_not_dangerous c : is_digit c = true -> dangerous c = false.
Proof.
  intros Hd. unfold dangerous. apply bool_decide_eq_false. intros Hin.
  apply list_elem_of_In in Hin. simpl in Hin.
  repeat (destruct Hin as [<- | Hin]; [discriminate Hd|]). exact Hin.
Qed.

Lemma digits_not_dangerous ds : forallb is_digit ds = true -> existsb dangerous ds = false.
Proof.
  induction ds as [|c ds IH]; simpl; [reflexivity|].
  intros H. apply andb_true_iff in H. destruct H as [Hc Hds].
  rewrite (digit_not_dangerous c Hc), (IH Hds). reflexivity.
Qed.

Lemma with_counter_not_dangerous pre ds tl :
  existsb dangerous (with_counter pre ds tl) = false
  <-> existsb dangerous pre = false /\ existsb dangerous ds = false
      /\ existsb dangerous tl = false.
Proof.
  unfold with_counter. rewrite existsb_app. simpl. rewrite existsb_app. simpl.
  change (dangerous " ") with false. change (dangerous "(") with false.
  change (dangerous ")") with false. simpl.
  rewrite !orb_false_iff. tauto.
Qed.

Lemma next_root_not_dangerous r :
  existsb dangerous r = false -> existsb dangerous (next_root r) = false.
Proof.
  intros Hr.
  destruct (next_root_cases r) as [[_ ->] | (pre & ds & tl & -> & Hds & _ & _ & ->)].
  - apply with_counter_not_dangerous. split; [exact Hr | split; reflexivity].
  - apply with_counter_not_dangerous in Hr. destruct Hr as (Hpre & _ & Htl).
    apply with_counter_not_dangerous.
    split; [exact Hpre | split; [apply digits_not_dangerous, fmt_d_digits | exact Htl]].
Qed.

Lemma clean_not_dangerous base :
  existsb dangerous (filter (fun c => dangerous c = false) base) = false.
Proof.
  induction base as [|c base IH]; [reflexivity|].
  rewrite filter_cons. destruct (decide (dangerous c = false)) as [Hc | Hc]; [|exact IH].
  simpl. rewrite Hc, IH. reflexivity.
Qed.

(** The path that [uniquePath] gives: its place, its name, and that it is
    free. *)
Lemma uniquePath_free_name (fuel : nat) (fs : filesystem) (dir base p : text) :
  uniquePath fuel fs dir base = Some p ->
  p = join dir (basename p)
  /\ existsb dangerous (basename p) = false
  /\ path_exists fs p = false.
Proof.
  intros Hp. apply uniquePath_spec in Hp.
  destruct Hp as (j & _ & Hpj & Hfree & _).
  set (clean := filter (fun c => dangerous c = false) base) in *.
  assert (Hclean : existsb dangerous ((splitext clean).1 ++ (splitext clean).2) = false)
    by (rewrite splitext_app; apply clean_not_dangerous).
  rewrite existsb_app in Hclean. apply orb_false_iff in Hclean.
  destruct Hclean as [Hroot Hext].
  assert (Hsep : existsb is_sep ((splitext clean).1 ++ (splitext clean).2) = false)
    by (rewrite splitext_app; apply clean_no_sep).
  apply existsb_sep_app in Hsep. destruct Hsep as [Hrsep Hesep].
  set (r := Nat.iter j next_root (splitext clean).1) in *.
  assert (Hr : existsb dangerous r = false).
  { unfold r. clear Hpj r. induction j as [|j IH]; [exact Hroot|].
    simpl. apply next_root_not_dangerous, IH. }
  assert (Hname : basename p = r ++ (splitext clean).2).
  { rewrite Hpj. apply basename_join, existsb_sep_app.
    split; [apply next_root_iter_no_sep, Hrsep | exact Hesep]. }
  rewrite Hname. split; [exact Hpj|]. split; [|exact Hfree].
  rewrite existsb_app, Hr, Hext. reflexivity.
Qed.

(** X10: the path that [uniquePath] gives lies in the directory itself: it
    is the directory joined with its own last component; that name has none
    of the characters ] [ < > : / \, whatever the name asked for; and the
    path does not exist. *)
Theorem uniquePath_name_clean (fuel : nat) (fs : filesystem) (dir base p : text) :
  uniquePath fuel fs dir base = Some p ->
  p = join dir (basename p)
  /\ existsb dangerous (basename p) = false
  /\ path_exists fs p = false.
Proof. apply uniquePath_free_name. Qed.

(** ** More on [copyToMedia] *)

Lemma lookup_path_mkdir fs dir q nd :
  lookup_path fs q = Some nd -> lookup_path (mkdir fs dir) q = Some nd.
Proof.
  unfold mkdir. destruct (lookup_path fs dir) eqn:Hd; [auto|].
  unfold lookup_path, resolve in *. simpl. intros Hq.
  rewrite lookup_insert_ne; [exact Hq | congruence].
Qed.

Lemma read_file_mkdir fs dir q data :
  read_file fs q = Some data -> read_file (mkdir fs dir) q = Some data.
Proof.
  unfold read_file. destruct (lookup_path fs q) as [[[|] x|]|] eqn:Hq; try discriminate.
  intros [= ->]. rewrite (lookup_path_mkdir _ _ _ _ Hq). reflexivity.
Qed.


Lemma mkdir_cwd fs dir : cwd (mkdir fs dir) = cwd fs.
Proof. unfold mkdir. destruct (lookup_path fs dir); reflexivity. Qed.

(** The run of [copyToMedia] when the table does not give a name. *)
Lemma copyToMedia_miss E fuel path d data p :
  read_file (fs d) path = Some data ->
  (forall name, filename_of_checksum (checksum E data) (media d) = Some name -> name = []) ->
  uniquePath fuel (mkdir (fs d) (mediaPath d)) (mediaPath d) (basename path) = Some p ->
  copyToMedia E fuel path d
  = Ret (basename p)
        (with_fs {| nodes := <[resolve (mkdir (fs d) (mediaPath d)) p := File true data]>
                               (nodes (mkdir (fs d) (mediaPath d)));
                    cwd := cwd (mkdir (fs d) (mediaPath d)) |}
                 (with_fs (mkdir (fs d) (mediaPath d)) d)).
Proof.
  intros Hread Hmiss Hp.
  pose proof Hp as Hfree. apply uniquePath_free_name in Hfree.
  destruct Hfree as (_ & _ & Hfree).
  unfold copyToMedia.
  unfold bind at 1. unfold open_read at 1, lift_io. rewrite Hread.
  unfold bind at 1. unfold gets at 1.
  assert (Hgo : forall k : M text,
            match filename_of_checksum (checksum E data) (media d) with
            | Some (c :: q) => ret (basename (c :: q))
            | _ => k
            end = k).
  { intros k. destruct (filename_of_checksum (checksum E data) (media d)) as [[|c q]|] eqn:Hf;
      try reflexivity. specialize (Hmiss _ eq_refl). discriminate. }
  rewrite Hgo.
  unfold bind at 1. unfold mediaDir at 1.
  unfold bind at 1. unfold unique_path at 1. simpl fs. rewrite Hp.
  unfold bind at 1. unfold copy2. unfold bind at 1. unfold gets at 1. simpl fs.
  unfold path_exists in Hfree.
  destruct (lookup_path (mkdir (fs d) (mediaPath d)) p) eqn:Hl; [discriminate|].
  unfold bind at 1. unfold open_read, lift_io. simpl fs.
  rewrite (read_file_mkdir _ _ _ _ Hread).
  unfold open_write, lift_fs. simpl fs.
  unfold write_file. rewrite Hl. reflexivity.
Qed.


Lemma not_dangerous_no_sep (name : text) :
  existsb dangerous name = false -> existsb is_sep name = false.
Proof.
  induction name as [|c name IH]; [reflexivity|]. simpl.
  intros [Hc Hn]%orb_false_iff. rewrite (IH Hn), orb_false_r.
  unfold is_sep. destruct (Ascii.eqb_spec c "/") as [-> | _]; [|reflexivity].
  discriminate Hc.
Qed.

Lemma filename_of_checksum_app cs rows row :
  filename_of_checksum cs rows = None ->
  Media.originalPath row = cs ->
  filename_of_checksum cs (rows ++ [row]) = Some (Media.filename row).
Proof.
  unfold filename_of_checksum. intros Hnone Hrow.
  rewrite filter_app, filter_cons, filter_nil, decide_True by exact Hrow.
  destruct (filter (fun r => Media.originalPath r = cs) rows); [reflexivity | discriminate].
Qed.

(** X12: a file that [copyToMedia] has copied is found again once
    [updateMediaCount] has made a row for it, as the rebuild does for a name
    that a card uses: when the table had neither the checksum nor the name,
    a source of the same content then gets the name of the first copy, and
    nothing is copied or changed by that second call. *)
Theorem copyToMedia_then_known (E : env) (fuel : nat) (path1 path2 : text)
    (d d1 : deck) (data name : text) :
  read_file (fs d) path1 = Some data ->
  filename_of_checksum (checksum E data) (media d) = None ->
  copyToMedia E fuel path1 d = Ret name d1 ->
  name <> [] ->
  existsb (has_filename name) (media d) = false ->
  read_file (fs d1) path2 = Some data ->
  exists d2,
    updateMediaCount E name 1 d1 = Ret tt d2
    /\ fs d2 = fs d1
    /\ copyToMedia E fuel path2 d2 = Ret name d2.
Proof.
  intros Hread Hnone Hrun Hne Hfresh Hread2.
  assert (Hmiss : forall n, filename_of_checksum (checksum E data) (media d) = Some n -> n = [])
    by (intros n Hn; rewrite Hnone in Hn; discriminate).
  set (fs1 := mkdir (fs d) (mediaPath d)) in *.
  destruct (uniquePath fuel fs1 (mediaPath d) (basename path1)) as [p|] eqn:Hp.
  2: { exfalso. revert Hrun. unfold copyToMedia.
       unfold bind at 1. unfold open_read at 1, lift_io. rewrite Hread.
       unfold bind at 1. unfold gets at 1. rewrite Hnone.
       unfold bind at 1. unfold mediaDir at 1.
       unfold bind at 1. unfold unique_path at 1. simpl fs. fold fs1. rewrite Hp.
       discriminate. }
  rewrite (copyToMedia_miss E fuel path1 d data p Hread Hmiss Hp) in Hrun.
  injection Hrun as Hname Hd1.
  destruct (uniquePath_free_name _ _ _ _ _ Hp) as (Hjoin & Hclean & _).
  rewrite Hname in Hjoin, Hclean.
  assert (Hfile : read_file (fs d1) (join (mediaPath d1) name) = Some data).
  { rewrite <- Hd1. simpl. rewrite <- Hjoin.
    unfold read_file, lookup_path, resolve. simpl. rewrite lookup_insert_eq. reflexivity. }
  assert (Hmedia : media d1 = media d) by (rewrite <- Hd1; reflexivity).
  assert (Hfresh1 : existsb (has_filename name) (media d1) = false) by (rewrite Hmedia; exact Hfresh).
  eexists. split; [apply updateMediaCount_fresh; [exact Hfresh1 | lia]|].
  split; [reflexivity|].
  rewrite Hfile, Hmedia.
  match goal with |- copyToMedia _ _ _ ?d0 = _ =>
    pose proof (copyToMedia_hit E fuel path2 d0 data name) as Hhit end.
  rewrite (basename_plain name (not_dangerous_no_sep _ Hclean)) in Hhit.
  apply Hhit.
  - exact Hread2.
  - simpl media.
    match goal with |- filename_of_checksum _ (_ ++ [?r]) = _ =>
      exact (filename_of_checksum_app (checksum E data) (media d) r Hnone eq_refl) end.
  - exact Hne.
Qed.


(** ** More on [downloadMissing] *)

Lemma same_tables_refl d : same_tables d d.
Proof. unfold same_tables. tauto. Qed.

Lemma same_tables_trans d1 d2 d3 :
  same_tables d1 d2 -> same_tables d2 d3 -> same_tables d1 d3.
Proof. unfold same_tables. intros H1 H2. intuition congruence. Qed.

Lemma write_file_cwd fs f data fs' : write_file fs f data = Some fs' -> cwd fs' = cwd fs.
Proof.
  unfold write_file.
  destruct (lookup_path fs f) as [[[|] x|]|]; intros [= <-]; reflexivity.
Qed.

(** One turn of the loop of [downloadMissing] on a file that is absent: the
    deck after the attempt. *)
Lemma fetch_file_step E rpath f d :
  exists ok d1, fetch_file E rpath f d = Ret ok d1
    /\ same_tables d d1 /\ progress d1 = progress d /\ requests d1 = S (requests d)
    /\ (fs d1 = fs d
        \/ exists data, urlopen E (requests d) rpath = Some data
                        /\ write_file (fs d) f data = Some (fs d1)).
Proof.
  rewrite fetch_file_cases.
  destruct (urlopen E (requests d) rpath) as [data|] eqn:Hu.
  - destruct (write_file (fs d) f data) as [fs'|] eqn:Hw.
    + eexists _, _. split; [reflexivity|]. simpl.
      split; [|split; [reflexivity | split; [reflexivity | right; eauto]]].
      unfold same_tables. simpl. pose proof (write_file_cwd _ _ _ _ Hw). tauto.
    + eexists _, _. split; [reflexivity|]. simpl.
      split; [unfold same_tables; simpl; tauto | auto].
  - eexists _, _. split; [reflexivity|]. simpl.
    split; [unfold same_tables; simpl; tauto | auto].
Qed.

Lemma same_tables_said e d : same_tables d (said e d).
Proof. unfold same_tables. simpl. tauto. Qed.

(** The loop always comes to an end, whatever the server and the file
    system do; it tells the progress window one update for each row it has
    gone through, and [Finish] itself when it returns from inside. *)
Lemma download_rows_ends E urlbase mdir : forall rows g m d,
  exists x d' ups,
    download_rows E urlbase mdir rows g m d = Ret x d'
    /\ same_tables d d'
    /\ forallb is_update ups = true
    /\ match x with
       | inl _ => progress d' = progress d ++ ups ++ [Finish] /\ length ups < length rows
       | inr _ => progress d' = progress d ++ ups /\ length ups = length rows
       end.
Proof.
  induction rows as [|r rows IH]; intros g m d.
  - exists (inr (g, m)), d, []. simpl. rewrite app_nil_r.
    split; [reflexivity|]. split; [apply same_tables_refl | auto].
  - rewrite download_rows_cons.
    assert (Hgo : forall g1 m1 n d1,
              same_tables d d1 -> progress d1 = progress d ->
              exists x d' ups,
                download_rows E urlbase mdir rows g1 m1 (said (Update n) d1) = Ret x d'
                /\ same_tables d d'
                /\ forallb is_update ups = true
                /\ match x with
                   | inl _ => progress d' = progress d ++ ups ++ [Finish]
                              /\ length ups < length (r :: rows)
                   | inr _ => progress d' = progress d ++ ups
                              /\ length ups = length (r :: rows)
                   end).
    { intros g1 m1 n d1 Hsame1 Hprog1.
      destruct (IH g1 m1 (said (Update n) d1)) as (x & d' & ups & Hrun & Hsame & Hups & Hx).
      exists x, d', (Update n :: ups). split; [exact Hrun|].
      split; [exact (same_tables_trans _ _ _ Hsame1
                       (same_tables_trans _ _ _ (same_tables_said _ _) Hsame))|].
      split; [exact Hups|].
      destruct x; destruct Hx as [Hp Hl]; rewrite Hp; simpl; rewrite Hprog1, <- app_assoc;
        (split; [reflexivity | lia]). }
    destruct (path_exists (fs d) (join mdir (Media.filename r))).
    + apply Hgo; [apply same_tables_refl | reflexivity].
    + destruct (fetch_file_step E (urlbase ++ Media.filename r) (Media.filename r) d)
        as (ok & d1 & -> & Hsame1 & Hprog1 & _).
      destruct ok; [apply Hgo; assumption|].
      destruct (nonempty (Media.originalPath r)); [|apply Hgo; assumption].
      exists (inl (urlbase ++ Media.filename r)), (said Finish d1), [].
      split; [reflexivity|].
      split; [exact (same_tables_trans _ _ _ Hsame1 (same_tables_said _ _))|].
      split; [reflexivity|].
      simpl. rewrite Hprog1. split; [reflexivity | lia].
Qed.

(** X14: [downloadMissing] always returns: no failure of the server or of
    a write gets out of it.  It leaves the tables, the cards and the clocks
    as they are.  Without a media URL it changes nothing at all; with one,
    the progress window is opened, told at most one update for each row
    (exactly one when the loop reaches its end) and closed, on the early
    return as well. *)
Theorem downloadMissing_contained (E : env) (d : deck) :
  exists res d',
    downloadMissing E d = Ret res d'
    /\ same_tables d d'
    /\ match res with
       | NoURL => (mediaURL d = None \/ mediaURL d = Some []) /\ d' = d
       | Failed _ =>
           nonempty (default [] (mediaURL d)) = true
           /\ exists ups, progress d' = progress d ++ Start :: ups ++ [Finish]
                          /\ forallb is_update ups = true
                          /\ length ups < length (media d)
       | Done _ _ =>
           nonempty (default [] (mediaURL d)) = true
           /\ exists ups, progress d' = progress d ++ Start :: ups ++ [Finish]
                          /\ forallb is_update ups = true
                          /\ length ups = length (media d)
       end.
Proof.
  destruct (mediaURL d) as [[|c u]|] eqn:Hurl.
  - exists NoURL, d. unfold downloadMissing, bind, gets. rewrite Hurl.
    split; [reflexivity|]. split; [apply same_tables_refl | auto].
  - rewrite (downloadMissing_unfold E d c u Hurl). unfold bind at 1.
    set (d0 := said Start (with_fs (mkdir (fs d) (mediaPath d)) d)).
    assert (H0 : same_tables d d0).
    { unfold same_tables, d0. simpl. rewrite mkdir_cwd. tauto. }
    destruct (download_rows_ends E (c :: u) (mediaPath d) (media d) 0 0 d0)
      as (x & d' & ups & -> & Hsame & Hups & Hx).
    destruct x as [rpath | [g m]]; simpl.
    + exists (Failed rpath), d'. split; [reflexivity|].
      split; [exact (same_tables_trans _ _ _ H0 Hsame)|]. split; [reflexivity|].
      exists ups. destruct Hx as [Hp Hl]. rewrite Hp. unfold d0. simpl.
      rewrite <- app_assoc. auto.
    + exists (Done g m), (said Finish d'). split; [reflexivity|].
      split; [exact (same_tables_trans _ _ _ H0 Hsame)|]. split; [reflexivity|].
      exists ups. destruct Hx as [Hp Hl]. simpl. rewrite Hp. unfold d0. simpl.
      rewrite <- !app_assoc. auto.
  - exists NoURL, d. unfold downloadMissing, bind, gets. rewrite Hurl.
    split; [reflexivity|]. split; [apply same_tables_refl | auto].
Qed.

Lemma download_rows_present E urlbase mdir : forall rows g m d,
  Forall (fun r => path_exists (fs d) (join mdir (Media.filename r)) = true) rows ->
  download_rows E urlbase mdir rows g m d
  = Ret (inr (g, m))
        (with_progress (progress d ++ map (fun _ => Update (g + m)) rows) d).
Proof.
  induction rows as [|r rows IH]; intros g m d Hall.
  - simpl. unfold ret. rewrite app_nil_r. destruct d; reflexivity.
  - rewrite download_rows_cons.
    apply Forall_cons in Hall as [Hr Hall]. rewrite Hr.
    rewrite IH by exact Hall. simpl. rewrite <- app_assoc. reflexivity.
Qed.

(** X15: when the deck has a media URL and the file of every row is in
    the media directory, [downloadMissing] asks the server for nothing and
    writes nothing: it returns [(True, 0, 0)], having made the media
    directory if it was missing and told the progress window [File 0...]
    once for each row. *)
Theorem downloadMissing_nothing_missing (E : env) (d : deck) (c : ascii) (u : text) :
  mediaURL d = Some (c :: u) ->
  Forall (fun r => path_exists (fs d) (join (mediaPath d) (Media.filename r)) = true)
         (media d) ->
  downloadMissing E d
  = Ret (Done 0 0)
        (with_progress (progress d ++ Start :: map (fun _ => Update 0) (media d) ++ [Finish])
                       (with_fs (mkdir (fs d) (mediaPath d)) d)).
Proof.
  intros Hurl Hall. rewrite (downloadMissing_unfold E d c u Hurl).
  unfold bind at 1. rewrite download_rows_present.
  - simpl. unfold bind, tell, modify, said, ret. simpl.
    rewrite <- !app_assoc. reflexivity.
  - simpl. eapply Forall_impl; [exact Hall|]. simpl. intros r Hr.
    unfold path_exists in *.
    destruct (lookup_path (fs d) (join (mediaPath d) (Media.filename r))) eqn:Hl;
      [|discriminate].
    rewrite (lookup_path_mkdir _ _ _ _ Hl). reflexivity.
Qed.




(** ** More on the rebuild *)

(** *** Paths inside a directory *)

Lemma join_rel a x : starts_with_sep x = false -> join a x = join a [] ++ x.
Proof.
  unfold join. intros ->. simpl.
  destruct (bool_decide (a = []) || ends_with_sep a).
  - rewrite app_nil_r. reflexivity.
  - rewrite <- app_assoc. reflexivity.
Qed.

Lemma ends_with_sep_app a b : b <> [] -> ends_with_sep (a ++ b) = ends_with_sep b.
Proof.
  intros Hb. unfold ends_with_sep. rewrite last_app.
  destruct (last b) eqn:Hl; [reflexivity|].
  apply last_None in Hl. contradiction.
Qed.

Lemma starts_with_sep_app a b : a <> [] -> starts_with_sep (a ++ b) = starts_with_sep a.
Proof. destruct a; [congruence | reflexivity]. Qed.

Lemma join_assoc a b x :
  starts_with_sep x = false -> join a (join b x) = join (join a b) x.
Proof.
  intros Hx. destruct (starts_with_sep b) eqn:Hb.
  - assert (Hbx : starts_with_sep (join b x) = true).
    { unfold join. rewrite Hx. destruct b as [|c b]; [discriminate|].
      destruct (orb _ _); exact Hb. }
    unfold join at 1. rewrite Hbx. unfold join at 3. rewrite Hb. reflexivity.
  - destruct b as [|c b].
    + replace (join [] x) with x by (unfold join; rewrite Hx; reflexivity).
      unfold join. rewrite Hx. simpl.
      destruct (bool_decide (a = []) || ends_with_sep a) eqn:Ha.
      * rewrite app_nil_r, Ha. reflexivity.
      * rewrite (ends_with_sep_app a ["/"%char]) by discriminate.
        rewrite orb_true_r, <- app_assoc. reflexivity.
    + assert (Hne : c :: b <> []) by discriminate.
      unfold join. rewrite Hx, Hb.
      assert (Hs : forall t, starts_with_sep ((c :: b) ++ t) = false) by (intros t; exact Hb).
      rewrite (bool_decide_eq_false_2 (c :: b = [])) by exact Hne.
      cbn [orb].
      destruct (bool_decide (a = []) || ends_with_sep a) eqn:Ha.
      * rewrite (ends_with_sep_app a (c :: b)) by exact Hne.
        rewrite (bool_decide_eq_false_2 (a ++ c :: b = [])) by (destruct a; discriminate).
        cbn [orb].
        destruct (ends_with_sep (c :: b)); rewrite Hs, <- app_assoc; reflexivity.
      * replace (a ++ "/"%char :: c :: b) with ((a ++ ["/"%char]) ++ c :: b)
          by (rewrite <- app_assoc; reflexivity).
        rewrite (ends_with_sep_app (a ++ ["/"%char]) (c :: b)) by exact Hne.
        rewrite (bool_decide_eq_false_2 ((a ++ ["/"%char]) ++ c :: b = []))
          by (destruct a; discriminate).
        cbn [orb].
        destruct (ends_with_sep (c :: b)); rewrite Hs, <- !app_assoc; reflexivity.
Qed.

Lemma no_sep_relative x : existsb is_sep x = false -> starts_with_sep x = false.
Proof. destruct x as [|c x]; [reflexivity|]. simpl. intros [H _]%orb_false_iff. exact H. Qed.

(** The key of a plain name inside a directory. *)
Lemma resolve_child fs dir x :
  existsb is_sep x = false ->
  resolve fs (join dir x) = join (resolve fs dir) [] ++ x.
Proof.
  intros Hx. apply no_sep_relative in Hx. unfold resolve.
  rewrite join_assoc by exact Hx. apply join_rel, Hx.
Qed.

Lemma child_name_Some prefix p name :
  child_name prefix p = Some name
  <-> p = prefix ++ name /\ name <> [] /\ existsb is_sep name = false.
Proof.
  unfold child_name. split.
  - destruct (bool_decide (take (length prefix) p = prefix)) eqn:H1; [|discriminate].
    destruct (bool_decide (drop (length prefix) p = [])) eqn:H2; [discriminate|].
    destruct (existsb is_sep (drop (length prefix) p)) eqn:H3; [discriminate|].
    simpl. intros [= <-]. apply bool_decide_eq_true in H1. apply bool_decide_eq_false in H2.
    split; [|split; assumption].
    rewrite <- H1 at 1. symmetry. apply take_drop.
  - intros (-> & Hne & Hsep).
    rewrite take_app_length, drop_app_length.
    rewrite bool_decide_eq_true_2 by reflexivity.
    rewrite (bool_decide_eq_false_2 _ Hne), Hsep. reflexivity.
Qed.

(** What [os.listdir] gives: the plain names of the paths just below the
    directory, each one once. *)
Lemma listdir_names fs dir names :
  listdir fs dir = Some names ->
  lookup_path fs dir = Some Dir
  /\ NoDup names
  /\ forall x, x ∈ names <->
       x <> [] /\ existsb is_sep x = false /\ is_Some (lookup_path fs (join dir x)).
Proof.
  unfold listdir. destruct (lookup_path fs dir) as [[|]|] eqn:Hd; try discriminate.
  intros [= <-]. split; [reflexivity|]. split.
  - pose proof (NoDup_fst_map_to_list (nodes fs)) as Hnd.
    change (map fst (map_to_list (nodes fs))) with ((map_to_list (nodes fs)).*1).
    induction Hnd as [|k l Hk Hnd IH]; [constructor|].
    simpl. destruct (child_name (join (resolve fs dir) []) k) as [x|] eqn:Hx; [|exact IH].
    constructor; [|exact IH]. intros Hin. apply list_elem_of_omap in Hin.
    destruct Hin as (k' & Hk' & Hx'). apply child_name_Some in Hx, Hx'.
    destruct Hx as [-> _], Hx' as [-> _]. contradiction.
  - intros x. rewrite list_elem_of_omap. split.
    + intros (k & Hk & Hx). apply child_name_Some in Hx. destruct Hx as (-> & Hne & Hsep).
      split; [exact Hne|]. split; [exact Hsep|].
      unfold lookup_path. rewrite (resolve_child _ _ _ Hsep).
      apply list_elem_of_fmap in Hk. destruct Hk as ([k v] & Hk & Hin). simpl in Hk. subst k.
      apply elem_of_map_to_list in Hin. rewrite Hin. eexists; reflexivity.
    + intros (Hne & Hsep & [v Hv]). unfold lookup_path in Hv.
      rewrite (resolve_child _ _ _ Hsep) in Hv.
      exists (join (resolve fs dir) [] ++ x). split.
      * apply list_elem_of_fmap. exists (join (resolve fs dir) [] ++ x, v).
        split; [reflexivity|]. apply elem_of_map_to_list. exact Hv.
      * apply child_name_Some. auto.
Qed.

(** *** The stages of the rebuild *)

Lemma same_files_refl d : same_files d d.
Proof. unfold same_files. tauto. Qed.

Lemma same_files_trans d1 d2 d3 :
  same_files d1 d2 -> same_files d2 d3 -> same_files d1 d3.
Proof. unfold same_files. intros H1 H2. intuition congruence. Qed.

Lemma updateMediaCount_same_files E file count d :
  exists d', updateMediaCount E file count d = Ret tt d' /\ same_files d d'.
Proof.
  destruct (existsb (has_filename file) (media d)) eqn:Hk.
  - rewrite (updateMediaCount_known _ _ _ _ Hk). eexists. split; [reflexivity|].
    unfold same_files. simpl. tauto.
  - destruct (Z_lt_le_dec 0 count) as [Hc | Hc].
    + rewrite (updateMediaCount_fresh _ _ _ _ Hk Hc). eexists. split; [reflexivity|].
      unfold same_files. simpl. tauto.
    + rewrite (updateMediaCount_noop _ _ _ _ Hk Hc). eexists. split; [reflexivity|].
      apply same_files_refl.
Qed.

Lemma for_each_update E : forall (l : list (text * Z)) d,
  exists d',
    for_each l (fun '(file, count) => updateMediaCount E file count) d = Ret tt d'
    /\ same_files d d'
    /\ (NoDup (map Media.filename (media d)) -> NoDup (map Media.filename (media d'))).
Proof.
  induction l as [|[file count] l IH]; intros d.
  - exists d. split; [reflexivity|]. split; [apply same_files_refl | auto].
  - destruct (updateMediaCount_same_files E file count d) as (d1 & Hrun & Hsame).
    destruct (IH d1) as (d' & Hrun' & Hsame' & Hnd').
    exists d'. split; [simpl; rewrite (bind_Ret _ _ _ _ _ Hrun); exact Hrun'|].
    split; [exact (same_files_trans _ _ _ Hsame Hsame')|].
    intros Hnd. apply Hnd'. exact (updateMediaCount_unique _ _ _ _ _ Hnd Hrun).
Qed.

(** The rows after the counts were set to 0 and then updated from [refs]:
    a name that has a count has rows, all of them with that count; the
    other rows are rows of before, with the count 0. *)
Lemma counting_stage (E : env) (refs : gmap text Z) (d1 : deck) :
  (forall f n, refs !! f = Some n -> (0 < n)%Z) ->
  (forall r, r ∈ media d1 -> Media.size r = 0%Z) ->
  exists d2,
    for_each (map_to_list refs) (fun '(file, count) => updateMediaCount E file count) d1
    = Ret tt d2
    /\ same_files d1 d2
    /\ (forall f n, refs !! f = Some n -> counted f n (media d2))
    /\ (forall r, r ∈ media d2 -> refs !! Media.filename r = None -> r ∈ media d1)
    /\ (NoDup (map Media.filename (media d1)) -> NoDup (map Media.filename (media d2))).
Proof.
  intros Hpos Hzero.
  destruct (for_each_update E (map_to_list refs) d1) as (d2 & Hrun & Hsame & Hnd).
  destruct (for_each_counts E (map_to_list refs) d1) as
    (d2' & Hrun' & _ & _ & _ & Hcnt & _ & Hfrom).
  { apply NoDup_fst_map_to_list. }
  { apply Forall_forall. intros [f n] Hx. apply elem_of_map_to_list in Hx.
    exact (Hpos f n Hx). }
  { intros x r _ Hr _. apply Hzero, Hr. }
  rewrite Hrun in Hrun'. injection Hrun' as <-.
  exists d2. split; [exact Hrun|]. split; [exact Hsame|]. split; [|split; [|exact Hnd]].
  - intros f n Hf. apply (Hcnt (f, n)). apply elem_of_map_to_list. exact Hf.
  - intros r Hr Hnone. destruct (Hfrom r Hr) as [Hin | Hin]; [|exact Hin].
    apply list_elem_of_fmap in Hin. destruct Hin as ([f n] & Hf & Hin). simpl in Hf.
    apply elem_of_map_to_list in Hin. rewrite Hf, Hin in Hnone. discriminate.
Qed.

Lemma rebuild_unfold E delete dirty d :
  rebuildMediaDir E delete dirty d
  = (for_each (map_to_list (count_refs (cards d)))
       (fun '(file, count) => updateMediaCount E file count) ;;;
     rebuild_tail E delete dirty (mediaPath d) (count_refs (cards d)))
      (with_media (map reset_count (media d))
         (with_fs (mkdir (fs d) (mediaPath d)) (said Start d))).
Proof. reflexivity. Qed.

(** The loop that deletes the unused files. *)
Lemma unlink_loop mdir : forall (l : list text) d,
  NoDup (map (fun f => resolve (fs d) (join mdir f)) l) ->
  Forall (fun f => isfile (fs d) (join mdir f) = true) l ->
  exists fs',
    for_each l (fun f => os_unlink (join mdir f)) d = Ret tt (with_fs fs' d)
    /\ cwd fs' = cwd (fs d)
    /\ forall q,
         lookup_path fs' q
         = if bool_decide (resolve (fs d) q ∈ map (fun f => resolve (fs d) (join mdir f)) l)
           then None else lookup_path (fs d) q.
Proof.
  induction l as [|f l IH]; intros d Hnd Hfiles.
  - exists (fs d). split; [simpl; unfold ret; destruct d; reflexivity|].
    split; [reflexivity|]. intros q. reflexivity.
  - simpl in Hnd. apply NoDup_cons in Hnd. destruct Hnd as [Hf Hnd].
    apply Forall_cons in Hfiles. destruct Hfiles as [Hfile Hfiles].
    set (fs1 := {| nodes := delete (resolve (fs d) (join mdir f)) (nodes (fs d));
                   cwd := cwd (fs d) |}).
    assert (Hun : os_unlink (join mdir f) d = Ret tt (with_fs fs1 d)).
    { unfold os_unlink, lift_fs, unlink. unfold isfile in Hfile.
      destruct (lookup_path (fs d) (join mdir f)) as [[rd x|]|]; try discriminate.
      reflexivity. }
    assert (Hres : forall q, resolve fs1 q = resolve (fs d) q) by reflexivity.
    assert (Hlook : forall q, lookup_path fs1 q
                              = if bool_decide (resolve (fs d) q = resolve (fs d) (join mdir f))
                                then None else lookup_path (fs d) q).
    { intros q. unfold lookup_path. rewrite Hres. simpl.
      destruct (decide (resolve (fs d) q = resolve (fs d) (join mdir f))) as [Heq | Hne].
      - rewrite (bool_decide_eq_true_2 _ Heq), Heq. apply lookup_delete_eq.
      - rewrite (bool_decide_eq_false_2 _ Hne). apply lookup_delete_ne. congruence. }
    destruct (IH (with_fs fs1 d)) as (fs' & Hrun & Hcwd & Hfs').
    { exact Hnd. }
    { apply Forall_forall. intros g Hg. rewrite Forall_forall in Hfiles.
      simpl fs. unfold isfile. rewrite Hlook.
      rewrite bool_decide_eq_false_2; [apply Hfiles, Hg|].
      intros Heq. apply Hf. rewrite <- Heq.
      apply list_elem_of_fmap. exists g. split; [reflexivity | exact Hg]. }
    exists fs'. split.
    { simpl. rewrite (bind_Ret _ _ _ _ _ Hun). rewrite Hrun. reflexivity. }
    split; [exact Hcwd|].
    intros q. rewrite Hfs'. simpl fs. rewrite Hres. simpl map.
    destruct (decide (resolve (fs d) q ∈ map (fun f0 => resolve (fs d) (join mdir f0)) l))
      as [Hin | Hnin].
    + rewrite (bool_decide_eq_true_2 _ Hin).
      rewrite bool_decide_eq_true_2 by (right; exact Hin). reflexivity.
    + rewrite (bool_decide_eq_false_2 _ Hnin). rewrite Hlook.
      destruct (decide (resolve (fs d) q = resolve (fs d) (join mdir f))) as [Heq | Hne].
      * rewrite (bool_decide_eq_true_2 _ Heq).
        rewrite bool_decide_eq_true_2 by (rewrite Heq; left). reflexivity.
      * rewrite (bool_decide_eq_false_2 _ Hne).
        rewrite bool_decide_eq_false_2; [reflexivity|].
        intros Hin. apply elem_of_cons in Hin. tauto.
Qed.

Lemma removeUnusedMedia_stage E d :
  exists d',
    removeUnusedMedia E d = Ret tt d'
    /\ media d' = filter (fun r => unreferenced r = false) (media d)
    /\ fs d' = fs d /\ cards d' = cards d /\ mediaPath d' = mediaPath d
    /\ mediaURL d' = mediaURL d /\ modified d' = modified d
    /\ progress d' = progress d /\ requests d' = requests d.
Proof.
  eexists. split.
  { unfold removeUnusedMedia. unfold bind at 1. unfold gets at 1.
    unfold bind at 1. rewrite tombstone_loop. unfold modify. reflexivity. }
  simpl. tauto.
Qed.

(** The keys of the files of plain names in one directory are distinct. *)
Lemma child_keys_distinct fs mdir (l : list text) :
  NoDup l -> Forall (fun x => existsb is_sep x = false) l ->
  NoDup (map (fun f => resolve fs (join mdir f)) l).
Proof.
  intros Hnd Hsep. apply NoDup_fmap_2_strong; [|exact Hnd].
  intros x y Hx Hy. rewrite Forall_forall in Hsep.
  rewrite (resolve_child _ _ _ (Hsep x Hx)), (resolve_child _ _ _ (Hsep y Hy)).
  apply app_inv_head.
Qed.

(** The optional deletion: it always ends, since what it deletes are files
    that were just listed. *)
Lemma delete_stage (E : env) (delete : bool) (mdir : text) (refs : gmap text Z)
    (names : list text) (d2 : deck) :
  listdir (fs d2) mdir = Some names ->
  let unused := filter (fun file => isfile (fs d2) (join mdir file) = true
                                    /\ refs !! file = None) names in
  exists d3,
    (if delete then
       removeUnusedMedia E ;;; for_each unused (fun f => os_unlink (join mdir f))
     else ret tt) d2 = Ret tt d3
    /\ media d3 = (if delete then filter (fun r => unreferenced r = false) (media d2)
                   else media d2)
    /\ cards d3 = cards d2 /\ mediaPath d3 = mediaPath d2 /\ mediaURL d3 = mediaURL d2
    /\ modified d3 = modified d2 /\ progress d3 = progress d2
    /\ requests d3 = requests d2
    /\ (delete = false -> d3 = d2)
    /\ cwd (fs d3) = cwd (fs d2)
    /\ forall q,
         lookup_path (fs d3) q
         = if delete && bool_decide (resolve (fs d2) q
                                     ∈ map (fun f => resolve (fs d2) (join mdir f)) unused)
           then None else lookup_path (fs d2) q.
Proof.
  intros Hlist unused. destruct delete.
  - destruct (removeUnusedMedia_stage E d2)
      as (dr & Hrun & Hmedia & Hfs & Hcards & Hpath & Hurl & Hmod & Hprog & Hreq).
    destruct (listdir_names _ _ _ Hlist) as (_ & Hnd & Hnames).
    destruct (unlink_loop mdir unused dr) as (fs' & Hloop & Hcwd & Hlook).
    { rewrite Hfs. apply child_keys_distinct; [apply NoDup_filter, Hnd|].
      apply Forall_forall. intros x Hx. apply list_elem_of_filter in Hx.
      destruct Hx as [_ Hx]. apply Hnames in Hx. tauto. }
    { rewrite Hfs. apply Forall_forall. intros x Hx. apply list_elem_of_filter in Hx.
      tauto. }
    exists (with_fs fs' dr). split.
    { rewrite (bind_Ret _ _ _ _ _ Hrun). exact Hloop. }
    simpl. rewrite Hfs in Hcwd, Hlook.
    repeat (split; [first [assumption | discriminate]|]).
    intros q. rewrite Hlook. reflexivity.
  - exists d2. split; [reflexivity|].
    repeat (split; [first [reflexivity | discriminate]|]).
    intros q. reflexivity.
Qed.

Lemma check_sums_raises_at E mdir : forall rows acc d,
  Exists (fun r => fresh_sum E (fs d) mdir r = None) rows ->
  exists n, check_sums E mdir rows acc d = Raise IOError (with_readings n d).
Proof.
  induction rows as [|r rows IH]; intros acc d Hex; [inversion Hex|].
  simpl. unfold bind at 1. unfold os_path_exists, gets, path_exists.
  destruct (fresh_sum E (fs d) mdir r) as [sum|] eqn:Hsum.
  - assert (Hex' : Exists (fun r => fresh_sum E (fs d) mdir r = None) rows)
      by (inversion Hex; [congruence | assumption]).
    unfold fresh_sum in Hsum.
    destruct (lookup_path (fs d) (join mdir (Media.filename r))) as [[[|] data|]|] eqn:Hl;
      try discriminate; simpl.
    + unfold bind at 1. unfold open_read, lift_io, read_file. rewrite Hl.
      destruct (bool_decide (Media.originalPath r <> checksum E data)).
      * unfold bind at 1. unfold time_time.
        destruct (IH (acc ++ [{| c_f := Media.filename r; c_sum := checksum E data;
                                 c_c := clock E (readings d) |}])
                    (with_readings (S (readings d)) d) Hex') as (n & ->).
        exists n. reflexivity.
      * apply IH, Hex'.
    + destruct (nonempty (Media.originalPath r)).
      * unfold bind at 1. unfold time_time.
        destruct (IH (acc ++ [{| c_f := Media.filename r; c_sum := [];
                                 c_c := clock E (readings d) |}])
                    (with_readings (S (readings d)) d) Hex') as (n & ->).
        exists n. reflexivity.
      * apply IH, Hex'.
  - exists (readings d). rewrite with_readings_same. unfold fresh_sum in Hsum.
    destruct (lookup_path (fs d) (join mdir (Media.filename r))) as [[[|] data|]|] eqn:Hl;
      try discriminate; simpl.
    + unfold bind at 1. unfold open_read, lift_io, read_file. rewrite Hl. reflexivity.
    + unfold bind at 1. unfold open_read, lift_io, read_file. rewrite Hl. reflexivity.
Qed.

Lemma fresh_sum_decide E fs mdir (rows : list Media.row) :
  Forall (fun r => is_Some (fresh_sum E fs mdir r)) rows
  \/ Exists (fun r => fresh_sum E fs mdir r = None) rows.
Proof.
  induction rows as [|r rows [IH | IH]].
  - left. constructor.
  - destruct (fresh_sum E fs mdir r) as [sum|] eqn:Hr.
    + left. constructor; [rewrite Hr; eexists; reflexivity | exact IH].
    + right. left. exact Hr.
  - right. right. exact IH.
Qed.

Lemma refresh_sums_ok E mdir d :
  Forall (fun r => is_Some (fresh_sum E (fs d) mdir r)) (media d) ->
  refresh_sums E mdir d
  = Ret tt (with_media
              (fold_left apply_change (changes_from E (fs d) mdir (readings d) (media d))
                         (media d))
              (with_readings
                 (readings d + length (changes_from E (fs d) mdir (readings d) (media d)))
                 d)).
Proof.
  intros Hok. unfold refresh_sums. unfold bind at 1. unfold gets. unfold bind at 1.
  rewrite check_sums_ok by exact Hok. reflexivity.
Qed.

Lemma refresh_sums_raises_at E mdir d :
  Exists (fun r => fresh_sum E (fs d) mdir r = None) (media d) ->
  exists n, refresh_sums E mdir d = Raise IOError (with_readings n d).
Proof.
  intros Hex. unfold refresh_sums. unfold bind at 1. unfold gets. unfold bind at 1.
  destruct (check_sums_raises_at E mdir (media d) [] d Hex) as (n & ->).
  exists n. reflexivity.
Qed.

(** The rebuild from the listing of the media directory on. *)
Lemma rebuild_tail_run (E : env) (delete dirty : bool) (mdir : text) (refs : gmap text Z)
    (names : list text) (d2 : deck) :
  listdir (fs d2) mdir = Some names ->
  let unused := filter (fun file => isfile (fs d2) (join mdir file) = true
                                    /\ refs !! file = None) names in
  exists d3,
    media d3 = (if delete then filter (fun r => unreferenced r = false) (media d2)
                else media d2)
    /\ cards d3 = cards d2 /\ mediaPath d3 = mediaPath d2 /\ mediaURL d3 = mediaURL d2
    /\ modified d3 = modified d2 /\ progress d3 = progress d2
    /\ requests d3 = requests d2
    /\ (delete = false -> d3 = d2)
    /\ cwd (fs d3) = cwd (fs d2)
    /\ (forall q,
         lookup_path (fs d3) q
         = if delete && bool_decide (resolve (fs d2) q
                                     ∈ map (fun f => resolve (fs d2) (join mdir f)) unused)
           then None else lookup_path (fs d2) q)
    /\ ((Forall (fun r => is_Some (fresh_sum E (fs d3) mdir r)) (media d3)
         /\ let U := changes_from E (fs d3) mdir (readings d3) (media d3) in
            let d4 := with_media (fold_left apply_change U (media d3))
                        (with_readings (readings d3 + length U) d3) in
            rebuild_tail E delete dirty mdir refs d2
            = Ret (map Media.filename (filter (fun r => Media.originalPath r = []) (media d4)),
                   unused)
                  (said Finish (if dirty then with_modified true d4 else d4)))
        \/ (Exists (fun r => fresh_sum E (fs d3) mdir r = None) (media d3)
            /\ exists n, rebuild_tail E delete dirty mdir refs d2
                         = Raise IOError (with_readings n d3))).
Proof.
  intros Hlist unused.
  destruct (delete_stage E delete mdir refs names d2 Hlist)
    as (d3 & Hdel & Hmedia & Hcards & Hpath & Hurl & Hmod & Hprog & Hreq & Hsame & Hcwd & Hlook).
  fold unused in Hdel, Hlook.
  exists d3. do 9 (split; [assumption|]). split; [exact Hlook|].
  assert (Hstart : rebuild_tail E delete dirty mdir refs d2
                   = (refresh_sums E mdir ;;;
                      (if dirty then flushMod else ret tt) ;;;
                      nohave <- gets (fun d => map Media.filename
                                  (filter (fun r => Media.originalPath r = []) (media d))) ;;
                      tell Finish ;;;
                      ret (nohave, unused)) d3).
  { unfold rebuild_tail. unfold bind at 1. unfold os_listdir, lift_io. rewrite Hlist.
    unfold bind at 1. unfold gets at 1. fold unused.
    rewrite (bind_Ret _ _ _ _ _ Hdel). reflexivity. }
  rewrite Hstart.
  destruct (fresh_sum_decide E (fs d3) mdir (media d3)) as [Hok | Hex].
  - left. split; [exact Hok|].
    rewrite (bind_Ret _ _ _ _ _ (refresh_sums_ok E mdir d3 Hok)).
    destruct dirty; reflexivity.
  - right. split; [exact Hex|].
    destruct (refresh_sums_raises_at E mdir d3 Hex) as (n & Hn).
    exists n. unfold bind at 1. rewrite Hn. reflexivity.
Qed.

Lemma rebuild_tail_no_dir (E : env) (delete dirty : bool) (mdir : text)
    (refs : gmap text Z) (d2 : deck) :
  listdir (fs d2) mdir = None ->
  rebuild_tail E delete dirty mdir refs d2 = Raise OSError d2.
Proof.
  intros Hlist. unfold rebuild_tail. unfold bind at 1. unfold os_listdir, lift_io.
  rewrite Hlist. reflexivity.
Qed.

(** The rebuild up to the listing of the media directory. *)
Lemma rebuild_stages E delete dirty d :
  exists d2,
    rebuildMediaDir E delete dirty d
    = rebuild_tail E delete dirty (mediaPath d) (count_refs (cards d)) d2
    /\ same_files (with_fs (mkdir (fs d) (mediaPath d)) (said Start d)) d2
    /\ (forall f n, count_refs (cards d) !! f = Some n -> counted f n (media d2))
    /\ (forall r, r ∈ media d2 -> count_refs (cards d) !! Media.filename r = None ->
                  Media.size r = 0%Z
                  /\ Media.filename r ∈ map Media.filename (media d))
    /\ (NoDup (map Media.filename (media d)) -> NoDup (map Media.filename (media d2))).
Proof.
  set (d1 := with_media (map reset_count (media d))
               (with_fs (mkdir (fs d) (mediaPath d)) (said Start d))).
  destruct (counting_stage E (count_refs (cards d)) d1)
    as (d2 & Hrun & Hsame & Hcnt & Hold & Hnd).
  { intros f n. apply count_refs_pos. }
  { intros r Hr. unfold d1 in Hr. simpl in Hr. apply list_elem_of_fmap in Hr.
    destruct Hr as (r0 & -> & _). reflexivity. }
  exists d2. split.
  { rewrite rebuild_unfold. fold d1. rewrite (bind_Ret _ _ _ _ _ Hrun). reflexivity. }
  split; [exact Hsame|]. split; [exact Hcnt|]. split.
  - intros r Hr Hnone. specialize (Hold r Hr Hnone). unfold d1 in Hold. simpl in Hold.
    apply list_elem_of_fmap in Hold. destruct Hold as (r0 & -> & Hr0).
    split; [reflexivity|]. apply list_elem_of_fmap. exists r0. split; [reflexivity | exact Hr0].
  - intros H. apply Hnd. unfold d1. simpl. rewrite map_map. exact H.
Qed.

Lemma occurrences_pos f l : f ∈ l -> (0 < occurrences f l)%Z.
Proof.
  induction l as [|x l IH]; [intros H; inversion H|].
  rewrite occurrences_cons. pose proof (occurrences_nonneg f l).
  intros [-> | Hin]%elem_of_cons.
  - rewrite decide_True by reflexivity. lia.
  - specialize (IH Hin). destruct (decide (x = f)); lia.
Qed.

Lemma occurrences_zero f l : f ∉ l -> occurrences f l = 0%Z.
Proof.
  induction l as [|x l IH]; [reflexivity|].
  rewrite occurrences_cons. intros Hnin. rewrite not_elem_of_cons in Hnin.
  destruct Hnin as [Hne Hnin]. rewrite (IH Hnin).
  rewrite decide_False by congruence. reflexivity.
Qed.

Lemma count_refs_lookup cs f :
  count_refs cs !! f
  = if decide (f ∈ all_refs cs) then Some (occurrences f (all_refs cs)) else None.
Proof.
  unfold count_refs. fold (all_refs cs). rewrite fold_count_ref, lookup_empty.
  destruct (decide (f ∈ all_refs cs)) as [Hin | Hnin].
  - pose proof (occurrences_pos _ _ Hin). rewrite decide_False by lia. reflexivity.
  - rewrite (occurrences_zero _ _ Hnin). reflexivity.
Qed.

Lemma counted_filter g n rows :
  n <> 0%Z -> counted g n rows ->
  counted g n (filter (fun r => unreferenced r = false) rows).
Proof.
  intros Hn [[r [Hin Hr]] Hall]. split.
  - exists r. split; [|exact Hr]. apply list_elem_of_filter. split; [|exact Hin].
    unfold unreferenced. apply Z.eqb_neq. rewrite (Hall r Hin Hr). exact Hn.
  - intros r' Hin' Hr'. apply list_elem_of_filter in Hin'. apply Hall; tauto.
Qed.

(** The deck that the rebuild returns, from the one that the check of the
    md5s leaves. *)
Lemma closed_fields (dirty : bool) (x : deck) :
  let y := said Finish (if dirty then with_modified true x else x) in
  media y = media x /\ fs y = fs x /\ cards y = cards x
  /\ mediaDeleted y = mediaDeleted x /\ progress y = progress x ++ [Finish]
  /\ modified y = dirty || modified x /\ mediaPath y = mediaPath x.
Proof. destruct dirty; simpl; tauto. Qed.

(** The analysis of a run of the rebuild: the deck [d2] with the counts
    updated, the listing [names], and the deck [d3] that the check of the
    md5s starts from. *)
Ltac rebuild_run E delete dirty d Hrun :=
  let d2 := fresh "d2" in
  let names := fresh "names" in
  destruct (rebuild_stages E delete dirty d)
    as (d2 & Heq & (Hfs2 & Hdel2 & Hcards2 & Hpath2 & Hurl2 & Hmod2 & Hprog2 & Hreq2)
        & Hcnt & Hold & Hnd2);
  simpl in Hfs2, Hdel2, Hcards2, Hpath2, Hurl2, Hmod2, Hprog2, Hreq2;
  rewrite Heq in Hrun; clear Heq;
  destruct (listdir (fs d2) (mediaPath d)) as [names|] eqn:Hlist;
  [ destruct (rebuild_tail_run E delete dirty (mediaPath d) (count_refs (cards d))
                names d2 Hlist)
      as (d3 & Hmedia3 & Hcards3 & Hpath3 & Hurl3 & Hmod3 & Hprog3 & Hreq3 & Hsame3
          & Hcwd3 & Hlook3 & [[Hok Htail] | [Hex [n Htail]]]);
    cbv zeta in Htail; rewrite Htail in Hrun; clear Htail;
    set (U := changes_from E (fs d3) (mediaPath d) (readings d3) (media d3)) in *;
    set (d4 := with_media (fold_left apply_change U (media d3))
                 (with_readings (readings d3 + length U) d3)) in *
  | rewrite (rebuild_tail_no_dir E delete dirty _ _ _ Hlist) in Hrun ].

(** X17: after a rebuild that returned, the rows of a file name that the
    cards refer to all have, as their count, the number of the references
    to that name in all the questions and answers, and there is such a row.
    A row of a name that no card refers to is left only by a rebuild that
    does not delete; its count is 0 and its name was in the table before. *)
Theorem rebuild_counts_references (E : env) (delete dirty : bool) (d : deck)
    (res : list text * list text) (d' : deck) :
  rebuildMediaDir E delete dirty d = Ret res d' ->
  (forall f, f ∈ all_refs (cards d) ->
     counted f (occurrences f (all_refs (cards d))) (media d'))
  /\ (forall r, r ∈ media d' -> Media.filename r ∉ all_refs (cards d) ->
        delete = false /\ Media.size r = 0%Z
        /\ Media.filename r ∈ map Media.filename (media d)).
Proof.
  intros Hrun. rebuild_run E delete dirty d Hrun; try discriminate.
  injection Hrun as _ <-.
  destruct (closed_fields dirty d4) as (Hm & _). rewrite Hm. clear Hm.
  unfold d4. simpl media. rewrite fold_apply_change. split.
  - intros f Hf. apply counted_changes. rewrite Hmedia3.
    assert (Hc : counted f (occurrences f (all_refs (cards d))) (media d2)).
    { apply Hcnt. rewrite count_refs_lookup, decide_True by exact Hf. reflexivity. }
    destruct delete; [|exact Hc].
    apply counted_filter; [|exact Hc]. pose proof (occurrences_pos _ _ Hf). lia.
  - intros r Hr Hnin. apply list_elem_of_fmap in Hr. destruct Hr as (r0 & -> & Hr0).
    destruct (fold_change_row_keeps U r0) as [Hname Hsize].
    rewrite Hname in Hnin |- *. rewrite Hsize.
    assert (Hnone : count_refs (cards d) !! Media.filename r0 = None)
      by (rewrite count_refs_lookup, decide_False by exact Hnin; reflexivity).
    rewrite Hmedia3 in Hr0. destruct delete.
    + apply list_elem_of_filter in Hr0. destruct Hr0 as [Hnz Hr0].
      destruct (Hold r0 Hr0 Hnone) as [Hz _]. unfold unreferenced in Hnz.
      rewrite Hz in Hnz. discriminate.
    + destruct (Hold r0 Hr0 Hnone) as [Hz Hin]. auto.
Qed.

(** X18: the list of the unused files that a rebuild returns holds, each
    once, the plain names of the files just below the media directory that
    no card refers to; directories and the paths further down are not in
    it.  A rebuild that does not delete leaves the files and the deleted
    rows alone, but for making the media directory; one that deletes removes
    the unused files and leaves every other path as it is.  The cards are
    not touched, the progress window is opened and closed, and the deck is
    marked as modified when [dirty] is set. *)
Theorem rebuild_unused (E : env) (delete dirty : bool) (d : deck)
    (nohave unused : list text) (d' : deck) :
  rebuildMediaDir E delete dirty d = Ret (nohave, unused) d' ->
  NoDup unused
  /\ (forall f, f ∈ unused <->
        f <> [] /\ existsb is_sep f = false
        /\ isfile (mkdir (fs d) (mediaPath d)) (join (mediaPath d) f) = true
        /\ f ∉ all_refs (cards d))
  /\ (delete = false ->
        fs d' = mkdir (fs d) (mediaPath d) /\ mediaDeleted d' = mediaDeleted d)
  /\ (delete = true ->
        (forall f, f ∈ unused -> lookup_path (fs d') (join (mediaPath d) f) = None)
        /\ (forall q, (forall f, f ∈ unused ->
                         resolve (fs d) q <> resolve (fs d) (join (mediaPath d) f)) ->
                      lookup_path (fs d') q = lookup_path (mkdir (fs d) (mediaPath d)) q))
  /\ cards d' = cards d
  /\ progress d' = progress d ++ [Start; Finish]
  /\ modified d' = dirty || modified d.
Proof.
  intros Hrun. rebuild_run E delete dirty d Hrun; try discriminate.
  rewrite Hfs2 in Hrun, Hlist, Hlook3.
  injection Hrun as _ <- <-.
  destruct (closed_fields dirty d4) as (_ & Hfs & Hcards & Hdel & Hprog & Hmod & _).
  rewrite Hfs, Hcards, Hdel, Hprog, Hmod. clear Hfs Hcards Hdel Hprog Hmod.
  unfold d4. simpl.
  destruct (listdir_names _ _ _ Hlist) as (_ & Hnd & Hnames).
  assert (Hres : forall q, resolve (mkdir (fs d) (mediaPath d)) q = resolve (fs d) q)
    by (intros q; unfold resolve; rewrite mkdir_cwd; reflexivity).
  split; [apply NoDup_filter, Hnd|]. split.
  { intros f. rewrite list_elem_of_filter, Hnames, count_refs_lookup.
    destruct (decide _) as [Hin | Hnin].
    - split; [intros [[_ H] _]; discriminate | tauto].
    - split; [tauto|]. intros (Hne & Hsep & Hfile & _).
      split; [split; [exact Hfile | reflexivity]|].
      split; [exact Hne|]. split; [exact Hsep|]. unfold isfile in Hfile.
      destruct (lookup_path (mkdir (fs d) (mediaPath d)) (join (mediaPath d) f));
        [eexists; reflexivity | discriminate]. }
  split.
  { intros ->. rewrite (Hsame3 eq_refl). split; congruence. }
  split.
  { intros ->. simpl in Hlook3. split.
    - intros f Hf. rewrite Hlook3. rewrite bool_decide_eq_true_2; [reflexivity|].
      apply list_elem_of_fmap. exists f. split; [reflexivity | exact Hf].
    - intros q Hq. rewrite Hlook3. rewrite bool_decide_eq_false_2; [reflexivity|].
      intros Hin. apply list_elem_of_fmap in Hin. destruct Hin as (f & Hf & Hin).
      rewrite !Hres in Hf. exact (Hq f Hin Hf). }
  split; [congruence|]. split; [|congruence].
  rewrite Hprog3, Hprog2, <- app_assoc. reflexivity.
Qed.

(** *** The checksums after the rebuild *)

Lemma fresh_sum_name E fs mdir r r' :
  Media.filename r = Media.filename r' -> fresh_sum E fs mdir r = fresh_sum E fs mdir r'.
Proof. unfold fresh_sum. intros ->. reflexivity. Qed.

Lemma changes_sound E fs mdir : forall rows n u,
  u ∈ changes_from E fs mdir n rows ->
  exists r, r ∈ rows /\ c_f u = Media.filename r
            /\ fresh_sum E fs mdir r = Some (c_sum u).
Proof.
  induction rows as [|r rows IH]; intros n u; simpl; [intros H; inversion H|].
  destruct (fresh_sum E fs mdir r) as [sum|] eqn:Hsum; [|intros H; inversion H].
  destruct (bool_decide (Media.originalPath r = sum)).
  - intros H. destruct (IH _ _ H) as (r' & Hr' & Hf). exists r'. split; [right|]; assumption.
  - intros H. apply elem_of_cons in H. destruct H as [-> | H].
    + exists r. split; [left|]. split; [reflexivity | exact Hsum].
    + destruct (IH _ _ H) as (r' & Hr' & Hf). exists r'. split; [right|]; assumption.
Qed.

Lemma changes_cover E fs mdir : forall rows n r s,
  Forall (fun r => is_Some (fresh_sum E fs mdir r)) rows ->
  r ∈ rows -> fresh_sum E fs mdir r = Some s -> Media.originalPath r <> s ->
  exists u, u ∈ changes_from E fs mdir n rows /\ c_f u = Media.filename r.
Proof.
  induction rows as [|r0 rows IH]; intros n r s Hok Hin Hs Hne; [inversion Hin|].
  apply Forall_cons in Hok. destruct Hok as [[s0 Hs0] Hok].
  simpl. rewrite Hs0. apply elem_of_cons in Hin. destruct Hin as [-> | Hin].
  - rewrite Hs in Hs0. injection Hs0 as <-.
    rewrite (bool_decide_eq_false_2 _ Hne). eexists. split; [left | reflexivity].
  - destruct (bool_decide (Media.originalPath r0 = s0)).
    + apply (IH n r s Hok Hin Hs Hne).
    + destruct (IH (S n) r s Hok Hin Hs Hne) as (u & Hu & Hf).
      exists u. split; [right; exact Hu | exact Hf].
Qed.

Lemma fold_change_sum : forall U r s,
  (forall u, u ∈ U -> c_f u = Media.filename r -> c_sum u = s) ->
  (Media.originalPath r = s \/ exists u, u ∈ U /\ c_f u = Media.filename r) ->
  Media.originalPath (fold_left change_row U r) = s.
Proof.
  induction U as [|u U IH]; intros r s Hall Hsome.
  - simpl. destruct Hsome as [H | (u & Hu & _)]; [exact H | inversion Hu].
  - simpl. apply IH.
    + intros u' Hu' Hf. rewrite change_row_filename in Hf. apply Hall; [right|]; assumption.
    + unfold change_row, has_filename.
      destruct (decide (Media.filename r = c_f u)) as [Heq | Hne].
      * rewrite (bool_decide_eq_true_2 _ Heq). left. simpl.
        apply Hall; [left | congruence].
      * rewrite (bool_decide_eq_false_2 _ Hne).
        destruct Hsome as [H | (u' & Hu' & Hf)]; [left; exact H|].
        apply elem_of_cons in Hu'. destruct Hu' as [-> | Hu']; [congruence|].
        right. exists u'. split; assumption.
Qed.

(** The rows after the changes that the check has collected. *)
Lemma refreshed_rows E fs mdir n rows :
  Forall (fun r => is_Some (fresh_sum E fs mdir r)) rows ->
  Forall (fun r => fresh_sum E fs mdir r = Some (Media.originalPath r))
         (map (fun r => fold_left change_row (changes_from E fs mdir n rows) r) rows).
Proof.
  intros Hok. apply Forall_forall.
  intros r Hr. apply list_elem_of_fmap in Hr. destruct Hr as (r0 & -> & Hr0).
  pose proof Hok as Hok'. rewrite Forall_forall in Hok'. destruct (Hok' r0 Hr0) as [s Hs].
  rewrite (fresh_sum_name _ _ _ _ r0) by apply fold_change_row_keeps.
  rewrite Hs. f_equal. symmetry. apply fold_change_sum.
  - intros u Hu Hf. destruct (changes_sound _ _ _ _ _ _ Hu) as (r1 & _ & Hf1 & Hs1).
    rewrite (fresh_sum_name _ _ _ r1 r0) in Hs1 by congruence. congruence.
  - destruct (decide (Media.originalPath r0 = s)) as [Heq | Hne]; [left; exact Heq|].
    right. apply (changes_cover E fs mdir rows n r0 s); assumption.
Qed.

(** X19: after a rebuild that returned, every row of the table holds the
    checksum of the file of its name in the media directory as it is then,
    the empty string when there is no such path; this needs no assumption
    on the table, rows of the same name included.  The list [nohave] that
    is returned holds the names of the rows with the empty checksum. *)
Theorem rebuild_sums_fresh (E : env) (delete dirty : bool) (d : deck)
    (nohave unused : list text) (d' : deck) :
  rebuildMediaDir E delete dirty d = Ret (nohave, unused) d' ->
  Forall (fun r => fresh_sum E (fs d') (mediaPath d) r = Some (Media.originalPath r))
         (media d')
  /\ forall f, f ∈ nohave <->
       exists r, r ∈ media d' /\ Media.filename r = f
                 /\ fresh_sum E (fs d') (mediaPath d) r = Some [].
Proof.
  intros Hrun. rebuild_run E delete dirty d Hrun; try discriminate.
  injection Hrun as <- _ <-.
  destruct (closed_fields dirty d4) as (Hm & Hfs & _). rewrite Hm, Hfs. clear Hm Hfs.
  assert (Hfresh : Forall (fun r => fresh_sum E (fs d4) (mediaPath d) r
                                    = Some (Media.originalPath r)) (media d4)).
  { unfold d4. simpl. rewrite fold_apply_change. apply refreshed_rows, Hok. }
  split; [exact Hfresh|].
  intros f. rewrite list_elem_of_fmap. rewrite Forall_forall in Hfresh. split.
  - intros (r & -> & Hr). apply list_elem_of_filter in Hr. destruct Hr as [He Hr].
    exists r. split; [exact Hr|]. split; [reflexivity|]. rewrite (Hfresh r Hr), He. reflexivity.
  - intros (r & Hr & <- & Hs). exists r. split; [reflexivity|].
    apply list_elem_of_filter. split; [|exact Hr].
    rewrite (Hfresh r Hr) in Hs. congruence.
Qed.

(** *** When the rebuild returns, and what it leaves when it does not *)

Lemma mkdir_self fs dir :
  lookup_path (mkdir fs dir) dir
  = match lookup_path fs dir with Some nd => Some nd | None => Some Dir end.
Proof.
  unfold mkdir. destruct (lookup_path fs dir) as [nd|] eqn:Hd; [exact Hd|].
  unfold lookup_path, resolve. simpl. apply lookup_insert_eq.
Qed.

Lemma listdir_is_Some fs dir : lookup_path fs dir = Some Dir -> is_Some (listdir fs dir).
Proof. unfold listdir. intros ->. eexists; reflexivity. Qed.

Lemma fresh_sum_checkable E fs mdir r :
  is_Some (fresh_sum E fs mdir r) <-> checkable fs mdir (Media.filename r) = true.
Proof.
  unfold fresh_sum, checkable.
  destruct (lookup_path fs (join mdir (Media.filename r))) as [[[|] x|]|]; split;
    first [reflexivity | discriminate | intros _; eexists; reflexivity | intros [? ?]; discriminate].
Qed.

Lemma fresh_sum_None E fs mdir r :
  fresh_sum E fs mdir r = None <-> checkable fs mdir (Media.filename r) = false.
Proof.
  unfold fresh_sum, checkable.
  destruct (lookup_path fs (join mdir (Media.filename r))) as [[[|] x|]|]; split;
    first [reflexivity | discriminate].
Qed.

(** X20: the rebuild returns, whether it deletes or not, when the media
    path is a directory or absent and, for every file name of the table or
    of a reference of a card, the path of that name in the media directory
    is absent or a file that can be read. *)
Theorem rebuild_returns (E : env) (delete dirty : bool) (d : deck) :
  isfile (fs d) (mediaPath d) = false ->
  (forall name, name ∈ map Media.filename (media d) ++ all_refs (cards d) ->
     checkable (mkdir (fs d) (mediaPath d)) (mediaPath d) name = true) ->
  exists nohave unused d',
    rebuildMediaDir E delete dirty d = Ret (nohave, unused) d'.
Proof.
  intros Hdir Hnames.
  assert (Hmdir : lookup_path (mkdir (fs d) (mediaPath d)) (mediaPath d) = Some Dir).
  { rewrite mkdir_self. unfold isfile in Hdir.
    destruct (lookup_path (fs d) (mediaPath d)) as [[rd x|]|]; [discriminate | reflexivity..]. }
  destruct (rebuildMediaDir E delete dirty d) as [[nohave unused] d'|e d'|] eqn:Hrun.
  - eauto.
  - exfalso. rebuild_run E delete dirty d Hrun.
    + discriminate.
    + apply Exists_exists in Hex. destruct Hex as (r & Hr & Hnone).
      apply fresh_sum_None in Hnone.
      assert (Hr2 : r ∈ media d2).
      { rewrite Hmedia3 in Hr. destruct delete; [|exact Hr].
        apply list_elem_of_filter in Hr. tauto. }
      assert (Hname : Media.filename r ∈ map Media.filename (media d) ++ all_refs (cards d)).
      { apply elem_of_app. destruct (decide (Media.filename r ∈ all_refs (cards d)))
          as [Hin | Hnin]; [right; exact Hin | left].
        apply (Hold r Hr2). rewrite count_refs_lookup, decide_False by exact Hnin.
        reflexivity. }
      specialize (Hnames _ Hname). unfold checkable in Hnone, Hnames.
      rewrite Hlook3, Hfs2 in Hnone.
      destruct (andb _ _); [discriminate|]. rewrite Hnone in Hnames. discriminate.
    + rewrite Hfs2 in Hlist. destruct (listdir_is_Some _ _ Hmdir) as [names Hn].
      rewrite Hn in Hlist. discriminate.
  - exfalso. rebuild_run E delete dirty d Hrun; discriminate.
Qed.

(** X21: when the rebuild raises, the progress window is left open and
    the deck is not marked as modified, but the counts of the table are
    already those of the references.  The error is the one of [os.listdir],
    when the media path is a file and nothing else was done to the files,
    or the one of [open] in the check of the md5s, when the path of some
    row of the table then is a directory or a file that cannot be read. *)
Theorem rebuild_failure (E : env) (delete dirty : bool) (d : deck) (e : exn) (d' : deck) :
  rebuildMediaDir E delete dirty d = Raise e d' ->
  progress d' = progress d ++ [Start]
  /\ modified d' = modified d
  /\ cards d' = cards d
  /\ (forall f, f ∈ all_refs (cards d) ->
        counted f (occurrences f (all_refs (cards d))) (media d'))
  /\ ((e = OSError /\ isfile (fs d) (mediaPath d) = true /\ fs d' = fs d)
      \/ (e = IOError
          /\ exists r, r ∈ media d'
                       /\ checkable (fs d') (mediaPath d) (Media.filename r) = false)).
Proof.
  intros Hrun.
  assert (Hc2 : forall d2, (forall f n, count_refs (cards d) !! f = Some n ->
                                        counted f n (media d2)) ->
                forall f, f ∈ all_refs (cards d) ->
                          counted f (occurrences f (all_refs (cards d))) (media d2)).
  { intros d2 Hcnt f Hf. apply Hcnt.
    rewrite count_refs_lookup, decide_True by exact Hf. reflexivity. }
  rebuild_run E delete dirty d Hrun.
  - discriminate.
  - injection Hrun as <- <-. simpl.
    split; [congruence|]. split; [congruence|]. split; [congruence|]. split.
    + intros f Hf. rewrite Hmedia3. destruct delete; [|apply (Hc2 _ Hcnt f Hf)].
      apply counted_filter; [|apply (Hc2 _ Hcnt f Hf)].
      pose proof (occurrences_pos _ _ Hf). lia.
    + right. split; [reflexivity|].
      apply Exists_exists in Hex. destruct Hex as (r & Hr & Hnone).
      exists r. split; [exact Hr|]. apply fresh_sum_None in Hnone.
      exact Hnone.
  - injection Hrun as <- <-.
    split; [exact Hprog2|]. split; [exact Hmod2|]. split; [exact Hcards2|].
    split; [exact (Hc2 _ Hcnt)|]. left. split; [reflexivity|].
    rewrite Hfs2 in Hlist |- *. unfold listdir in Hlist. rewrite mkdir_self in Hlist.
    unfold isfile, mkdir.
    destruct (lookup_path (fs d) (mediaPath d)) as [[rd x|]|]; try discriminate.
    split; reflexivity.
Qed.

Lemma removeUnusedMedia_unique E d d' :
  NoDup (map Media.filename (media d)) ->
  removeUnusedMedia E d = Ret tt d' ->
  NoDup (map Media.filename (media d')).
Proof.
  intros Hnd Hrun.
  destruct (removeUnusedMedia_stage E d) as (d0 & Hrun0 & Hmedia & _).
  rewrite Hrun in Hrun0. injection Hrun0 as <-. rewrite Hmedia.
  clear -Hnd. induction (media d) as [|r rows IH]; [constructor|].
  simpl in Hnd. apply NoDup_cons in Hnd. destruct Hnd as [Hr Hnd].
  rewrite filter_cons. destruct (decide (unreferenced r = false)); [|apply IH, Hnd].
  simpl. constructor; [|apply IH, Hnd].
  intros Hin. apply Hr. apply list_elem_of_fmap in Hin. destruct Hin as (r' & Hf & Hin).
  apply list_elem_of_filter in Hin. apply list_elem_of_fmap. exists r'. tauto.
Qed.

(** X22: the file names of the table stay distinct.  When no two rows
    have the same file name, this is still so after [updateMediaCount],
    after [removeUnusedMedia], and after a rebuild that returned; so the
    rebuild leaves the table as the check of the md5s needs it for each row
    to be handled on its own. *)
Theorem filenames_stay_distinct (E : env) (d : deck) :
  NoDup (map Media.filename (media d)) ->
  (forall file count d', updateMediaCount E file count d = Ret tt d' ->
     NoDup (map Media.filename (media d')))
  /\ (forall d', removeUnusedMedia E d = Ret tt d' ->
        NoDup (map Media.filename (media d')))
  /\ (forall delete dirty res d', rebuildMediaDir E delete dirty d = Ret res d' ->
        NoDup (map Media.filename (media d'))).
Proof.
  intros Hnd. split; [|split].
  - intros file count d'. apply updateMediaCount_unique, Hnd.
  - intros d'. apply removeUnusedMedia_unique, Hnd.
  - intros delete dirty res d' Hrun. rebuild_run E delete dirty d Hrun; try discriminate.
    injection Hrun as _ <-.
    destruct (closed_fields dirty d4) as (Hm & _). rewrite Hm. clear Hm.
    unfold d4. simpl media. rewrite fold_apply_change, map_map.
    erewrite map_ext; [|intros r; apply fold_change_row_keeps].
    specialize (Hnd2 Hnd). rewrite Hmedia3. destruct delete; [|exact Hnd2].
    clear -Hnd2. induction (media d2) as [|r rows IH]; [constructor|].
    simpl in Hnd2. apply NoDup_cons in Hnd2. destruct Hnd2 as [Hr Hnd].
    rewrite filter_cons. destruct (decide (unreferenced r = false)); [|apply IH, Hnd].
    simpl. constructor; [|apply IH, Hnd].
    intros Hin. apply Hr. apply list_elem_of_fmap in Hin. destruct Hin as (r' & Hf & Hin).
    apply list_elem_of_filter in Hin. apply list_elem_of_fmap. exists r'. tauto.
Qed.

(** *** A second rebuild *)

Lemma update_where_has g file h rows :
  (forall r, Media.filename (h r) = Media.filename r) ->
  existsb (has_filename g) (update_where file h rows) = existsb (has_filename g) rows.
Proof.
  intros Hh. induction rows as [|r rows IH]; [reflexivity|].
  simpl. rewrite IH. f_equal. unfold has_filename.
  destruct (bool_decide (Media.filename r = file)); [rewrite Hh|]; reflexivity.
Qed.

(** The loop over [refs] when every name has a row already: no row is
    added, and the count of each one goes up by what [refs] has for its
    name. *)
Lemma for_each_known E : forall (l : list (text * Z)) d,
  NoDup (map fst l) ->
  (forall x, x ∈ l -> existsb (has_filename x.1) (media d) = true) ->
  exists d',
    for_each l (fun '(file, count) => updateMediaCount E file count) d = Ret tt d'
    /\ same_files d d' /\ issued d' = issued d
    /\ map row_data (media d') = map row_data (media d)
    /\ map Media.size (media d')
       = map (fun r => (Media.size r
                        + default 0%Z ((list_to_map l : gmap text Z) !! Media.filename r))%Z)
             (media d).
Proof.
  induction l as [|[f n] l IH]; intros d Hnd Hknown.
  - exists d. split; [reflexivity|]. split; [apply same_files_refl|].
    split; [reflexivity|]. split; [reflexivity|].
    simpl. apply map_ext. intros r. rewrite lookup_empty. simpl. lia.
  - simpl in Hnd. apply NoDup_cons in Hnd. destruct Hnd as [Hf Hnd].
    assert (Hk : existsb (has_filename f) (media d) = true)
      by (apply (Hknown (f, n)); left).
    pose proof (updateMediaCount_known E f n d Hk) as Hrun.
    set (da := with_media _ _) in Hrun.
    destruct (IH da Hnd) as (d' & Hrun' & Hsame & Hiss & Hdata & Hsize).
    { intros x Hx. unfold da. simpl. rewrite update_where_has by reflexivity.
      apply Hknown. right. exact Hx. }
    exists d'. split; [simpl; rewrite (bind_Ret _ _ _ _ _ Hrun); exact Hrun'|].
    split.
    { eapply same_files_trans; [|exact Hsame]. unfold same_files, da. simpl. tauto. }
    split; [rewrite Hiss; reflexivity|]. split.
    { rewrite Hdata. unfold da. simpl. unfold update_where. rewrite map_map.
      apply map_ext. intros r. destruct (has_filename f r); reflexivity. }
    rewrite Hsize. unfold da. simpl media. unfold update_where. rewrite map_map.
    apply map_ext. intros r. unfold has_filename. simpl list_to_map.
    destruct (decide (Media.filename r = f)) as [Heq | Hne].
    + rewrite (bool_decide_eq_true_2 _ Heq). simpl. rewrite Heq, lookup_insert_eq.
      rewrite (not_elem_of_list_to_map_1 _ _ Hf). simpl. lia.
    + rewrite (bool_decide_eq_false_2 _ Hne). rewrite lookup_insert_ne by congruence.
      reflexivity.
Qed.

Lemma changes_none E fs mdir : forall rows n,
  Forall (fun r => fresh_sum E fs mdir r = Some (Media.originalPath r)) rows ->
  changes_from E fs mdir n rows = [].
Proof.
  induction rows as [|r rows IH]; intros n H; [reflexivity|].
  apply Forall_cons in H. destruct H as [Hr H]. simpl. rewrite Hr.
  rewrite bool_decide_eq_true_2 by reflexivity. apply IH, H.
Qed.

Lemma row_data_Forall (Q : Media.row -> Prop) :
  (forall r r', row_data r = row_data r' -> Q r -> Q r') ->
  forall l l', map row_data l = map row_data l' -> Forall Q l -> Forall Q l'.
Proof.
  intros HQ. induction l as [|r l IH]; intros [|r' l'] Heq Hall; try discriminate;
    [constructor|].
  cbn [map] in Heq. apply (f_equal head) in Heq as Hr. apply (f_equal tail) in Heq as Hl.
  cbn [head tail] in Hr, Hl. apply (inj Some) in Hr.
  apply Forall_cons in Hall. destruct Hall as [Hq Hall].
  constructor; [exact (HQ _ _ Hr Hq) | exact (IH _ Hl Hall)].
Qed.

Lemma nohave_row_data : forall l l',
  map row_data l = map row_data l' ->
  map Media.filename (filter (fun r => Media.originalPath r = []) l)
  = map Media.filename (filter (fun r => Media.originalPath r = []) l').
Proof.
  induction l as [|r l IH]; intros [|r' l'] Heq; try discriminate; [reflexivity|].
  cbn [map] in Heq. apply (f_equal head) in Heq as Hr. apply (f_equal tail) in Heq as Hl.
  cbn [head tail] in Hr, Hl. apply (inj Some) in Hr.
  unfold row_data in Hr. injection Hr as _ Hf Hs _.
  rewrite !filter_cons, Hs.
  destruct (decide (Media.originalPath r' = [])); simpl; rewrite (IH _ Hl); congruence.
Qed.

(** X23: a rebuild that does not delete can be run again at once: the
    second run returns, with the same two lists as the first, and leaves
    the files, the deleted rows and the rows of the table as the first run
    left them, but for the times of the rows; no identifier is used up. *)
Theorem rebuild_twice (E : env) (dirty dirty' : bool) (d : deck)
    (nohave unused : list text) (d1 : deck) :
  rebuildMediaDir E false dirty d = Ret (nohave, unused) d1 ->
  exists d2,
    rebuildMediaDir E false dirty' d1 = Ret (nohave, unused) d2
    /\ fs d2 = fs d1
    /\ map row_data (media d2) = map row_data (media d1)
    /\ map Media.size (media d2) = map Media.size (media d1)
    /\ issued d2 = issued d1
    /\ mediaDeleted d2 = mediaDeleted d1.
Proof.
  intros Hrun. rebuild_run E false dirty d Hrun; try discriminate.
  injection Hrun as Hno Hun Hd1.
  pose proof (Hsame3 eq_refl) as Hd3. subst d3.
  clear Hsame3 Hmedia3 Hcards3 Hpath3 Hurl3 Hmod3 Hprog3 Hreq3 Hcwd3 Hlook3.
  destruct (closed_fields dirty d4) as (Hm1 & Hfs1 & Hcards1 & _ & _ & _ & Hpath1).
  rewrite Hd1 in Hm1, Hfs1, Hcards1, Hpath1.
  assert (Hm4 : media d4 = map (fun r => fold_left change_row U r) (media d2))
    by (unfold d4; simpl; apply fold_apply_change).
  change (fs d4) with (fs d2) in Hfs1. change (cards d4) with (cards d2) in Hcards1.
  change (mediaPath d4) with (mediaPath d2) in Hpath1.
  rewrite Hm4 in Hm1.
  set (refs := count_refs (cards d)) in *. set (mdir := mediaPath d) in *.
  (* the table that the first run has left *)
  assert (Hcnt1 : forall f n, refs !! f = Some n -> counted f n (media d1))
    by (intros f n Hf; rewrite Hm1; apply counted_changes, Hcnt, Hf).
  assert (Hold1 : forall r, r ∈ media d1 -> refs !! Media.filename r = None ->
                            Media.size r = 0%Z).
  { intros r Hr Hnone. rewrite Hm1 in Hr. apply list_elem_of_fmap in Hr.
    destruct Hr as (r0 & -> & Hr0). destruct (fold_change_row_keeps U r0) as [Hname Hsize].
    rewrite Hname in Hnone. rewrite Hsize. apply (Hold r0 Hr0 Hnone). }
  assert (Hfresh1 : Forall (fun r => fresh_sum E (fs d1) mdir r
                                     = Some (Media.originalPath r)) (media d1))
    by (rewrite Hm1, Hfs1; apply refreshed_rows, Hok).
  assert (Hlist1 : listdir (fs d1) mdir = Some names) by (rewrite Hfs1; exact Hlist).
  (* the second run *)
  set (d1r := with_media (map reset_count (media d1))
                (with_fs (mkdir (fs d1) (mediaPath d1)) (said Start d1))).
  destruct (for_each_known E (map_to_list (count_refs (cards d1))) d1r)
    as (e2 & Hrun2 & (Hfs2' & Hdel2' & _) & Hiss2 & Hdata2 & Hsize2).
  { apply NoDup_fst_map_to_list. }
  { intros [f n] Hx. apply elem_of_map_to_list in Hx. rewrite Hcards1, Hcards2 in Hx.
    destruct (Hcnt1 f n Hx) as [(r & Hr & Hname) _].
    unfold d1r. simpl. apply existsb_exists. exists (reset_count r). split.
    - apply list_elem_of_In, list_elem_of_fmap. exists r. split; [reflexivity | exact Hr].
    - apply bool_decide_eq_true. exact Hname. }
  rewrite list_to_map_to_list in Hsize2.
  rewrite Hcards1, Hcards2 in Hrun2, Hsize2. fold refs in Hrun2, Hsize2.
  unfold d1r in Hfs2', Hdel2', Hiss2, Hdata2, Hsize2.
  simpl in Hfs2', Hdel2', Hiss2, Hdata2, Hsize2.
  rewrite Hpath1, Hpath2 in Hfs2'. fold mdir in Hfs2'.
  rewrite (listdir_Some_dir _ _ _ Hlist1) in Hfs2'.
  rewrite map_map in Hdata2, Hsize2.
  change (map (fun x => row_data (reset_count x)) (media d1))
    with (map row_data (media d1)) in Hdata2.
  assert (Hsizes : map Media.size (media e2) = map Media.size (media d1)).
  { rewrite Hsize2. apply map_ext_in. intros r Hr. apply list_elem_of_In in Hr. simpl.
    destruct (refs !! Media.filename r) as [n|] eqn:Hn; simpl.
    - destruct (Hcnt1 _ _ Hn) as [_ Hall]. rewrite (Hall r Hr eq_refl). reflexivity.
    - rewrite (Hold1 r Hr Hn). reflexivity. }
  assert (Hfresh2 : Forall (fun r => fresh_sum E (fs e2) mdir r
                                     = Some (Media.originalPath r)) (media e2)).
  { rewrite Hfs2'. refine (row_data_Forall _ _ _ _ (eq_sym Hdata2) Hfresh1).
    intros r r' Hrr Hr. unfold row_data in Hrr. injection Hrr as _ Hf Hs _.
    rewrite <- (fresh_sum_name E (fs d1) mdir r r' Hf), <- Hs. exact Hr. }
  assert (Hlist2 : listdir (fs e2) mdir = Some names) by (rewrite Hfs2'; exact Hlist1).
  assert (Heq2 : rebuildMediaDir E false dirty' d1
                 = rebuild_tail E false dirty' mdir refs e2).
  { rewrite rebuild_unfold. fold d1r. rewrite Hcards1, Hcards2, Hpath1, Hpath2.
    fold refs mdir. rewrite (bind_Ret _ _ _ _ _ Hrun2). reflexivity. }
  destruct (rebuild_tail_run E false dirty' mdir refs names e2 Hlist2)
    as (e3 & _ & _ & _ & _ & _ & _ & _ & Hsame & _ & _ & [[_ Htail] | [Hex _]]).
  2: { exfalso. rewrite (Hsame eq_refl) in Hex. apply Exists_exists in Hex.
       destruct Hex as (r & Hr & Hnone). rewrite Forall_forall in Hfresh2.
       rewrite (Hfresh2 r Hr) in Hnone. discriminate. }
  rewrite (Hsame eq_refl) in Htail. cbv zeta in Htail.
  rewrite (changes_none _ _ _ _ _ Hfresh2) in Htail. simpl fold_left in Htail.
  eexists. split.
  { rewrite Heq2, Htail. f_equal. f_equal.
    - simpl media. rewrite <- Hno, fold_apply_change, <- Hm1.
      apply nohave_row_data. exact Hdata2.
    - rewrite <- Hun, Hfs2', Hfs1. reflexivity. }
  destruct (closed_fields dirty'
              (with_media (media e2) (with_readings (readings e2 + length (@nil change)) e2)))
    as (Hm & Hfs & _ & Hdel & _).
  rewrite Hm, Hfs, Hdel. simpl. split; [exact Hfs2'|]. split; [exact Hdata2|].
  split; [exact Hsizes|]. split; [|exact Hdel2'].
  destruct dirty'; exact Hiss2.
Qed.

(** ** The further properties at work on the example decks *)


Lemma updateMediaCount_adds_witness :
  exists d2,
    (updateMediaCount env0 (str "a.mp3") 2 ;;; updateMediaCount env0 (str "a.mp3") (-2))
      deck_refs = Ret tt d2
    /\ map Media.size (media d2) = [7%Z].
Proof.
  destruct (updateMediaCount_adds env0 (str "a.mp3") 2 (-2) deck_refs)
    as (d2 & d3 & Hrun & _ & _ & _ & _ & Hback).
  - vm_compute. reflexivity.
  - exists d2. split; [exact Hrun|]. rewrite Hback; reflexivity.
Defined.

Lemma plain_text_untouched_witness :
  mediaFiles (str "no media here") = [] /\ stripMedia (str "no media here") = str "no media here".
Proof.
  apply plain_text_untouched.
  split; apply (bool_decide_unpack _); vm_compute; exact I.
Defined.

Lemma sound_tag_round_trip_witness :
  mediaFiles (str "Say [Sound:a b.mp3] twice") = [str "a b.mp3"]
  /\ stripMedia (str "Say [Sound:a b.mp3] twice") = str "Say  twice".
Proof.
  apply (sound_tag_round_trip (str "Say ") (str "[Sound:") (str "a b.mp3") (str " twice")).
  - vm_compute. reflexivity.
  - discriminate.
  - apply (bool_decide_unpack _). vm_compute. exact I.
  - apply (bool_decide_unpack _). vm_compute. exact I.
  - split; apply (bool_decide_unpack _); vm_compute; exact I.
  - split; apply (bool_decide_unpack _); vm_compute; exact I.
Defined.

Lemma mediaFiles_names_witness :
  exists a b, str "<img src='b.jpg'>" = a ++ str "b.jpg" ++ b.
Proof.
  destruct (mediaFiles_names (str "<img src='b.jpg'>") (str "b.jpg")) as (_ & H & _).
  - apply (bool_decide_unpack _). vm_compute. exact I.
  - exact H.
Defined.

Lemma uniquePath_smallest_counter_witness :
  path_exists (fs deck_refs) (str "/m/a (1).mp3") = false.
Proof.
  destruct (uniquePath_smallest_counter 5 (fs deck_refs) (str "/m") (str "a.mp3")
              (str "/m/a (1).mp3")) as [H _].
  - vm_compute. reflexivity.
  - vm_compute. reflexivity.
  - exact H.
Defined.

Lemma uniquePath_name_clean_witness :
  str "/m/a (1).mp3" = join (str "/m") (basename (str "/m/a (1).mp3"))
  /\ existsb dangerous (basename (str "/m/a (1).mp3")) = false
  /\ path_exists (fs deck_refs) (str "/m/a (1).mp3") = false.
Proof.
  apply (uniquePath_name_clean 5 (fs deck_refs) (str "/m") (str "<a>.mp3")).
  vm_compute. reflexivity.
Defined.


Lemma copyToMedia_then_known_witness :
  exists d1 d2,
    copyToMedia env0 5 (str "/tmp/a.txt") deck_import = Ret (str "a.txt") d1
    /\ updateMediaCount env0 (str "a.txt") 1 d1 = Ret tt d2
    /\ copyToMedia env0 5 (str "/tmp/b.txt") d2 = Ret (str "a.txt") d2.
Proof.
  let r := eval vm_compute in (copyToMedia env0 5 (str "/tmp/a.txt") deck_import) in
  match r with Ret _ ?x => pose (d1 := x) end.
  assert (H1 : copyToMedia env0 5 (str "/tmp/a.txt") deck_import = Ret (str "a.txt") d1)
    by (vm_compute; reflexivity).
  destruct (copyToMedia_then_known env0 5 (str "/tmp/a.txt") (str "/tmp/b.txt")
              deck_import d1 (str "same") (str "a.txt")) as (d2 & Hup & _ & Hrun).
  - vm_compute. reflexivity.
  - vm_compute. reflexivity.
  - exact H1.
  - discriminate.
  - reflexivity.
  - vm_compute. reflexivity.
  - exists d1, d2. auto.
Defined.

Lemma downloadMissing_nothing_missing_witness :
  exists d', downloadMissing env0 deck_refs = Ret (Done 0 0) d'
             /\ progress d' = [Start; Update 0; Finish].
Proof.
  eexists. split.
  - apply (downloadMissing_nothing_missing env0 deck_refs "h"%char (str "ttp://host/")).
    + reflexivity.
    + repeat constructor.
  - reflexivity.
Defined.


Lemma rebuild_counts_references_witness :
  exists res d',
    rebuildMediaDir env0 true false deck_refs = Ret res d'
    /\ counted (str "a.mp3") 2 (media d')
    /\ counted (str "b.jpg") 1 (media d').
Proof.
  let r := eval vm_compute in (rebuildMediaDir env0 true false deck_refs) in
  match r with Ret ?a ?x => pose (res := a); pose (d' := x) end.
  exists res, d'.
  assert (Hrun : rebuildMediaDir env0 true false deck_refs = Ret res d')
    by (vm_compute; reflexivity).
  split; [exact Hrun|].
  destruct (rebuild_counts_references env0 true false deck_refs res d' Hrun) as [H _].
  split.
  - apply (H (str "a.mp3")). apply (bool_decide_unpack _). vm_compute. exact I.
  - apply (H (str "b.jpg")). apply (bool_decide_unpack _). vm_compute. exact I.
Defined.

Lemma rebuild_unused_witness :
  exists nohave d',
    rebuildMediaDir env0 true false deck_refs = Ret (nohave, [str "c.png"]) d'
    /\ lookup_path (fs d') (join (str "/m") (str "c.png")) = None
    /\ progress d' = [Start; Finish].
Proof.
  let r := eval vm_compute in (rebuildMediaDir env0 true false deck_refs) in
  match r with Ret (?a, _) ?x => pose (nohave := a); pose (d' := x) end.
  exists nohave, d'.
  assert (Hrun : rebuildMediaDir env0 true false deck_refs = Ret (nohave, [str "c.png"]) d')
    by (vm_compute; reflexivity).
  split; [exact Hrun|].
  destruct (rebuild_unused env0 true false deck_refs nohave [str "c.png"] d' Hrun)
    as (_ & _ & _ & Hdel & _ & Hprog & _).
  split; [|exact Hprog].
  apply (proj1 (Hdel eq_refl)). left.
Defined.

Lemma rebuild_sums_fresh_witness :
  exists nohave unused d',
    rebuildMediaDir env0 false true deck_sums = Ret (nohave, unused) d'
    /\ Forall (fun r => fresh_sum env0 (fs d') (str "/m") r = Some (Media.originalPath r))
              (media d').
Proof.
  let r := eval vm_compute in (rebuildMediaDir env0 false true deck_sums) in
  match r with Ret (?a, ?b) ?x => pose (nohave := a); pose (unused := b); pose (d' := x) end.
  exists nohave, unused, d'.
  assert (Hrun : rebuildMediaDir env0 false true deck_sums = Ret (nohave, unused) d')
    by (vm_compute; reflexivity).
  split; [exact Hrun|].
  apply (rebuild_sums_fresh env0 false true deck_sums nohave unused d' Hrun).
Defined.

Lemma rebuild_returns_witness :
  exists nohave unused d',
    rebuildMediaDir env0 true true deck_refs = Ret (nohave, unused) d'.
Proof.
  apply (rebuild_returns env0 true true deck_refs).
  - vm_compute. reflexivity.
  - apply Forall_forall.
    let l := eval vm_compute in
      (map Media.filename (media deck_refs) ++ all_refs (cards deck_refs)) in
    change (map Media.filename (media deck_refs) ++ all_refs (cards deck_refs)) with l.
    repeat constructor.
Defined.

Lemma rebuild_failure_witness :
  exists d',
    rebuildMediaDir env0 false true deck_unreadable = Raise IOError d'
    /\ progress d' = [Start]
    /\ modified d' = false
    /\ counted (str "a.mp3") 1 (media d').
Proof.
  let r := eval vm_compute in (rebuildMediaDir env0 false true deck_unreadable) in
  match r with Raise _ ?x => pose (d' := x) end.
  exists d'.
  assert (Hrun : rebuildMediaDir env0 false true deck_unreadable = Raise IOError d')
    by (vm_compute; reflexivity).
  split; [exact Hrun|].
  destruct (rebuild_failure env0 false true deck_unreadable IOError d' Hrun)
    as (Hprog & Hmod & _ & Hcnt & _).
  split; [exact Hprog|]. split; [exact Hmod|].
  apply (Hcnt (str "a.mp3")). apply (bool_decide_unpack _). vm_compute. exact I.
Defined.

Lemma filenames_stay_distinct_witness :
  exists res d',
    rebuildMediaDir env0 true true deck_sums = Ret res d'
    /\ NoDup (map Media.filename (media d')).
Proof.
  let r := eval vm_compute in (rebuildMediaDir env0 true true deck_sums) in
  match r with Ret ?a ?x => pose (res := a); pose (d' := x) end.
  exists res, d'.
  assert (Hrun : rebuildMediaDir env0 true true deck_sums = Ret res d')
    by (vm_compute; reflexivity).
  split; [exact Hrun|].
  destruct (filenames_stay_distinct env0 deck_sums) as (_ & _ & H).
  - apply (bool_decide_unpack _). vm_compute. exact I.
  - exact (H true true res d' Hrun).
Defined.

Lemma rebuild_twice_witness :
  exists nohave unused d1 d2,
    rebuildMediaDir env0 false true deck_refs = Ret (nohave, unused) d1
    /\ rebuildMediaDir env0 false false d1 = Ret (nohave, unused) d2
    /\ fs d2 = fs d1
    /\ map Media.size (media d2) = map Media.size (media d1).
Proof.
  let r := eval vm_compute in (rebuildMediaDir env0 false true deck_refs) in
  match r with Ret (?a, ?b) ?x => pose (nohave := a); pose (unused := b); pose (d1 := x) end.
  assert (Hrun : rebuildMediaDir env0 false true deck_refs = Ret (nohave, unused) d1)
    by (vm_compute; reflexivity).
  destruct (rebuild_twice env0 true false deck_refs nohave unused d1 Hrun)
    as (d2 & Hrun2 & Hfs & _ & Hsize & _).
  exists nohave, unused, d1, d2. auto.
Defined.
